(** * Verdant EcoSystem back end: segmentation engine and route optimiser

    A shallow embedding of [backend_ai.c] (4-tier K-Means customer
    segmentation) and [backend_logistics.c] (nearest-neighbour tour
    construction followed by 2-opt local search), together with the
    properties their specification states about them.

    The C code computes in [float] (segmentation) and [double] (routing).
    Every function below is written once, over an interface [FloatOps] of
    the arithmetic operations the C code uses, in the order in which the C
    code applies them.  The interface is implemented by IEEE 754 binary32
    and binary64 (through the Standard Library's [SpecFloat]: round to
    nearest even, every operation rounded to its own format, no fused or
    extended-precision evaluation), in which the model evaluates and in
    which the numerical statements are proved, and by exact real
    arithmetic with a point at infinity, an instance of the order
    conditions under which the search never lengthens a route.

    Undefined behaviour of the C code (a store before the start of an
    array) is a result [None]; null pointers are [None] arguments; the
    outcome of every allocation is an argument of the function that
    allocates. *)

From Stdlib Require Import ZArith List String Ascii Bool Lia Reals Lra Permutation.
From Stdlib Require Import Floats.SpecFloat DecimalString.
From stdpp Require Import base list.
From Stdlib Require DecimalFacts DecimalPos.


(** ** The arithmetic interface *)

Class FloatOps (F : Type) : Type := {
  f_of_int : Z -> F;             (* (float) n, (double) n *)
  f_lit : Z -> Z -> F;           (* the literal num/den in the format F *)
  f_add : F -> F -> F;
  f_sub : F -> F -> F;
  f_mul : F -> F -> F;
  f_div : F -> F -> F;
  f_sqrt : F -> F;               (* sqrtf, sqrt *)
  f_lt : F -> F -> bool;         (* x < y *)
  f_lt_dlit : F -> Z -> Z -> bool  (* x < (the double literal num/den) *)
}.

(** [INFINITY] of <math.h>. *)
Class FloatInf (F : Type) : Type := { f_inf : F }.

(** IEEE 754 binary32: the C type [float]. *)
Definition binary32 : Type := spec_float.

Definition b32_of_int (n : Z) : binary32 := binary_normalize 24 128 n 0 false.

(** A literal is the correctly rounded quotient of its numerator and
    denominator, both of which are exact in the format. *)
Definition b32_lit (num den : Z) : binary32 :=
  SFdiv 24 128 (b32_of_int num) (b32_of_int den).

(** IEEE 754 binary64: the C type [double]. *)
Definition binary64 : Type := spec_float.

Definition b64_of_int (n : Z) : binary64 := binary_normalize 53 1024 n 0 false.

Definition b64_lit (num den : Z) : binary64 :=
  SFdiv 53 1024 (b64_of_int num) (b64_of_int den).

(** The conversion of a [float] to [double], as in the usual arithmetic
    conversions of C: the value is kept, the number is written in the
    form of the wider format. *)
Definition b32_to_b64 (x : binary32) : binary64 :=
  match x with
  | S754_finite s m e => binary_normalize 53 1024 (cond_Zopp s (Z.pos m)) e s
  | _ => x
  end.

#[global] Typeclasses Opaque binary32 binary64.

#[export] Instance b32_ops : FloatOps binary32 := {|
  f_of_int := b32_of_int;
  f_lit := b32_lit;
  f_add := SFadd 24 128;
  f_sub := SFsub 24 128;
  f_mul := SFmul 24 128;
  f_div := SFdiv 24 128;
  f_sqrt := SFsqrt 24 128;
  f_lt := SFltb;
  (* the float is promoted to double and the two doubles are compared *)
  f_lt_dlit := fun x num den => SFltb (b32_to_b64 x) (b64_lit num den)
|}.

#[export] Instance b64_ops : FloatOps binary64 := {|
  f_of_int := b64_of_int;
  f_lit := b64_lit;
  f_add := SFadd 53 1024;
  f_sub := SFsub 53 1024;
  f_mul := SFmul 53 1024;
  f_div := SFdiv 53 1024;
  f_sqrt := SFsqrt 53 1024;
  f_lt := SFltb;
  f_lt_dlit := fun x num den => SFltb x (b64_lit num den)
|}.

#[export] Instance b64_inf : FloatInf binary64 := {| f_inf := S754_infinity false |}.

(** The order of the real numbers as a test. *)
Definition Rltb (x y : R) : bool := if Rlt_dec x y then true else false.


(** Exact real arithmetic with a point at infinity, for code that starts a
    running minimum at [INFINITY]. *)
Inductive xreal : Type :=
| XFin (r : R)
| XInf.

Definition xr_lift1 (f : R -> R) (x : xreal) : xreal :=
  match x with
  | XFin a => XFin (f a)
  | XInf => XInf
  end.

Definition xr_lift2 (f : R -> R -> R) (x y : xreal) : xreal :=
  match x, y with
  | XFin a, XFin b => XFin (f a b)
  | _, _ => XInf
  end.

Definition xr_lt (x y : xreal) : bool :=
  match x, y with
  | XFin a, XFin b => Rltb a b
  | XFin _, XInf => true
  | XInf, _ => false
  end.

#[export] Instance xr_ops : FloatOps xreal := {|
  f_of_int := fun n => XFin (IZR n);
  f_lit := fun num den => XFin (IZR num / IZR den);
  f_add := xr_lift2 Rplus;
  f_sub := xr_lift2 Rminus;
  f_mul := xr_lift2 Rmult;
  f_div := xr_lift2 Rdiv;
  f_sqrt := xr_lift1 sqrt;
  f_lt := xr_lt;
  f_lt_dlit := fun x num den => xr_lt x (XFin (IZR num / IZR den))
|}.

#[export] Instance xr_inf : FloatInf xreal := {| f_inf := XInf |}.

(** ** Text written to the caller's buffer *)

Definition NUL : ascii := Ascii.zero.

Definition chars (s : string) : list ascii := list_ascii_of_string s.

(** [printf("%d", n)]. *)
Definition fmt_d (n : Z) : list ascii :=
  chars (DecimalString.NilZero.string_of_int (Z.to_int n)).

(** Overwrite [buf] from index [off] on with [data]; bytes that would fall
    beyond the end of the region are not written. *)
Fixpoint poke (buf : list ascii) (off : nat) (data : list ascii) : list ascii :=
  match data with
  | [] => buf
  | c :: data' => poke (<[off := c]> buf) (S off) data'
  end.

(** [snprintf(buf + off, n, "%s", s)]: at most [n - 1] characters of [s]
    and then a NUL are stored; the result is the length of [s].  The code
    never calls it with [n <= 0]; nothing is stored then. *)
Definition snprintf (buf : list ascii) (off : Z) (n : Z) (s : list ascii)
  : list ascii * Z :=
  if (n <=? 0)%Z then (buf, Z.of_nat (length s))
  else (poke buf (Z.to_nat off) (take (Z.to_nat (n - 1)) s ++ [NUL]),
        Z.of_nat (length s)).

(** [strncpy(buf, s, n)]: the first [n] characters of [s], padded with NULs
    up to [n] characters when [s] is shorter. *)
Definition strncpy (buf : list ascii) (s : list ascii) (n : Z) : list ascii :=
  poke buf 0 (take (Z.to_nat n) (s ++ repeat NUL (Z.to_nat n))).

(** The C string held in a region: the bytes before the first NUL. *)
Fixpoint cstring (buf : list ascii) : list ascii :=
  match buf with
  | [] => []
  | c :: buf' => if Ascii.eqb c NUL then [] else c :: cstring buf'
  end.

(** A [for (i = lo; i < hi; i++)] loop over a state. *)
Definition for_loop {S : Type} (lo hi : nat) (body : nat -> S -> S) (s : S) : S :=
  fold_left (fun s i => body i s) (seq lo (hi - lo)) s.

(** The loop that writes the elements of a JSON array, which both modules
    have in the same shape: before element [i] it asks for [headroom]
    bytes, it stops ([break]) when [snprintf] reports truncation, and it
    puts a comma after every element but the last while [comma_room] bytes
    remain.  [record i] is the text of element [i]; the loop runs from
    index [i] on, for [n] more elements at most. *)
Fixpoint emit_loop (headroom comma_room : Z) (record : nat -> list ascii)
    (n i : nat) (count buffer_size : Z) (buf : list ascii) (offset : Z)
    : list ascii * Z :=
  match n with
  | 0 => (buf, offset)
  | S n' =>
      if (offset <? buffer_size - headroom)%Z then
        let '(buf, written) :=
          snprintf buf offset (buffer_size - offset) (record i) in
        if (written <? 0)%Z || (buffer_size - offset <=? written)%Z
        then (buf, offset)
        else
          let offset := (offset + written)%Z in
          let '(buf, offset) :=
            if (Z.of_nat i <? count - 1)%Z && (offset <? buffer_size - comma_room)%Z
            then (<[Z.to_nat offset := ","%char]> buf, (offset + 1)%Z)
            else (buf, offset) in
          emit_loop headroom comma_room record n' (S i) count buffer_size buf offset
      else (buf, offset)
  end.

(** [printf("%.*f", p, x)]. *)
Class FloatFmt (F : Type) : Type := { f_fmt : nat -> F -> list ascii }.

(** The last [p] decimal digits of [n], most significant first. *)
Fixpoint fmt_digits (p : nat) (n : Z) : list ascii :=
  match p with
  | 0 => []
  | S p' => fmt_digits p' (n / 10) ++ fmt_d (n mod 10)
  end.

(** Fixed-point printing of a binary floating-point number: the exact value
    is rounded to [p] decimals, ties to even. *)
Definition fmt_fixed (p : nat) (x : spec_float) : list ascii :=
  let sign (s : bool) := if s then chars "-" else [] in
  let body (q : Z) :=
    fmt_d (q / 10 ^ Z.of_nat p)
    ++ (if p is 0 then [] else chars "." ++ fmt_digits p (q mod 10 ^ Z.of_nat p)) in
  match x with
  | S754_nan => chars "nan"
  | S754_infinity s => sign s ++ chars "inf"
  | S754_zero s => sign s ++ body 0%Z
  | S754_finite s m e =>
      let num := (Z.pos m * 10 ^ Z.of_nat p * 2 ^ Z.max e 0)%Z in
      let den := (2 ^ Z.max (- e) 0)%Z in
      let q := (num / den)%Z in
      let r := (num mod den)%Z in
      let q' := if (den <? 2 * r)%Z || ((den =? 2 * r)%Z && Z.odd q)
                then (q + 1)%Z else q in
      sign s ++ body q'
  end.

#[export] Instance b32_fmt : FloatFmt binary32 := {| f_fmt := fmt_fixed |}.
#[export] Instance b64_fmt : FloatFmt binary64 := {| f_fmt := fmt_fixed |}.

(** The double quote of a JSON key or string. *)
Definition dquote : ascii := ascii_of_nat 34.

Definition quoted (s : string) : list ascii := dquote :: chars s ++ [dquote].

(** ** backend_ai.c: customer segmentation *)

Module Segmentation.
Section Code.
Context {F : Type} {ops : FloatOps F} {fmt : FloatFmt F}.

Definition NUM_CLUSTERS : nat := 4.
Definition MAX_ITERATIONS : nat := 50.

(** [static float centroids[NUM_CLUSTERS][2]]: the state that persists
    from one call to the next. *)
Definition initial_centroids : list (F * F) :=
  [ (f_lit 30 1, f_lit 30 1);
    (f_lit 150 1, f_lit 30 1);
    (f_lit 30 1, f_lit 500 1);
    (f_lit 500 1, f_lit 1000 1) ].

Definition cluster_names : list string :=
  [ "Bronze"; "Silver"; "Gold"; "Titanium" ]%string.

(** [centroids[k]] and [cluster_names[k]]; the code reads both at
    [k < NUM_CLUSTERS] only. *)
Definition centroid (centroids : list (F * F)) (k : nat) : F * F :=
  nth k centroids (f_of_int 0, f_of_int 0).

Definition cluster_name (k : nat) : string := nth k cluster_names ""%string.

Definition euclidean_distance (x1 y1 x2 y2 : F) : F :=
  let dx := f_sub x1 x2 in
  let dy := f_sub y1 y2 in
  f_sqrt (f_add (f_mul dx dx) (f_mul dy dy)).

Definition calculate_churn_risk (wallet_balance : Z) : F :=
  if (wallet_balance <? 50)%Z then f_lit 85 1
  else if (wallet_balance <? 200)%Z then f_lit 55 1
  else if (wallet_balance <? 500)%Z then f_lit 25 1
  else f_lit 5 1.

(** The inner loop of [assign_clusters]: the running best starts at
    centroid 0 and is replaced on a strictly smaller distance. *)
Definition nearest_centroid (centroids : list (F * F)) (x y : F) : nat :=
  let c0 := centroid centroids 0 in
  snd (for_loop 1 NUM_CLUSTERS
         (fun k '(min_distance, best_cluster) =>
            let ck := centroid centroids k in
            let distance := euclidean_distance x y (fst ck) (snd ck) in
            if f_lt distance min_distance then (distance, k)
            else (min_distance, best_cluster))
         (euclidean_distance x y (fst c0) (snd c0), 0)).

(** Cluster indices are kept as [nat]: the code only ever stores
    [0 .. NUM_CLUSTERS - 1] in [assignments]. *)
Definition assign_clusters (count : nat) (points wallets : list Z)
    (centroids : list (F * F)) (assignments : list nat) : bool * list nat :=
  for_loop 0 count
    (fun i '(changed, assignments) =>
       let x := f_of_int (nth i points 0%Z) in
       let y := f_of_int (nth i wallets 0%Z) in
       let best_cluster := nearest_centroid centroids x y in
       if negb (nth i assignments 0 =? best_cluster)
       then (true, <[i := best_cluster]> assignments)
       else (changed, assignments))
    (false, assignments).

(** The accumulation loop of [update_centroids]. *)
Definition accumulate (count : nat) (points wallets : list Z)
    (assignments : list nat) : list (F * F) * list Z :=
  for_loop 0 count
    (fun i '(new_centroids, cluster_counts) =>
       let cluster := nth i assignments 0 in
       let s := nth cluster new_centroids (f_of_int 0, f_of_int 0) in
       (<[cluster := (f_add (fst s) (f_of_int (nth i points 0%Z)),
                      f_add (snd s) (f_of_int (nth i wallets 0%Z)))]> new_centroids,
        <[cluster := (nth cluster cluster_counts 0 + 1)%Z]> cluster_counts))
    (repeat (f_of_int 0, f_of_int 0) NUM_CLUSTERS, repeat 0%Z NUM_CLUSTERS).

(** Returns the maximum movement and the new centroid table. *)
Definition update_centroids (count : nat) (points wallets : list Z)
    (assignments : list nat) (centroids : list (F * F)) : F * list (F * F) :=
  let '(new_centroids, cluster_counts) :=
    accumulate count points wallets assignments in
  for_loop 0 NUM_CLUSTERS
    (fun k '(max_movement, centroids) =>
       let n := nth k cluster_counts 0%Z in
       if (0 <? n)%Z then
         let s := nth k new_centroids (f_of_int 0, f_of_int 0) in
         let new_x := f_div (fst s) (f_of_int n) in
         let new_y := f_div (snd s) (f_of_int n) in
         let old := centroid centroids k in
         let updated_x := f_add (f_mul (f_lit 7 10) new_x) (f_mul (f_lit 3 10) (fst old)) in
         let updated_y := f_add (f_mul (f_lit 7 10) new_y) (f_mul (f_lit 3 10) (snd old)) in
         let movement := euclidean_distance (fst old) (snd old) updated_x updated_y in
         (if f_lt max_movement movement then movement else max_movement,
          <[k := (updated_x, updated_y)]> centroids)
       else (max_movement, centroids))
    (f_lit 0 1, centroids).

(** The [while (iteration < MAX_ITERATIONS && !converged)] loop;
    [rounds] is [MAX_ITERATIONS - iteration]. *)
Fixpoint kmeans (rounds count : nat) (points wallets : list Z)
    (centroids : list (F * F)) (assignments : list nat)
    : list (F * F) * list nat :=
  match rounds with
  | 0 => (centroids, assignments)
  | S rounds' =>
      let '(changed, assignments) :=
        assign_clusters count points wallets centroids assignments in
      let '(movement, centroids) :=
        update_centroids count points wallets assignments centroids in
      if negb changed || f_lt_dlit movement 1 100
      then (centroids, assignments)
      else kmeans rounds' count points wallets centroids assignments
  end.

(** One element of the JSON array. *)
Definition record_text (x y : Z) (cluster : nat) (churn : F) : list ascii :=
  chars "{" ++ quoted "x" ++ chars ":" ++ fmt_d x
  ++ chars "," ++ quoted "y" ++ chars ":" ++ fmt_d y
  ++ chars "," ++ quoted "cluster" ++ chars ":" ++ quoted (cluster_name cluster)
  ++ chars "," ++ quoted "churn" ++ chars ":" ++ f_fmt 1 churn
  ++ chars "}".

(** The output loop: 150 bytes of headroom before each record, a
    comma while 2 bytes remain. *)
Definition emit_records (count : Z) (points wallets : list Z)
    (assignments : list nat) (buffer_size : Z)
    (buf : list ascii) (offset : Z) : list ascii * Z :=
  emit_loop 150 2
    (fun i =>
       let cluster := nth i assignments 0 in
       let churn := calculate_churn_risk (nth i wallets 0%Z) in
       record_text (nth i points 0%Z) (nth i wallets 0%Z) cluster churn)
    (Z.to_nat count) 0 count buffer_size buf offset.

Definition build_json (count : Z) (points wallets : list Z)
    (assignments : list nat) (buffer_size : Z) (buf : list ascii) : list ascii :=
  let '(buf, written) := snprintf buf 0 (buffer_size - 0) (chars "[") in
  let offset := (0 + written)%Z in
  let '(buf, offset) :=
    emit_records count points wallets assignments buffer_size buf offset in
  if (offset <? buffer_size - 1)%Z
  then <[Z.to_nat (offset + 1) := NUL]> (<[Z.to_nat offset := "]"%char]> buf)
  else buf.

(** The empty result written on degenerate input and on allocation
    failure. *)
Definition write_empty (buf : list ascii) (buffer_size : Z) : list ascii :=
  <[Z.to_nat (buffer_size - 1) := NUL]> (strncpy buf (chars "[]") (buffer_size - 1)).

(** [perform_clustering].  A null pointer is [None]; [calloc_ok] tells
    whether [calloc] returns a block; the output region [output_buffer]
    has [buffer_size] bytes.  The result is the centroid table and the
    output region after the call. *)
Definition perform_clustering (centroids : list (F * F)) (calloc_ok : bool)
    (count : Z) (points wallets : option (list Z))
    (output_buffer : option (list ascii)) (buffer_size : Z)
    : list (F * F) * option (list ascii) :=
  match points, wallets, output_buffer with
  | Some pts, Some wls, Some buf =>
      if (count <=? 0)%Z || (buffer_size <? 100)%Z then
        (centroids,
         if (0 <? buffer_size)%Z then Some (write_empty buf buffer_size)
         else Some buf)
      else if negb calloc_ok then
        (centroids, Some (write_empty buf buffer_size))
      else
        let assignments := repeat 0 (Z.to_nat count) in
        let '(centroids, assignments) :=
          kmeans MAX_ITERATIONS (Z.to_nat count) pts wls centroids assignments in
        (centroids, Some (build_json count pts wls assignments buffer_size buf))
  | _, _, Some buf =>
      (centroids,
       if (0 <? buffer_size)%Z then Some (write_empty buf buffer_size)
       else Some buf)
  | _, _, None => (centroids, None)
  end.

End Code.
End Segmentation.

(** ** backend_logistics.c: route optimisation *)

Module Routing.
Section Code.
Context {F : Type} {ops : FloatOps F} {inf : FloatInf F} {fmt : FloatFmt F}.

Definition MIN_STOPS : Z := 2.
Definition MAX_STOPS : Z := 100.
Definition MAX_ITERATIONS : nat := 200.
Definition GRID_SIZE : F := f_lit 100 1.

Record DeliveryNode : Type := {
  id : Z;
  x : F;
  y : F;
  type : string   (* "HUB" or "DROP" *)
}.

(** [nodes[r]] and [route[k]].  The code reads [nodes] at the entries of
    a route and a route below [count]. *)
Definition node_at (nodes : list DeliveryNode) (r : Z) : DeliveryNode :=
  nth (Z.to_nat r) nodes
    {| id := 0; x := f_of_int 0; y := f_of_int 0; type := ""%string |}.

Definition stop_at (route : list Z) (k : nat) : Z := nth k route 0%Z.

Definition calculate_distance (a b : DeliveryNode) : F :=
  let dx := f_sub (x a) (x b) in
  let dy := f_sub (y a) (y b) in
  f_sqrt (f_add (f_mul dx dx) (f_mul dy dy)).

Definition calculate_route_distance (nodes : list DeliveryNode)
    (route : list Z) (count : nat) : F :=
  if count <? 2 then f_lit 0 1
  else
    let total :=
      for_loop 0 (count - 1)
        (fun i total =>
           f_add total (calculate_distance (node_at nodes (stop_at route i))
                                           (node_at nodes (stop_at route (i + 1)))))
        (f_lit 0 1) in
    f_add total (calculate_distance (node_at nodes (stop_at route (count - 1)))
                                    (node_at nodes (stop_at route 0))).

(** Writes the candidate into [new_route]: the entries before [i], the
    entries [i .. j] in reverse, the entries after [j]. *)
Definition two_opt_swap (route : list Z) (i j count : nat)
    (new_route : list Z) : list Z :=
  let new_route :=
    for_loop 0 i (fun k new_route => <[k := stop_at route k]> new_route) new_route in
  let '(new_route, idx) :=
    fold_left
      (fun '(new_route, idx) k => (<[idx := stop_at route k]> new_route, S idx))
      (rev (seq i (S j - i))) (new_route, i) in
  for_loop (j + 1) count (fun k new_route => <[k := stop_at route k]> new_route) new_route.

(** [rand k] is the result of the [k]-th call of [rand()] after
    [srand(seed)], counted from 0; [(int)GRID_SIZE] is 100.  The block
    returned by [malloc] is written in every entry. *)
Definition generate_delivery_locations (count : nat) (rand : nat -> Z)
    : list DeliveryNode :=
  let nodes :=
    repeat {| id := 0; x := f_of_int 0; y := f_of_int 0; type := ""%string |} count in
  let nodes :=
    <[0 := {| id := 0;
              x := f_div GRID_SIZE (f_lit 2 1);
              y := f_div GRID_SIZE (f_lit 2 1);
              type := "HUB"%string |}]> nodes in
  for_loop 1 count
    (fun i nodes =>
       <[i := {| id := Z.of_nat i;
                 x := f_of_int (Z.rem (rand (2 * (i - 1))) 100);
                 y := f_of_int (Z.rem (rand (2 * (i - 1) + 1)) 100);
                 type := "DROP"%string |}]> nodes)
    nodes.

(** The scan for the nearest unvisited node: [(min_dist, nearest)]. *)
Definition nearest_unvisited (nodes : list DeliveryNode) (count : nat)
    (visited : list bool) (current : Z) : F * Z :=
  for_loop 1 count
    (fun j '(min_dist, nearest) =>
       if negb (nth j visited false) then
         let dist := calculate_distance (node_at nodes current)
                                        (node_at nodes (Z.of_nat j)) in
         if f_lt dist min_dist then (dist, Z.of_nat j) else (min_dist, nearest)
       else (min_dist, nearest))
    (f_inf, (-1)%Z).

(** [None] stands for the undefined behaviour of [visited[-1] = 1], when
    the scan has found no node. *)
Definition initialize_route_nearest_neighbor (nodes : list DeliveryNode)
    (route : list Z) (count : nat) (calloc_ok : bool) : option (list Z) :=
  if negb calloc_ok then
    Some (for_loop 0 count (fun i route => <[i := Z.of_nat i]> route) route)
  else
    let visited := repeat false count in
    let route := <[0 := 0%Z]> route in
    let visited := <[0 := true]> visited in
    option_map fst
      (for_loop 1 count
         (fun i st =>
            match st with
            | None => None
            | Some (route, visited) =>
                let current := stop_at route (i - 1) in
                let nearest := snd (nearest_unvisited nodes count visited current) in
                if (nearest <? 0)%Z then None
                else Some (<[i := nearest]> route,
                           <[Z.to_nat nearest := true]> visited)
            end)
         (Some (route, visited))).

(** The state of the 2-opt loop. *)
Record search : Type := {
  route : list Z;
  new_route : list Z;
  best_distance : F;
  improved : bool
}.

(** The body of the double loop over [(i, j)]. *)
Definition try_swap (nodes : list DeliveryNode) (num_stops i j : nat)
    (s : search) : search :=
  let new_route := two_opt_swap (route s) i j num_stops (new_route s) in
  let new_distance := calculate_route_distance nodes new_route num_stops in
  if f_lt new_distance (f_sub (best_distance s) (f_lit 1 1000))
  then {| route := new_route; new_route := new_route;
          best_distance := new_distance; improved := true |}
  else {| route := route s; new_route := new_route;
          best_distance := best_distance s; improved := improved s |}.

(** One pass: [improved = 0] and then the double loop. *)
Definition two_opt_pass (nodes : list DeliveryNode) (num_stops : nat)
    (s : search) : search :=
  for_loop 1 (num_stops - 1)
    (fun i s => for_loop (i + 1) num_stops (fun j s => try_swap nodes num_stops i j s) s)
    {| route := route s; new_route := new_route s;
       best_distance := best_distance s; improved := false |}.

(** The [while (improved && iteration < MAX_ITERATIONS)] loop; [passes]
    is [MAX_ITERATIONS - iteration]. *)
Fixpoint two_opt_loop (passes : nat) (nodes : list DeliveryNode)
    (num_stops : nat) (iteration : Z) (s : search) : search * Z :=
  match passes with
  | 0 => (s, iteration)
  | S passes' =>
      if improved s
      then two_opt_loop passes' nodes num_stops (iteration + 1)
             (two_opt_pass nodes num_stops s)
      else (s, iteration)
  end.

(** The 2-opt phase of [optimize_route], started on [route]. *)
Definition two_opt (nodes : list DeliveryNode) (num_stops : nat)
    (route new_route : list Z) : search * Z :=
  two_opt_loop MAX_ITERATIONS nodes num_stops 0
    {| route := route; new_route := new_route;
       best_distance := calculate_route_distance nodes route num_stops;
       improved := true |}.

Definition clamp_stops (num_stops : Z) : Z :=
  let num_stops := if (num_stops <? MIN_STOPS)%Z then 5%Z else num_stops in
  if (MAX_STOPS <? num_stops)%Z then MAX_STOPS else num_stops.

(** The computation between the allocations and the output: the nodes,
    the nearest-neighbour tour, and the outcome of the 2-opt phase. *)
Definition plan_route (num_stops : nat) (calloc_ok : bool) (rand : nat -> Z)
    : option (list DeliveryNode * list Z * (search * Z)) :=
  let nodes := generate_delivery_locations num_stops rand in
  match initialize_route_nearest_neighbor nodes (repeat 0%Z num_stops)
          num_stops calloc_ok with
  | None => None
  | Some route0 =>
      Some (nodes, route0, two_opt nodes num_stops route0 (repeat 0%Z num_stops))
  end.

Definition header_text (best_distance : F) (iteration : Z) : list ascii :=
  chars "{" ++ quoted "total_distance" ++ chars ":" ++ f_fmt 2 best_distance
  ++ chars "," ++ quoted "iterations" ++ chars ":" ++ fmt_d iteration
  ++ chars "," ++ quoted "stops" ++ chars ":[".

Definition stop_text (n : DeliveryNode) : list ascii :=
  chars "{" ++ quoted "id" ++ chars ":" ++ fmt_d (id n)
  ++ chars "," ++ quoted "x" ++ chars ":" ++ f_fmt 1 (x n)
  ++ chars "," ++ quoted "y" ++ chars ":" ++ f_fmt 1 (y n)
  ++ chars "," ++ quoted "type" ++ chars ":" ++ quoted (type n)
  ++ chars "}".

Definition error_text : list ascii :=
  chars "{" ++ quoted "error" ++ chars ":" ++ quoted "Memory allocation failed"
  ++ chars "}".

(** The output loop: 100 bytes of headroom before each stop, a comma
    while 3 bytes remain. *)
Definition emit_stops (num_stops : Z) (nodes : list DeliveryNode)
    (route : list Z) (buffer_size : Z) (buf : list ascii) (offset : Z)
    : list ascii * Z :=
  emit_loop 100 3
    (fun i => let idx := stop_at route i in stop_text (node_at nodes idx))
    (Z.to_nat num_stops) 0 num_stops buffer_size buf offset.

Definition build_json (num_stops : Z) (nodes : list DeliveryNode)
    (route : list Z) (best_distance : F) (iteration : Z)
    (buffer_size : Z) (buf : list ascii) : list ascii :=
  let '(buf, written) :=
    snprintf buf 0 (buffer_size - 0) (header_text best_distance iteration) in
  let offset := (0 + written)%Z in
  let '(buf, offset) :=
    emit_stops num_stops nodes route buffer_size buf offset in
  if (offset <? buffer_size - 2)%Z
  then fst (snprintf buf offset (buffer_size - offset) (chars "]}"))
  else buf.

(** [optimize_route].  A null [output_buffer] is [None]; [nodes_ok],
    [route_ok] and [new_route_ok] tell whether the three calls of
    [malloc] return a block, [calloc_ok] the call of [calloc] in
    [initialize_route_nearest_neighbor].  The outer [option] of the
    result is [None] on undefined behaviour; the inner one is the output
    region after the call. *)
Definition optimize_route (nodes_ok route_ok new_route_ok calloc_ok : bool)
    (rand : nat -> Z) (num_stops : Z)
    (output_buffer : option (list ascii)) (buffer_size : Z)
    : option (option (list ascii)) :=
  match output_buffer with
  | None => Some None
  | Some buf =>
      if (buffer_size <? 100)%Z then Some (Some buf)
      else
        let num_stops := clamp_stops num_stops in
        if negb nodes_ok || negb route_ok || negb new_route_ok then
          Some (Some (fst (snprintf buf 0 buffer_size error_text)))
        else
          match plan_route (Z.to_nat num_stops) calloc_ok rand with
          | None => None
          | Some (nodes, _, (s, iteration)) =>
              Some (Some (build_json num_stops nodes (route s)
                            (best_distance s) iteration buffer_size buf))
          end
  end.

End Code.
End Routing.

(** ** Notions the properties are stated with *)

(** The C string left in the output region; nothing when the region is
    absent. *)
Definition output_text (out : option (list ascii)) : list ascii :=
  match out with
  | Some buf => cstring buf
  | None => []
  end.

(** Does [s] begin with [t]? *)
Fixpoint starts_with (t s : list ascii) : bool :=
  match t, s with
  | [], _ => true
  | c :: t', d :: s' => Ascii.eqb c d && starts_with t' s'
  | _ :: _, [] => false
  end.

(** The error shape of the interface: a JSON object whose first key is
    ["error"]. *)
Definition error_payload (s : list ascii) : bool :=
  starts_with (chars "{" ++ quoted "error" ++ chars ":") s.

(** [x <= y] for the numbers of the interface: equal, or strictly below. *)
Definition f_le {F : Type} {ops : FloatOps F} (x y : F) : Prop :=
  x = y \/ f_lt x y = true.

(** The comparison [f_lt] orders the values in [ds] as a strict weak
    order.  For IEEE numbers this is the case exactly when no NaN is among
    them. *)
Definition ordered_by_lt {F : Type} {ops : FloatOps F} (ds : list F) : Prop :=
  (forall a, In a ds -> f_lt a a = false)
  /\ (forall a b c, In a ds -> In b ds -> In c ds ->
        f_lt a b = true -> f_lt b c = true -> f_lt a c = true)
  /\ (forall a b c, In a ds -> In b ds -> In c ds ->
        f_lt a c = true -> f_lt a b = true \/ f_lt b c = true).

(** A comma after every element but the last. *)
Definition separator (count i : nat) : list ascii :=
  if S i <? count then chars "," else [].

(** The text of the first [i] of [count] array elements. *)
Definition joined (count : nat) (record : nat -> list ascii) (i : nat) : list ascii :=
  concat (map (fun k => record k ++ separator count k) (seq 0 i)).

Section SegmentationSpec.
Context {F : Type} {ops : FloatOps F} {fmt : FloatFmt F}.

(** The distances from an observation to the centroids, by index. *)
Definition centroid_distances (centroids : list (F * F)) (x y : F) : list F :=
  map (fun c => Segmentation.euclidean_distance x y (fst c) (snd c)) centroids.

(** Following the specification's words: a linear scan over the indices
    that keeps the first distance seen and replaces the running best on
    a strictly smaller distance only.  [k] is the index of the head of
    [ds]. *)
Fixpoint scan_from (ds : list F) (k : nat) (best : nat) (min_distance : F) : nat :=
  match ds with
  | [] => best
  | d :: ds' =>
      if f_lt d min_distance then scan_from ds' (S k) k d
      else scan_from ds' (S k) best min_distance
  end.

(** The scan of [nearest_centroid], over distances given by index. *)
Definition scan_body (d : nat -> F) (k : nat) (s : F * nat) : F * nat :=
  let '(min_distance, best_cluster) := s in
  if f_lt (d k) min_distance then (d k, k) else (min_distance, best_cluster).


Definition linear_scan (ds : list F) : nat :=
  match ds with
  | [] => 0
  | d :: ds' => scan_from ds' 1 0 d
  end.

(** The observations assigned to centroid [k], in input order. *)
Definition members (k count : nat) (assignments : list nat) : list nat :=
  List.filter (fun i => nth i assignments 0 =? k) (seq 0 count).

(** The sum of the values at the indices [idx], accumulated from zero in
    the order of [idx]. *)
Definition sum_over (vals : list Z) (idx : list nat) : F :=
  fold_left (fun acc i => f_add acc (f_of_int (nth i vals 0%Z))) idx (f_of_int 0).

(** The arithmetic mean position of the observations assigned to [k]. *)
Definition mean_position (k count : nat) (points wallets : list Z)
    (assignments : list nat) : F * F :=
  let idx := members k count assignments in
  (f_div (sum_over points idx) (f_of_int (Z.of_nat (length idx))),
   f_div (sum_over wallets idx) (f_of_int (Z.of_nat (length idx)))).

(** [0.7 x mean + 0.3 x old], componentwise. *)
Definition damped (mean old : F * F) : F * F :=
  (f_add (f_mul (f_lit 7 10) (fst mean)) (f_mul (f_lit 3 10) (fst old)),
   f_add (f_mul (f_lit 7 10) (snd mean)) (f_mul (f_lit 3 10) (snd old))).

(** The record of observation [i]. *)
Definition record_of (points wallets : list Z) (assignments : list nat)
    (i : nat) : list ascii :=
  Segmentation.record_text (nth i points 0%Z) (nth i wallets 0%Z)
    (nth i assignments 0)
    (Segmentation.calculate_churn_risk (nth i wallets 0%Z)).

(** The full payload: a JSON array with one record per observation, in
    input order. *)
Definition payload (count : nat) (points wallets : list Z)
    (assignments : list nat) : list ascii :=
  chars "[" ++ joined count (record_of points wallets assignments) count
  ++ chars "]".

(** The assignments with which [perform_clustering] builds its output. *)
Definition final_assignments (centroids : list (F * F)) (count : nat)
    (points wallets : list Z) : list nat :=
  snd (Segmentation.kmeans Segmentation.MAX_ITERATIONS count points wallets
         centroids (repeat 0 count)).
End SegmentationSpec.

(** A region holds the text [p] at its start. *)
Definition holds (buf p : list ascii) : Prop :=
  forall k, k < length p -> buf !! k = p !! k.

(** A rank that [SFcompare] compares lexicographically: the sign class,
    then exponent and mantissa, both negated below zero. *)
Definition sf_rank (a : spec_float) : Z * (Z * Z) :=
  match a with
  | S754_nan => (0, (0, 0))
  | S754_infinity true => (-2, (0, 0))
  | S754_finite true m e => (-1, (- e, - Z.pos m))
  | S754_zero _ => (0, (0, 0))
  | S754_finite false m e => (1, (e, Z.pos m))
  | S754_infinity false => (2, (0, 0))
  end%Z.

Definition rank_lt (p q : Z * (Z * Z)) : Prop :=
  (fst p < fst q
   \/ (fst p = fst q
       /\ (fst (snd p) < fst (snd q)
           \/ (fst (snd p) = fst (snd q) /\ snd (snd p) < snd (snd q)))))%Z.


Section RoutingSpec.
Context {F : Type} {ops : FloatOps F} {inf : FloatInf F}.

(** A tour over [count] nodes: a permutation of the node indices
    [0 .. count - 1]. *)
Definition is_tour (count : nat) (route : list Z) : Prop :=
  Permutation route (map Z.of_nat (seq 0 count)).

(** The route with the entries [i .. j] in reverse order. *)
Definition reversed_segment (route : list Z) (i j : nat) : list Z :=
  take i route ++ reverse (take (S j - i) (drop i route)) ++ drop (S j) route.

(** The full payload of a route: the header, one object per stop in tour
    order, the closing brackets. *)
Definition route_payload {fmt : FloatFmt F}
    (nodes : list (Routing.DeliveryNode (F:=F))) (route : list Z)
    (best_distance : F) (iteration : Z) : list ascii :=
  Routing.header_text best_distance iteration
  ++ joined (length route)
       (fun i => Routing.stop_text (Routing.node_at nodes (Routing.stop_at route i)))
       (length route)
  ++ chars "]}".

(** The candidate that the body of the 2-opt loop builds at [(i, j)]. *)
Definition two_opt_swap_candidate (t : Routing.search (F:=F)) (i j count : nat)
    : list Z :=
  Routing.two_opt_swap (Routing.route t) i j count (Routing.new_route t).

(** Every distance between two of the nodes compares below [INFINITY]. *)
Definition finite_distances (nodes : list (Routing.DeliveryNode (F:=F))) : Prop :=
  forall a b, In a nodes -> In b nodes ->
    f_lt (Routing.calculate_distance a b) f_inf = true.

(** The pairs [(i, j)] visited by one 2-opt pass, in the order of the
    double loop. *)
Definition swap_pairs (num_stops : nat) : list (nat * nat) :=
  flat_map (fun i => map (pair i) (seq (i + 1) (num_stops - (i + 1))))
    (seq 1 (num_stops - 1 - 1)).

(** The route, the candidate buffer and the recorded distance of a
    search state fit [num_stops] nodes. *)
Definition consistent (nodes : list (Routing.DeliveryNode (F:=F)))
    (num_stops : nat) (s : Routing.search (F:=F)) : Prop :=
  length (Routing.route s) = num_stops
  /\ length (Routing.new_route s) = num_stops
  /\ Routing.best_distance s
     = Routing.calculate_route_distance nodes (Routing.route s) num_stops.
End RoutingSpec.

(** ** Checks by computation on the delivery grid *)

(** Structural equality of floating-point numbers. *)
Definition sf_same (a b : spec_float) : bool :=
  match a, b with
  | S754_zero s1, S754_zero s2 => Bool.eqb s1 s2
  | S754_infinity s1, S754_infinity s2 => Bool.eqb s1 s2
  | S754_nan, S754_nan => true
  | S754_finite s1 m1 e1, S754_finite s2 m2 e2 =>
      Bool.eqb s1 s2 && Pos.eqb m1 m2 && Z.eqb e1 e2
  | _, _ => false
  end.

(** The integers from [lo] to [hi]. *)
Definition zrange (lo hi : Z) : list Z :=
  map (fun k => (lo + Z.of_nat k)%Z) (seq 0 (Z.to_nat (hi - lo + 1))).

(** A coordinate produced by [generate_delivery_locations]: an integer
    between -99 and 99 (between 0 and 99 when [rand()] is not negative). *)
Definition on_grid (v : binary64) : Prop :=
  exists z, (-99 <= z <= 99)%Z /\ v = b64_of_int z.

(** The difference of two grid coordinates is computed exactly. *)
Definition difference_exact (a b : Z) : bool :=
  sf_same (SFsub 53 1024 (b64_of_int a) (b64_of_int b)) (b64_of_int (a - b)).

(** The square of such a difference is computed exactly. *)
Definition square_exact (d : Z) : bool :=
  sf_same (SFmul 53 1024 (b64_of_int d) (b64_of_int d))
    (b64_of_int (Z.abs d * Z.abs d)).

(** The square root of a sum of two such squares is below infinity. *)
Definition root_finite (p q : Z) : bool :=
  SFltb (SFsqrt 53 1024 (SFadd 53 1024 (b64_of_int (p * p)) (b64_of_int (q * q))))
    (S754_infinity false).

(** A number that is not below zero and, when finite, is in the canonical
    form of its format. *)
Definition nonneg_valid (prec emax : Z) (b : spec_float) : bool :=
  match b with
  | S754_finite s m e => negb s && bounded prec emax m e
  | S754_infinity s => negb s
  | _ => true
  end.

(** The square root of a sum of two such squares is such a number. *)
Definition root_valid (p q : Z) : bool :=
  nonneg_valid 53 1024
    (SFsqrt 53 1024 (SFadd 53 1024 (b64_of_int (p * p)) (b64_of_int (q * q)))).

(** ** Notions for the further properties *)

(** A number other than NaN and the infinities. *)
Definition is_finite (x : spec_float) : bool :=
  match x with
  | S754_zero _ | S754_finite _ _ _ => true
  | _ => false
  end.

(** A finite number that is not negative and whose value is at most the
    integer [z]: zero, or [m * 2 ^ e] with [e <= 0] and
    [m <= z * 2 ^ (- e)]. *)
Definition sf_below (x : spec_float) (z : Z) : bool :=
  match x with
  | S754_zero _ => true
  | S754_finite false m e => (e <=? 0)%Z && (Z.pos m <=? z * 2 ^ (- e))%Z
  | _ => false
  end.

(** The square root of a sum of two squares of grid differences is at
    most 281. *)
Definition root_below (p q : Z) : bool :=
  sf_below
    (SFsqrt 53 1024 (SFadd 53 1024 (b64_of_int (p * p)) (b64_of_int (q * q)))) 281.

(** ** The real value of a floating-point number *)

(** The real number that a floating-point number stands for; zero for
    the infinities and NaN. *)
Definition SF2R (x : spec_float) : R :=
  match x with
  | S754_finite s m e => (IZR (cond_Zopp s (Z.pos m)) * powerRZ 2 e)%R
  | _ => 0%R
  end.

(** A finite number of magnitude below [2 ^ 100]. *)
Definition moderate (x : spec_float) : bool :=
  match x with
  | S754_zero _ => true
  | S754_finite _ m e => (Z.pos (digits2_pos m) + e <=? 100)%Z
  | _ => false
  end.

(** The bound on what the three roundings of [0.7f * m + 0.3f * o] add
    to or take from the exact value, in binary32. *)
Definition rounding_slack (m o : spec_float) : R :=
  (powerRZ 2 (-21) * (Rabs (SF2R m) + Rabs (SF2R o)) + powerRZ 2 (-147))%R.

(** The Euclidean distance of two positions held in floating-point
    numbers, as a real number. *)
Definition distance_R (p q : spec_float * spec_float) : R :=
  sqrt ((SF2R (fst p) - SF2R (fst q)) * (SF2R (fst p) - SF2R (fst q))
        + (SF2R (snd p) - SF2R (snd q)) * (SF2R (snd p) - SF2R (snd q))).

(** The centroid table after [n] calls of [perform_clustering] with the
    same batch, the first call on [centroids]. *)
Definition after_calls {F : Type} {ops : FloatOps F} {fmt : FloatFmt F} (n : nat)
    (count : Z) (points wallets : list Z) (centroids : list (F * F)) : list (F * F) :=
  Nat.iter n
    (fun cs => fst (Segmentation.perform_clustering cs true count (Some points)
                      (Some wallets) (Some (repeat "#"%char 200)) 200))
    centroids.

Section BufferFacts.

Lemma poke_length (d buf : list ascii) off : length (poke buf off d) = length buf.
Proof.
  revert buf off. induction d as [|c d IH]; intros buf off; simpl; [done|].
  rewrite IH. apply length_insert.
Qed.

Lemma poke_lookup_lt (d buf : list ascii) off k :
  k < off -> poke buf off d !! k = buf !! k.
Proof.
  revert buf off. induction d as [|c d IH]; intros buf off Hk; simpl; [done|].
  rewrite IH by lia. apply list_lookup_insert_ne. lia.
Qed.

Lemma poke_lookup_ge (d buf : list ascii) off k :
  off + length d <= k -> poke buf off d !! k = buf !! k.
Proof.
  revert buf off. induction d as [|c d IH]; intros buf off Hk; simpl in *; [done|].
  rewrite IH by lia. apply list_lookup_insert_ne. lia.
Qed.

Lemma poke_lookup_in (d buf : list ascii) off k :
  k < length d -> off + k < length buf -> poke buf off d !! (off + k) = d !! k.
Proof.
  revert buf off k. induction d as [|c d IH]; intros buf off k Hk Hb; simpl in *; [lia|].
  destruct k as [|k].
  - rewrite Nat.add_0_r. rewrite poke_lookup_lt by lia.
    simpl. apply list_lookup_insert_eq. lia.
  - replace (off + S k) with (S off + k) by lia. rewrite IH; [done|lia|].
    rewrite length_insert. lia.
Qed.

Lemma cstring_prefix (s buf : list ascii) :
  Forall (fun c => c <> NUL) s ->
  (forall k, k < length s -> buf !! k = s !! k) ->
  buf !! length s = Some NUL ->
  cstring buf = s.
Proof.
  revert buf. induction s as [|c s IH]; intros buf Hs Hk Hn; simpl in *.
  - destruct buf as [|b buf]; [done|]. simpl in Hn. injection Hn as ->. done.
  - destruct buf as [|b buf]; [done|].
    pose proof (Hk 0 ltac:(lia)) as H0. simpl in H0. injection H0 as ->.
    inversion Hs as [|? ? Hc Hs']; subst.
    simpl. destruct (Ascii.eqb c NUL) eqn:E.
    + apply Ascii.eqb_eq in E. done.
    + f_equal. apply IH; [done| |done].
      intros k Hlt. apply (Hk (S k)). lia.
Qed.

End BufferFacts.

(** ** Loops *)

Section Loops.
Context {S : Type}.

Lemma for_loop_empty (lo hi : nat) (body : nat -> S -> S) (s : S) :
  hi <= lo -> for_loop lo hi body s = s.
Proof.
  intros H. unfold for_loop. replace (hi - lo) with 0 by lia. done.
Qed.

Lemma for_loop_last (lo hi : nat) (body : nat -> S -> S) (s : S) :
  lo <= hi -> for_loop lo (Datatypes.S hi) body s = body hi (for_loop lo hi body s).
Proof.
  intros H. unfold for_loop.
  replace (Datatypes.S hi - lo) with (Datatypes.S (hi - lo)) by lia.
  rewrite seq_S, fold_left_app. simpl.
  replace (lo + (hi - lo)) with hi by lia. done.
Qed.

Lemma for_loop_first (lo hi : nat) (body : nat -> S -> S) (s : S) :
  lo < hi -> for_loop lo hi body s = for_loop (Datatypes.S lo) hi body (body lo s).
Proof.
  intros H. unfold for_loop.
  replace (hi - lo) with (Datatypes.S (hi - Datatypes.S lo)) by lia. done.
Qed.

(** Loop invariants. *)
Lemma for_loop_inv (P : nat -> S -> Prop) (lo hi : nat)
    (body : nat -> S -> S) (s : S) :
  lo <= hi -> P lo s ->
  (forall i t, lo <= i < hi -> P i t -> P (Datatypes.S i) (body i t)) ->
  P hi (for_loop lo hi body s).
Proof.
  intros Hle H0 Hstep. induction hi as [|hi IH].
  - assert (lo = 0) as -> by lia. done.
  - destruct (decide (lo = Datatypes.S hi)) as [->|Hne].
    + rewrite for_loop_empty by lia. done.
    + rewrite for_loop_last by lia. apply Hstep; [lia|].
      apply IH; [lia|]. intros i t Hi. apply Hstep. lia.
Qed.

(** An invariant that does not mention the index. *)
Lemma for_loop_preserves (P : S -> Prop) (lo hi : nat)
    (body : nat -> S -> S) (s : S) :
  P s ->
  (forall i t, lo <= i < hi -> P t -> P (body i t)) ->
  P (for_loop lo hi body s).
Proof.
  intros H0 Hstep. destruct (decide (lo <= hi)) as [Hle|Hgt].
  - by apply (for_loop_inv (fun _ => P)).
  - rewrite for_loop_empty by lia. done.
Qed.
End Loops.

(** ** Arrays *)

Section Arrays.
Context {A : Type}.

Lemma nth_insert_eq (l : list A) (i : nat) (x d : A) :
  i < length l -> nth i (<[i := x]> l) d = x.
Proof. intros H. rewrite nth_lookup, list_lookup_insert_eq by done. done. Qed.

Lemma nth_insert_ne (l : list A) (i j : nat) (x d : A) :
  i <> j -> nth j (<[i := x]> l) d = nth j l d.
Proof. intros H. rewrite !nth_lookup, list_lookup_insert_ne by done. done. Qed.

Lemma nth_repeat (x d : A) (n i : nat) : i < n -> nth i (repeat x n) d = x.
Proof.
  revert i. induction n as [|n IH]; intros i Hi; [lia|].
  destruct i as [|i]; simpl; [done|]. apply IH. lia.
Qed.
End Arrays.

(** ** Churn risk *)

(** C4.  The churn risk is the step function of the wallet balance alone:
    85.0 below 50, 55.0 from 50 and below 200, 25.0 from 200 and below
    500, 5.0 from 500 on; the wallet balances 10, 100, 600, 900 give 85.0,
    55.0, 5.0, 5.0, which [printf] shows with one decimal as written
    here.  The eco score is no argument of the function. *)
Theorem churn_risk_step_function (wallet_balance : Z) :
  let churn := Segmentation.calculate_churn_risk (F:=binary32) in
  ((wallet_balance < 50)%Z -> churn wallet_balance = b32_of_int 85)
  /\ ((50 <= wallet_balance < 200)%Z -> churn wallet_balance = b32_of_int 55)
  /\ ((200 <= wallet_balance < 500)%Z -> churn wallet_balance = b32_of_int 25)
  /\ ((500 <= wallet_balance)%Z -> churn wallet_balance = b32_of_int 5)
  /\ map churn [10; 100; 600; 900]%Z = map b32_of_int [85; 55; 5; 5]%Z
  /\ map (fun w => f_fmt 1 (churn w)) [10; 100; 600; 900]%Z
     = map chars ["85.0"; "55.0"; "5.0"; "5.0"]%string.
Proof.
  intros churn. unfold churn, Segmentation.calculate_churn_risk.
  repeat split; try reflexivity; intros H.
  - destruct (wallet_balance <? 50)%Z eqn:E; [reflexivity|lia].
  - destruct (wallet_balance <? 50)%Z eqn:E1; [lia|].
    destruct (wallet_balance <? 200)%Z eqn:E2; [reflexivity|lia].
  - destruct (wallet_balance <? 50)%Z eqn:E1; [lia|].
    destruct (wallet_balance <? 200)%Z eqn:E2; [lia|].
    destruct (wallet_balance <? 500)%Z eqn:E3; [reflexivity|lia].
  - destruct (wallet_balance <? 50)%Z eqn:E1; [lia|].
    destruct (wallet_balance <? 200)%Z eqn:E2; [lia|].
    destruct (wallet_balance <? 500)%Z eqn:E3; [lia|reflexivity].
Qed.

(** The witness of [churn_risk_step_function]: a balance of 120. *)
Lemma churn_risk_step_function_witness :
  Segmentation.calculate_churn_risk (F:=binary32) 120 = b32_of_int 55.
Proof.
  apply (churn_risk_step_function 120). lia.
Defined.

(** ** The order of IEEE numbers *)

Section IeeeOrder.

Lemma SFltb_irrefl (a : spec_float) : SFltb a a = false.
Proof.
  unfold SFltb, SFcompare.
  destruct a as [[]|[]| |[] m e]; try done.
  - rewrite Z.compare_refl.
    change (Pos.compare_cont Eq m m) with (Pos.compare m m).
    by rewrite Pos.compare_refl.
  - rewrite Z.compare_refl.
    change (Pos.compare_cont Eq m m) with (Pos.compare m m).
    by rewrite Pos.compare_refl.
Qed.

Lemma SFltb_rank (a b : spec_float) :
  a <> S754_nan -> b <> S754_nan ->
  SFltb a b = true <-> rank_lt (sf_rank a) (sf_rank b).
Proof.
  intros Ha Hb. unfold SFltb, SFcompare, rank_lt.
  destruct a as [[]|[]| |[] m1 e1]; try done;
    destruct b as [[]|[]| |[] m2 e2]; try done; simpl;
    try (split; [intros; lia | done]);
    try (split; [done | intros; lia]);
    change (Pos.compare_cont Eq m1 m2) with (Pos.compare m1 m2);
    destruct (Z.compare_spec e1 e2); destruct (Pos.compare_spec m1 m2);
    simpl; split; intros; try done; try lia.
Qed.

Lemma SFltb_nan_l (b : spec_float) : SFltb S754_nan b = false.
Proof. by destruct b as [[]|[]| |[] m e]. Qed.

Lemma SFltb_nan_r (a : spec_float) : SFltb a S754_nan = false.
Proof. by destruct a as [[]|[]| |[] m e]. Qed.

Lemma SFltb_trans (a b c : spec_float) :
  SFltb a b = true -> SFltb b c = true -> SFltb a c = true.
Proof.
  intros Hab Hbc.
  assert (Ha : a <> S754_nan) by (intros ->; by rewrite SFltb_nan_l in Hab).
  assert (Hb : b <> S754_nan) by (intros ->; by rewrite SFltb_nan_l in Hbc).
  assert (Hc : c <> S754_nan) by (intros ->; by rewrite SFltb_nan_r in Hbc).
  rewrite SFltb_rank in * by done. unfold rank_lt in *. lia.
Qed.

Lemma SFltb_cotrans (a b c : spec_float) :
  b <> S754_nan ->
  SFltb a c = true -> SFltb a b = true \/ SFltb b c = true.
Proof.
  intros Hb Hac.
  assert (Ha : a <> S754_nan) by (intros ->; by rewrite SFltb_nan_l in Hac).
  assert (Hc : c <> S754_nan) by (intros ->; by rewrite SFltb_nan_r in Hac).
  rewrite !SFltb_rank in * by done. unfold rank_lt in *. lia.
Qed.

(** Without NaN, [<] is a strict weak order, in either format. *)
Lemma ieee_ordered_by_lt (ops : FloatOps spec_float) (ds : list spec_float) :
  @f_lt _ ops = SFltb ->
  Forall (fun d => d <> S754_nan) ds -> ordered_by_lt (ops:=ops) ds.
Proof.
  intros Hlt Hds. rewrite Forall_forall in Hds. unfold ordered_by_lt. rewrite Hlt.
  repeat split.
  - intros a _. apply SFltb_irrefl.
  - intros a b c _ _ _. apply SFltb_trans.
  - intros a b c _ Hb _. apply SFltb_cotrans. apply Hds.
    by apply list_elem_of_In.
Qed.

End IeeeOrder.

(** ** Rounding to nearest in [SpecFloat] *)

Section Rounding.
Variables prec emax : Z.
Hypothesis prec_pos : (0 < prec)%Z.

Local Open Scope Z_scope.

Lemma fexp_mono (a b : Z) : a <= b -> fexp prec emax a <= fexp prec emax b.
Proof. unfold fexp. lia. Qed.

Lemma fexp_emin (a : Z) : emin prec emax <= fexp prec emax a.
Proof. unfold fexp. lia. Qed.

(** The number of binary digits of a positive number. *)
Lemma digits2_pos_bounds (m : positive) :
  2 ^ (Z.pos (digits2_pos m) - 1) <= Z.pos m < 2 ^ Z.pos (digits2_pos m).
Proof.
  induction m as [m IH|m IH|]; simpl digits2_pos.
  - rewrite Pos2Z.inj_succ. change (Z.pos m~1) with (2 * Z.pos m + 1).
    replace (Z.succ (Z.pos (digits2_pos m)) - 1)
      with (Z.succ (Z.pos (digits2_pos m) - 1)) by lia.
    rewrite !Z.pow_succ_r by lia.
    revert IH. generalize (2 ^ (Z.pos (digits2_pos m) - 1)) (2 ^ Z.pos (digits2_pos m)).
    lia.
  - rewrite Pos2Z.inj_succ. change (Z.pos m~0) with (2 * Z.pos m).
    replace (Z.succ (Z.pos (digits2_pos m)) - 1)
      with (Z.succ (Z.pos (digits2_pos m) - 1)) by lia.
    rewrite !Z.pow_succ_r by lia.
    revert IH. generalize (2 ^ (Z.pos (digits2_pos m) - 1)) (2 ^ Z.pos (digits2_pos m)).
    lia.
  - simpl. lia.
Qed.

Lemma digits2_pos_le (m : positive) (k : Z) :
  Z.pos m < 2 ^ k -> Z.pos (digits2_pos m) <= k.
Proof.
  intros Hlt. destruct (Z.le_gt_cases (Z.pos (digits2_pos m)) k) as [|Hgt]; [done|].
  pose proof (digits2_pos_bounds m) as [Hlo _].
  destruct (Z.le_gt_cases 0 k) as [Hk|Hk].
  - assert (2 ^ k <= 2 ^ (Z.pos (digits2_pos m) - 1))
      by (apply Z.pow_le_mono_r; lia).
    lia.
  - rewrite Z.pow_neg_r in Hlt by lia. lia.
Qed.

Lemma digits2_pos_ge (m : positive) (k : Z) :
  2 ^ k <= Z.pos m -> k + 1 <= Z.pos (digits2_pos m).
Proof.
  intros Hle. destruct (Z.le_gt_cases (k + 1) (Z.pos (digits2_pos m))) as [|Hgt]; [done|].
  pose proof (digits2_pos_bounds m) as [_ Hhi].
  assert (2 ^ Z.pos (digits2_pos m) <= 2 ^ k) by (apply Z.pow_le_mono_r; lia).
  lia.
Qed.

Lemma pos_iter_xO (m d : positive) :
  Z.pos (Pos.iter xO m d) = Z.pos m * 2 ^ Z.pos d.
Proof.
  induction d as [|d IH] using Pos.peano_ind.
  - simpl. lia.
  - rewrite Pos.iter_succ.
    change (Z.pos (Pos.iter xO m d)~0) with (2 * Z.pos (Pos.iter xO m d)).
    rewrite IH, Pos2Z.inj_succ, Z.pow_succ_r by lia. lia.
Qed.

(** [shr] as an iteration over a natural number. *)
Lemma iter_pos_nat {A : Type} (f : A -> A) (p : positive) (x : A) :
  SpecFloat.iter_pos f p x = Nat.iter (Pos.to_nat p) f x.
Proof.
  revert x. induction p as [p IH|p IH|]; intros x; simpl SpecFloat.iter_pos.
  - rewrite !IH, Pos2Nat.inj_xI.
    replace (S (2 * Pos.to_nat p))%nat with (Pos.to_nat p + (Pos.to_nat p + 1))%nat by lia.
    rewrite !Nat.iter_add. simpl. done.
  - rewrite !IH, Pos2Nat.inj_xO.
    replace (2 * Pos.to_nat p)%nat with (Pos.to_nat p + Pos.to_nat p)%nat by lia.
    by rewrite Nat.iter_add.
  - done.
Qed.

(** After [n] shifts of [(m, false, false)] the mantissa is [m / 2 ^ n],
    and the two flags are clear when no bit was lost. *)
Lemma shr_iter (m : Z) (n : nat) :
  0 <= m ->
  let mrs := Nat.iter n shr_1 (Build_shr_record m false false) in
  0 <= shr_m mrs
  /\ shr_m mrs * 2 ^ Z.of_nat n <= m < (shr_m mrs + 1) * 2 ^ Z.of_nat n
  /\ (shr_r mrs || shr_s mrs = true -> shr_m mrs * 2 ^ Z.of_nat n < m).
Proof.
  intros Hm. induction n as [|n IH].
  - simpl. lia.
  - rewrite Nat2Z.inj_succ, Z.pow_succ_r by lia.
    simpl Nat.iter.
    destruct (Nat.iter n shr_1 _) as [k r s].
    simpl in IH. destruct IH as (Hk & Hb & Hl).
    destruct k as [|[k|k|]|k]; simpl; try lia;
      destruct r, s; simpl in *; try lia;
      (split; [lia|]); (split; [lia|]); intros; try discriminate;
      try (specialize (Hl eq_refl)); lia.
Qed.

Lemma round_nearest_even_bounds (mrs : shr_record) :
  let m := round_nearest_even (shr_m mrs) (loc_of_shr_record mrs) in
  shr_m mrs <= m <= shr_m mrs + 1
  /\ (m = shr_m mrs + 1 -> shr_r mrs || shr_s mrs = true).
Proof.
  destruct mrs as [k [|] [|]]; simpl; try lia.
  destruct (Z.even k); lia.
Qed.

Lemma pow2_split (a b : Z) : 0 <= a -> 0 <= b -> 2 ^ (a + b) = 2 ^ a * 2 ^ b.
Proof. intros. by apply Z.pow_add_r. Qed.

Lemma pow2_pos (a : Z) : 0 <= a -> 0 < 2 ^ a.
Proof. intros. by apply Z.pow_pos_nonneg. Qed.

Lemma shr_nat (mrs : shr_record) (e n : Z) :
  0 <= n -> shr mrs e n = (Nat.iter (Z.to_nat n) shr_1 mrs, e + n).
Proof.
  intros Hn. unfold shr. destruct n as [|p|p]; [|by rewrite iter_pos_nat|lia].
  simpl. f_equal. lia.
Qed.

(** [binary_round_aux] on an exact input whose exponent is not above
    the exponent of its binade: the result is in canonical form, and is
    not above any canonical number that the input is not above. *)
Lemma binary_round_aux_spec (s : bool) (mz : positive) (ez : Z) :
  emin prec emax <= ez ->
  ez <= fexp prec emax (Z.pos (digits2_pos mz) + ez) ->
  exists (m2 : positive) (e2 : Z),
    binary_round_aux prec emax s (Z.pos mz) ez loc_Exact
    = (if e2 <=? emax - prec then S754_finite s m2 e2 else S754_infinity s)
    /\ canonical_mantissa prec emax m2 e2 = true
    /\ forall (mb : positive) (eb : Z),
         canonical_mantissa prec emax mb eb = true -> ez <= eb ->
         Z.pos mz <= Z.pos mb * 2 ^ (eb - ez) ->
         e2 < eb \/ (e2 = eb /\ Z.pos m2 <= Z.pos mb).
Proof.
  intros Hmin Hez.
  set (D := Z.pos (digits2_pos mz) + ez) in *.
  set (e1 := fexp prec emax D) in *.
  set (s1 := e1 - ez).
  assert (Hs1 : 0 <= s1) by (unfold s1; lia).
  set (k := D - e1).
  assert (Hk : 1 <= k).
  { unfold k, e1, fexp, D in *. lia. }
  assert (Hdz : Z.pos (digits2_pos mz) = k + s1) by (unfold k, s1, D; lia).
  pose proof (digits2_pos_bounds mz) as [Hlo Hhi].
  rewrite Hdz in Hlo, Hhi.
  replace (k + s1 - 1) with ((k - 1) + s1) in Hlo by lia.
  rewrite pow2_split in Hlo, Hhi by lia.
  pose proof (pow2_pos s1 Hs1) as Hp1.
  pose proof (pow2_pos (k - 1) ltac:(lia)) as Hpk.
  assert (Hkk : 2 ^ k = 2 * 2 ^ (k - 1)).
  { replace k with (Z.succ (k - 1)) at 1 by lia. apply Z.pow_succ_r. lia. }
  unfold binary_round_aux.
  unfold shr_fexp at 1. simpl Zdigits2. fold D. fold e1. fold s1.
  rewrite shr_nat by done.
  replace (ez + s1) with e1 by (unfold s1; lia).
  pose proof (shr_iter (Z.pos mz) (Z.to_nat s1) ltac:(lia)) as Hshr.
  simpl shr_record_of_loc.
  destruct (Nat.iter (Z.to_nat s1) shr_1 _) as [m' r' s'] eqn:Emrs.
  cbn [shr_m shr_r shr_s] in Hshr. rewrite Z2Nat.id in Hshr by done.
  destruct Hshr as (Hm0 & [Hma Hmb] & Hflag).
  pose proof (round_nearest_even_bounds (Build_shr_record m' r' s')) as Hrnd.
  cbn [shr_m shr_r shr_s] in Hrnd |- *.
  set (m1 := round_nearest_even m' _) in *.
  destruct Hrnd as [[Hr1 Hr2] Hr3].
  assert (Hm'lo : 2 ^ (k - 1) <= m') by nia.
  assert (Hm'hi : m' < 2 ^ k) by nia.
  destruct m1 as [|p1|p1] eqn:Em1; [lia| |lia].
  assert (Hbound : forall (mb : positive) (eb : Z),
             canonical_mantissa prec emax mb eb = true -> ez <= eb ->
             Z.pos mz <= Z.pos mb * 2 ^ (eb - ez) ->
             e1 <= eb /\ Z.pos p1 <= Z.pos mb * 2 ^ (eb - e1)
             /\ Z.pos (digits2_pos mb) + eb - prec <= eb).
  { intros mb eb Hcan Hle Hval.
    unfold canonical_mantissa in Hcan. apply Z.eqb_eq in Hcan.
    pose proof (digits2_pos_bounds mb) as [_ Hbhi].
    pose proof (pow2_pos (eb - ez) ltac:(lia)) as Hpe.
    assert (HD : D <= Z.pos (digits2_pos mb) + eb).
    { assert (Z.pos mz < 2 ^ (Z.pos (digits2_pos mb) + (eb - ez))).
      { rewrite pow2_split by lia. nia. }
      apply digits2_pos_le in H. unfold D. lia. }
    assert (He1 : e1 <= eb).
    { rewrite <- Hcan. by apply fexp_mono. }
    split; [done|]. split; [|unfold fexp in Hcan; lia].
    replace (eb - ez) with ((eb - e1) + s1) in Hval by (unfold s1; lia).
    rewrite pow2_split in Hval by lia.
    pose proof (pow2_pos (eb - e1) ltac:(lia)) as Hpb.
    destruct (Z.eq_dec (Z.pos p1) m') as [->|Hne]; [nia|].
    assert (Z.pos p1 = m' + 1) as Hp by lia.
    specialize (Hr3 Hp). specialize (Hflag Hr3). nia. }
  unfold shr_fexp. simpl Zdigits2.
  destruct (Z.eq_dec (Z.pos p1) (2 ^ k)) as [Hcarry|Hnc].
  - (* the mantissa has reached the next power of two *)
    assert (Hd1 : Z.pos (digits2_pos p1) = k + 1).
    { apply Z.le_antisymm.
      - apply digits2_pos_le. rewrite Hcarry.
        replace (k + 1) with (Z.succ k) by lia. rewrite Z.pow_succ_r by lia. lia.
      - apply digits2_pos_ge. lia. }
    rewrite Hd1. replace (k + 1 + e1) with (D + 1) by (unfold k; lia).
    destruct (Z.eq_dec (fexp prec emax (D + 1)) e1) as [Hsame|Hdiff].
    + rewrite Hsame, Z.sub_diag. simpl.
      exists p1, e1. split; [done|]. split.
      * unfold canonical_mantissa. rewrite Hd1.
        replace (k + 1 + e1) with (D + 1) by (unfold k; lia).
        by apply Z.eqb_eq.
      * intros mb eb Hcan Hle Hval.
        destruct (Hbound mb eb Hcan Hle Hval) as (He1 & Hp & _).
        destruct (Z.eq_dec e1 eb) as [<-|]; [|lia].
        right. rewrite Z.sub_diag in Hp. simpl in Hp. lia.
    + assert (Hnext : fexp prec emax (D + 1) = e1 + 1).
      { unfold e1, fexp in *. lia. }
      rewrite Hnext. replace (e1 + 1 - e1) with 1 by lia.
      destruct p1 as [p1|p1|]; [lia| |lia].
      simpl. exists p1, (e1 + 1). split; [done|].
      assert (Hd2 : Z.pos (digits2_pos p1) = k).
      { simpl digits2_pos in Hd1. lia. }
      split.
      * unfold canonical_mantissa. rewrite Hd2.
        replace (k + (e1 + 1)) with (D + 1) by (unfold k; lia).
        by apply Z.eqb_eq.
      * intros mb eb Hcan Hle Hval.
        destruct (Hbound mb eb Hcan Hle Hval) as (He1 & Hp & Hb).
        destruct (Z.eq_dec e1 eb) as [Heq|Hlt].
        -- (* impossible: the bound has at most [prec] digits *)
           exfalso. subst eb. rewrite Z.sub_diag in Hp. simpl in Hp.
           assert (k + 1 <= Z.pos (digits2_pos mb)).
           { apply digits2_pos_ge. lia. }
           unfold e1, fexp, k in *. lia.
        -- destruct (Z.eq_dec (e1 + 1) eb) as [Heq|]; [|lia].
           right. split; [done|]. subst eb.
           replace (e1 + 1 - e1) with 1 in Hp by lia.
           change (Z.pos mb * 2 ^ 1) with (Z.pos mb * 2) in Hp. lia.
  - assert (Hd1 : Z.pos (digits2_pos p1) = k).
    { apply Z.le_antisymm.
      - apply digits2_pos_le. lia.
      - replace k with ((k - 1) + 1) by lia. apply digits2_pos_ge. lia. }
    rewrite Hd1. replace (k + e1) with D by (unfold k; lia).
    fold e1. rewrite Z.sub_diag. simpl.
    exists p1, e1. split; [done|]. split.
    + unfold canonical_mantissa. rewrite Hd1.
      replace (k + e1) with D by (unfold k; lia). by apply Z.eqb_eq.
    + intros mb eb Hcan Hle Hval.
      destruct (Hbound mb eb Hcan Hle Hval) as (He1 & Hp & _).
      destruct (Z.eq_dec e1 eb) as [<-|]; [|lia].
      right. rewrite Z.sub_diag in Hp. simpl in Hp. lia.
Qed.

Lemma shl_align_value (m : positive) (e e' : Z) :
  let '(m', e'') := shl_align m e e' in
  e'' = Z.min e e' /\ Z.pos m' = Z.pos m * 2 ^ (e - e'').
Proof.
  unfold shl_align. destruct (e' - e) as [|d|d] eqn:Ed.
  - split; [lia|]. rewrite Z.sub_diag. simpl. lia.
  - split; [lia|]. rewrite Z.sub_diag. simpl. lia.
  - split; [lia|]. rewrite pos_iter_xO. f_equal. f_equal. lia.
Qed.

(** [binary_round]: the same, for every exact input. *)
Lemma binary_round_spec (s : bool) (m : positive) (e : Z) :
  emin prec emax <= e ->
  exists (m2 : positive) (e2 : Z),
    binary_round prec emax s m e
    = (if e2 <=? emax - prec then S754_finite s m2 e2 else S754_infinity s)
    /\ canonical_mantissa prec emax m2 e2 = true
    /\ forall (mb : positive) (eb : Z),
         canonical_mantissa prec emax mb eb = true -> e <= eb ->
         Z.pos m <= Z.pos mb * 2 ^ (eb - e) ->
         e2 < eb \/ (e2 = eb /\ Z.pos m2 <= Z.pos mb).
Proof.
  intros Hmin. unfold binary_round.
  pose proof (shl_align_value m e (fexp prec emax (Z.pos (digits2_pos m) + e)))
    as Hal.
  destruct (shl_align m e _) as [mz ez].
  destruct Hal as [Hez Hmz].
  pose proof (fexp_emin (Z.pos (digits2_pos m) + e)) as Hfe.
  assert (Hsh : 0 <= e - ez) by lia.
  pose proof (pow2_pos (e - ez) Hsh) as Hp.
  assert (Hdz : Z.pos (digits2_pos mz) = Z.pos (digits2_pos m) + (e - ez)).
  { pose proof (digits2_pos_bounds m) as [Hlo Hhi].
    apply Z.le_antisymm.
    - apply digits2_pos_le. rewrite pow2_split by lia. nia.
    - replace (Z.pos (digits2_pos m) + (e - ez))
        with ((Z.pos (digits2_pos m) - 1 + (e - ez)) + 1) by lia.
      apply digits2_pos_ge. rewrite pow2_split by lia. nia. }
  destruct (binary_round_aux_spec s mz ez) as (m2 & e2 & Hres & Hcan & Hb).
  - lia.
  - rewrite Hdz. replace (Z.pos (digits2_pos m) + (e - ez) + ez)
      with (Z.pos (digits2_pos m) + e) by lia. lia.
  - exists m2, e2. split; [done|]. split; [done|].
    intros mb eb Hcb Hle Hval. apply Hb; [done|lia|].
    rewrite Hmz.
    replace (eb - ez) with ((eb - e) + (e - ez)) by lia.
    rewrite pow2_split by lia.
    pose proof (pow2_pos (eb - e) ltac:(lia)). nia.
Qed.

Lemma canonical_emin (m : positive) (e : Z) :
  canonical_mantissa prec emax m e = true -> emin prec emax <= e.
Proof.
  unfold canonical_mantissa. intros H. apply Z.eqb_eq in H. rewrite <- H.
  apply fexp_emin.
Qed.

End Rounding.

Section Margin.
Variables prec emax : Z.
Hypothesis prec_pos : (0 < prec)%Z.

Local Open Scope Z_scope.

Lemma SFadd_nonneg_valid (x y : spec_float) :
  nonneg_valid prec emax x = true -> nonneg_valid prec emax y = true ->
  nonneg_valid prec emax (SFadd prec emax x y) = true.
Proof.
  destruct x as [sx|[]| |[] mx ex], y as [sy|[]| |[] my ey]; try done.
  - by destruct sx, sy.
  - simpl. intros Hx Hy.
    apply andb_true_iff in Hx as [Hcx _]. apply andb_true_iff in Hy as [Hcy _].
    apply (canonical_emin prec emax) in Hcx, Hcy.
    pose proof (shl_align_value mx ex (Z.min ex ey)) as Hax.
    pose proof (shl_align_value my ey (Z.min ex ey)) as Hay.
    destruct (shl_align mx ex _) as [mx' ex'], (shl_align my ey _) as [my' ey'].
    simpl.
    destruct (binary_round_spec prec emax prec_pos false (mx' + my')
                (Z.min ex ey) ltac:(lia)) as (m2 & e2 & -> & Hcan & _).
    destruct (e2 <=? emax - prec) eqn:E; [|done].
    simpl. unfold bounded. by rewrite Hcan, E.
Qed.

(** Subtracting a positive number from a canonical number that is not
    negative gives a result that compares below whatever the number
    itself compares below. *)
Lemma SFsub_margin (a b : spec_float) (me : positive) (ee : Z) :
  nonneg_valid prec emax b = true -> emin prec emax <= ee ->
  SFltb a (SFsub prec emax b (S754_finite false me ee)) = true ->
  SFltb a b = true.
Proof.
  intros Hb Hee.
  destruct b as [sb|[]| |[] mb eb]; try done.
  - (* zero *)
    simpl. intros Hlt. apply (SFltb_trans _ _ _ Hlt). by destruct sb.
  - simpl in Hb. unfold bounded in Hb. apply andb_true_iff in Hb as [Hcb Heb].
    apply Z.leb_le in Heb.
    pose proof (canonical_emin prec emax _ _ Hcb) as Hmb.
    simpl.
    pose proof (shl_align_value mb eb (Z.min eb ee)) as Hax.
    pose proof (shl_align_value me ee (Z.min eb ee)) as Hay.
    destruct (shl_align mb eb _) as [mb' eb'], (shl_align me ee _) as [me' ee'].
    simpl. destruct Hax as [Hex Hmx], Hay as [_ _].
    destruct (Z.pos mb' - Z.pos me') as [|p|p] eqn:Ediff.
    + simpl. intros Hlt. by apply (SFltb_trans _ _ _ Hlt).
    + simpl.
      destruct (binary_round_spec prec emax prec_pos false p
                  (Z.min eb ee) ltac:(lia)) as (m2 & e2 & -> & Hcan & Hle).
      destruct (Hle mb eb Hcb ltac:(lia)) as [Hlt|[-> Hm]].
      { replace (Z.min eb ee) with eb' by lia. lia. }
      * assert ((e2 <=? emax - prec) = true) as -> by (apply Z.leb_le; lia).
        intros Ha. apply (SFltb_trans _ _ _ Ha).
        apply SFltb_rank; [done|done|]. unfold rank_lt. simpl. lia.
      * assert ((eb <=? emax - prec) = true) as -> by (by apply Z.leb_le).
        destruct (Z.eq_dec (Z.pos m2) (Z.pos mb)) as [Heq|Hne].
        -- injection Heq as ->. done.
        -- intros Ha. apply (SFltb_trans _ _ _ Ha).
           apply SFltb_rank; [done|done|]. unfold rank_lt. simpl. lia.
    + simpl.
      destruct (binary_round_spec prec emax prec_pos true p
                  (Z.min eb ee) ltac:(lia)) as (m2 & e2 & -> & _ & _).
      intros Ha. apply (SFltb_trans _ _ _ Ha).
      by destruct (e2 <=? emax - prec).
Qed.

End Margin.


(** ** The assignment step *)

Section Assignment.
Context {F : Type} {ops : FloatOps F}.

Lemma scan_is_first_minimum (d : nat -> F) (n : nat) :
  1 <= n ->
  (forall a, a < n -> f_lt (d a) (d a) = false) ->
  (forall a b c, a < n -> b < n -> c < n ->
     f_lt (d a) (d b) = true -> f_lt (d b) (d c) = true -> f_lt (d a) (d c) = true) ->
  (forall a b c, a < n -> b < n -> c < n ->
     f_lt (d a) (d c) = true -> f_lt (d a) (d b) = true \/ f_lt (d b) (d c) = true) ->
  let r := for_loop 1 n (scan_body d) (d 0, 0) in
  snd r < n /\ fst r = d (snd r)
  /\ (forall k, k < n -> f_lt (d k) (d (snd r)) = false)
  /\ (forall k, k < snd r -> f_lt (d (snd r)) (d k) = true).
Proof.
  intros Hn Hirr Htr Hco.
  apply (for_loop_inv
           (fun i r => snd r < i /\ fst r = d (snd r)
                       /\ (forall k, k < i -> f_lt (d k) (d (snd r)) = false)
                       /\ (forall k, k < snd r -> f_lt (d (snd r)) (d k) = true)));
    [done| |].
  - simpl. repeat split; [lia| |intros; lia].
    intros k Hk. assert (k = 0) as -> by lia. apply Hirr. lia.
  - intros i [m b] Hi (Hb & Hm & Hmin & Hfirst). simpl in *. subst m.
    destruct (f_lt (d i) (d b)) eqn:E; simpl.
    + repeat split; [lia| |].
      * intros k Hk. destruct (decide (k = i)) as [->|Hne]; [apply Hirr; lia|].
        destruct (f_lt (d k) (d i)) eqn:E2; [|done].
        rewrite <- (Hmin k ltac:(lia)). symmetry.
        apply (Htr k i b); done || lia.
      * intros k Hk.
        destruct (Hco i k b ltac:(lia) ltac:(lia) ltac:(lia) E) as [H|H]; [done|].
        rewrite Hmin in H by lia. done.
    + repeat split; [lia| |done].
      intros k Hk. destruct (decide (k = i)) as [->|Hne]; [done|].
      apply Hmin. lia.
Qed.

Lemma nearest_centroid_scan (centroids : list (F * F)) (x y : F) :
  Segmentation.nearest_centroid centroids x y
  = snd (for_loop 1 Segmentation.NUM_CLUSTERS
           (scan_body (fun k =>
              let c := Segmentation.centroid centroids k in
              Segmentation.euclidean_distance x y (fst c) (snd c)))
           (let c := Segmentation.centroid centroids 0 in
            Segmentation.euclidean_distance x y (fst c) (snd c), 0)).
Proof. reflexivity. Qed.

Lemma nearest_centroid_lt (centroids : list (F * F)) (x y : F) :
  Segmentation.nearest_centroid centroids x y < Segmentation.NUM_CLUSTERS.
Proof.
  rewrite nearest_centroid_scan.
  apply (for_loop_inv (fun i (r : F * nat) => snd r < i));
    [unfold Segmentation.NUM_CLUSTERS; lia|simpl; lia|].
  intros i [m b] Hi Hb. unfold scan_body. simpl in *.
  destruct (f_lt _ m); simpl; lia.
Qed.

Lemma centroid_distances_nth (centroids : list (F * F)) (x y : F) (k : nat) :
  k < length centroids ->
  nth k (centroid_distances centroids x y) (f_of_int 0)
  = (let c := Segmentation.centroid centroids k in
     Segmentation.euclidean_distance x y (fst c) (snd c)).
Proof.
  intros Hk. unfold centroid_distances, Segmentation.centroid.
  rewrite (nth_indep _ (f_of_int 0)
             (Segmentation.euclidean_distance x y
                (fst (f_of_int 0, f_of_int 0)) (snd (f_of_int 0, f_of_int 0))))
    by (rewrite length_map; lia).
  apply (map_nth (fun c => Segmentation.euclidean_distance x y (fst c) (snd c))).
Qed.

Lemma nearest_centroid_linear_scan (centroids : list (F * F)) (x y : F) :
  length centroids = Segmentation.NUM_CLUSTERS ->
  Segmentation.nearest_centroid centroids x y
  = linear_scan (centroid_distances centroids x y).
Proof.
  intros Hlen.
  destruct centroids as [|c0 [|c1 [|c2 [|c3 [|]]]]]; try done.
  unfold Segmentation.nearest_centroid, Segmentation.centroid, for_loop,
    linear_scan, centroid_distances. simpl.
  repeat (match goal with
          | |- context [f_lt ?a ?b] => destruct (f_lt a b) eqn:?
          end; simpl; try congruence).
Qed.

(** After [assign_clusters], entry [i] is the nearest centroid of
    observation [i]. *)
Lemma assign_clusters_nth (count : nat) (points wallets : list Z)
    (centroids : list (F * F)) (assignments : list nat) :
  length assignments = count ->
  let r := snd (Segmentation.assign_clusters count points wallets centroids assignments) in
  length r = count
  /\ forall i, i < count ->
       nth i r 0 = Segmentation.nearest_centroid centroids
                     (f_of_int (nth i points 0%Z)) (f_of_int (nth i wallets 0%Z)).
Proof.
  intros Hlen. unfold Segmentation.assign_clusters.
  apply (for_loop_inv
           (fun n (s : bool * list nat) =>
              length (snd s) = count
              /\ forall i, i < n ->
                   nth i (snd s) 0 = Segmentation.nearest_centroid centroids
                     (f_of_int (nth i points 0%Z)) (f_of_int (nth i wallets 0%Z))));
    [lia|simpl; split; [done|intros; lia]|].
  intros n [changed asg] Hn [Hl Hi]. simpl in *.
  destruct (nth n asg 0 =? _) eqn:E; simpl.
  - split; [done|]. intros i Hlt.
    destruct (decide (i = n)) as [->|Hne]; [by apply Nat.eqb_eq|apply Hi; lia].
  - split; [by rewrite length_insert|]. intros i Hlt.
    destruct (decide (i = n)) as [->|Hne].
    + rewrite nth_insert_eq by lia. done.
    + rewrite nth_insert_ne by done. apply Hi. lia.
Qed.

(** C2.  In the assignment step each observation is given the centroid
    that a linear scan over the indices 0 to 3 finds when it replaces the
    running best on a strictly smaller distance only.  Where the four
    distances are comparable (no NaN among them), no centroid is
    strictly nearer than the chosen one, and every centroid of a lower
    index is strictly farther: the lowest index wins a tie. *)
Theorem assignment_is_first_minimum (count : nat) (points wallets : list Z)
    (centroids : list (F * F)) (assignments : list nat) (i : nat) :
  length centroids = Segmentation.NUM_CLUSTERS ->
  length assignments = count -> i < count ->
  let ds := centroid_distances centroids
              (f_of_int (nth i points 0%Z)) (f_of_int (nth i wallets 0%Z)) in
  let d := fun k => nth k ds (f_of_int 0) in
  let best :=
    nth i (snd (Segmentation.assign_clusters count points wallets centroids
                  assignments)) 0 in
  best = linear_scan ds
  /\ best < Segmentation.NUM_CLUSTERS
  /\ (ordered_by_lt ds ->
      (forall k, k < Segmentation.NUM_CLUSTERS -> f_lt (d k) (d best) = false)
      /\ (forall k, k < best -> f_lt (d best) (d k) = true)).
Proof.
  intros Hcs Hlen Hi ds d best.
  destruct (assign_clusters_nth count points wallets centroids assignments Hlen)
    as [_ Hnth].
  assert (Hbest : best = Segmentation.nearest_centroid centroids
                    (f_of_int (nth i points 0%Z)) (f_of_int (nth i wallets 0%Z)))
    by (apply Hnth; done).
  split; [rewrite Hbest; by apply nearest_centroid_linear_scan|].
  split; [rewrite Hbest; apply nearest_centroid_lt|].
  intros (Hirr & Htr & Hco).
  assert (Hin : forall k, k < Segmentation.NUM_CLUSTERS -> In (d k) ds).
  { intros k Hk. apply nth_In. unfold ds, centroid_distances.
    rewrite length_map. lia. }
  assert (Hd : forall k, k < Segmentation.NUM_CLUSTERS ->
             d k = (let c := Segmentation.centroid centroids k in
                    Segmentation.euclidean_distance
                      (f_of_int (nth i points 0%Z)) (f_of_int (nth i wallets 0%Z))
                      (fst c) (snd c))).
  { intros k Hk. apply centroid_distances_nth. lia. }
  pose proof (scan_is_first_minimum d Segmentation.NUM_CLUSTERS
                ltac:(unfold Segmentation.NUM_CLUSTERS; lia)) as Hscan.
  simpl in Hscan.
  assert (Hsame : snd (for_loop 1 Segmentation.NUM_CLUSTERS (scan_body d) (d 0, 0))
                  = best).
  { rewrite Hbest, nearest_centroid_scan.
    unfold for_loop. simpl. unfold scan_body.
    rewrite <- !Hd by (unfold Segmentation.NUM_CLUSTERS; lia). done. }
  rewrite Hsame in Hscan.
  destruct Hscan as (_ & _ & Hmin & Hfirst).
  - intros a Ha. apply Hirr. by apply Hin.
  - intros a b c Ha Hb Hc. apply Htr; by apply Hin.
  - intros a b c Ha Hb Hc. apply Hco; by apply Hin.
  - split; done.
Qed.

End Assignment.

(** The witness of [assignment_is_first_minimum]: the observation (150, 30)
    against the initial centroids, in binary32; it lies on the Silver
    centroid. *)
Lemma assignment_is_first_minimum_witness :
  let ds := centroid_distances (F:=binary32) Segmentation.initial_centroids
              (f_of_int 150) (f_of_int 30) in
  let d := fun k => nth k ds (f_of_int 0) in
  let best :=
    nth 0 (snd (Segmentation.assign_clusters (F:=binary32) 1 [150%Z] [30%Z]
                  Segmentation.initial_centroids [0])) 0 in
  best = 1
  /\ (forall k, k < Segmentation.NUM_CLUSTERS -> f_lt (d k) (d best) = false)
  /\ (forall k, k < best -> f_lt (d best) (d k) = true).
Proof.
  intros ds d best.
  assert (Hord : ordered_by_lt ds).
  { apply ieee_ordered_by_lt; [reflexivity|].
    vm_compute. repeat constructor; discriminate. }
  split; [vm_compute; reflexivity|].
  apply (assignment_is_first_minimum (F:=binary32) 1 [150%Z] [30%Z]
           Segmentation.initial_centroids [0] 0);
    [reflexivity | reflexivity | lia | exact Hord].
Defined.

(** ** The update step *)

Section Update.
Context {F : Type} {ops : FloatOps F}.

Lemma members_S (k count : nat) (assignments : list nat) :
  members k (S count) assignments
  = members k count assignments
    ++ (if nth count assignments 0 =? k then [count] else []).
Proof.
  unfold members. rewrite seq_S, List.filter_app. simpl.
  destruct (nth count assignments 0 =? k); done.
Qed.

Lemma sum_over_snoc (vals : list Z) (idx : list nat) (i : nat) :
  sum_over (F:=F) vals (idx ++ [i])
  = f_add (sum_over vals idx) (f_of_int (nth i vals 0%Z)).
Proof. unfold sum_over. by rewrite fold_left_app. Qed.

(** The accumulation loop leaves, for every cluster, the sums over its
    members and their number. *)
Lemma accumulate_spec (count : nat) (points wallets : list Z)
    (assignments : list nat) :
  (forall i, i < count -> nth i assignments 0 < Segmentation.NUM_CLUSTERS) ->
  let r := Segmentation.accumulate (F:=F) count points wallets assignments in
  forall k, k < Segmentation.NUM_CLUSTERS ->
    nth k (fst r) (f_of_int 0, f_of_int 0)
    = (sum_over points (members k count assignments),
       sum_over wallets (members k count assignments))
    /\ nth k (snd r) 0%Z = Z.of_nat (length (members k count assignments)).
Proof.
  intros Hrange. unfold Segmentation.accumulate.
  apply (for_loop_inv
           (fun n (s : list (F * F) * list Z) =>
              length (fst s) = Segmentation.NUM_CLUSTERS
              /\ length (snd s) = Segmentation.NUM_CLUSTERS
              /\ forall k, k < Segmentation.NUM_CLUSTERS ->
                   nth k (fst s) (f_of_int 0, f_of_int 0)
                   = (sum_over points (members k n assignments),
                      sum_over wallets (members k n assignments))
                   /\ nth k (snd s) 0%Z
                      = Z.of_nat (length (members k n assignments)))).
  - lia.
  - simpl. repeat split; try done.
    all: by destruct k as [|[|[|[|k]]]]; try (unfold Segmentation.NUM_CLUSTERS in *; lia).
  - intros n [nc cc] Hn (Hl1 & Hl2 & Hk). simpl in *.
    pose proof (Hrange n ltac:(lia)) as Hc.
    set (c := nth n assignments 0) in *.
    repeat split; [by rewrite length_insert|by rewrite length_insert| |].
    + destruct (decide (k = c)) as [->|Hne].
      * rewrite nth_insert_eq by lia. rewrite members_S.
        fold c. rewrite Nat.eqb_refl, !sum_over_snoc.
        destruct (Hk c Hc) as [-> _]. done.
      * rewrite nth_insert_ne by done. rewrite members_S. fold c.
        destruct (c =? k) eqn:E; [apply Nat.eqb_eq in E; done|].
        rewrite app_nil_r. by apply Hk.
    + destruct (decide (k = c)) as [->|Hne].
      * rewrite nth_insert_eq by lia. rewrite members_S.
        fold c. rewrite Nat.eqb_refl, length_app.
        destruct (Hk c Hc) as [_ ->]. simpl. lia.
      * rewrite nth_insert_ne by done. rewrite members_S. fold c.
        destruct (c =? k) eqn:E; [apply Nat.eqb_eq in E; done|].
        rewrite app_nil_r. by apply Hk.
Qed.


(** The second loop of [update_centroids], entry by entry: the table
    keeps its four entries, and entry [k] is the damped mean of its
    members, or the old entry when it has none. *)
Lemma update_centroids_position (count : nat) (points wallets : list Z)
    (assignments : list nat) (centroids : list (F * F)) (k : nat) :
  length centroids = Segmentation.NUM_CLUSTERS ->
  (forall i, i < count -> nth i assignments 0 < Segmentation.NUM_CLUSTERS) ->
  k < Segmentation.NUM_CLUSTERS ->
  length (snd (Segmentation.update_centroids count points wallets assignments
                 centroids)) = Segmentation.NUM_CLUSTERS
  /\ Segmentation.centroid
       (snd (Segmentation.update_centroids count points wallets assignments centroids)) k
     = match members k count assignments with
       | [] => Segmentation.centroid centroids k
       | _ :: _ => damped (mean_position k count points wallets assignments)
                     (Segmentation.centroid centroids k)
       end.
Proof.
  intros Hlen Hrange Hk. unfold Segmentation.update_centroids.
  pose proof (accumulate_spec count points wallets assignments Hrange) as Hacc.
  simpl in Hacc.
  destruct (Segmentation.accumulate count points wallets assignments) as [nc cc].
  simpl in Hacc.
  set (target := fun j =>
         match members j count assignments with
         | [] => Segmentation.centroid centroids j
         | _ :: _ => damped (mean_position j count points wallets assignments)
                       (Segmentation.centroid centroids j)
         end).
  match goal with
  | |- _ /\ Segmentation.centroid (snd ?r) k = _ =>
      assert (Hinv : length (snd r) = Segmentation.NUM_CLUSTERS
                     /\ forall j, j < Segmentation.NUM_CLUSTERS ->
                          Segmentation.centroid (snd r) j
                          = if j <? Segmentation.NUM_CLUSTERS then target j
                            else Segmentation.centroid centroids j)
  end.
  2: { destruct Hinv as [Hl Hj]. split; [exact Hl|]. rewrite Hj by done.
       by apply Nat.ltb_lt in Hk as ->. }
  apply (for_loop_inv
           (fun n (r : F * list (F * F)) =>
              length (snd r) = Segmentation.NUM_CLUSTERS
              /\ forall j, j < Segmentation.NUM_CLUSTERS ->
                   Segmentation.centroid (snd r) j
                   = if j <? n then target j else Segmentation.centroid centroids j));
    [lia|simpl; split; done|].
  intros n [mm cs] Hn (Hl & Hj). simpl in *.
  destruct (Hacc n ltac:(lia)) as [Hsum Hcnt].
  assert (Hold : Segmentation.centroid cs n = Segmentation.centroid centroids n).
  { rewrite Hj by lia. by rewrite Nat.ltb_irrefl. }
  assert (Htarget : target n
            = if (0 <? nth n cc 0)%Z
              then damped (mean_position n count points wallets assignments)
                     (Segmentation.centroid centroids n)
              else Segmentation.centroid centroids n).
  { unfold target. rewrite Hcnt.
    destruct (members n count assignments) as [|a l]; [done|].
    reflexivity. }
  destruct (0 <? nth n cc 0)%Z eqn:Epos; simpl.
  - split; [by rewrite length_insert|]. intros j Hlt.
    unfold Segmentation.centroid at 1.
    destruct (decide (j = n)) as [->|Hne].
    + rewrite nth_insert_eq by lia.
      assert (Hlt' : (n <? S n) = true) by (apply Nat.ltb_lt; lia).
      rewrite Hlt', Htarget, Hold, Hsum, Hcnt. reflexivity.
    + rewrite nth_insert_ne by done.
      fold (Segmentation.centroid cs j). rewrite Hj by done.
      destruct (j <? n) eqn:E1, (j <? S n) eqn:E2; try done;
        first [apply Nat.ltb_lt in E1 | apply Nat.ltb_ge in E1];
        first [apply Nat.ltb_lt in E2 | apply Nat.ltb_ge in E2]; lia.
  - split; [done|]. intros j Hlt. rewrite Hj by done.
    destruct (decide (j = n)) as [->|Hne].
    + rewrite Nat.ltb_irrefl.
      assert (Hlt' : (n <? S n) = true) by (apply Nat.ltb_lt; lia).
      by rewrite Hlt', Htarget.
    + destruct (j <? n) eqn:E1, (j <? S n) eqn:E2; try done;
        first [apply Nat.ltb_lt in E1 | apply Nat.ltb_ge in E1];
        first [apply Nat.ltb_lt in E2 | apply Nat.ltb_ge in E2]; lia.
Qed.

(** C3.  In the update step a centroid with at least one assigned
    observation moves to 0.7 x (the arithmetic mean position of its
    observations) + 0.3 x (its old position), componentwise, computed in
    this order in the arithmetic of the code; a centroid with no
    assigned observation stays where it is. *)
Theorem update_step_damped_mean (count : nat) (points wallets : list Z)
    (assignments : list nat) (centroids : list (F * F)) (k : nat) :
  length centroids = Segmentation.NUM_CLUSTERS ->
  (forall i, i < count -> nth i assignments 0 < Segmentation.NUM_CLUSTERS) ->
  k < Segmentation.NUM_CLUSTERS ->
  Segmentation.centroid
    (snd (Segmentation.update_centroids count points wallets assignments centroids)) k
  = match members k count assignments with
    | [] => Segmentation.centroid centroids k
    | _ :: _ => damped (mean_position k count points wallets assignments)
                  (Segmentation.centroid centroids k)
    end.
Proof.
  intros Hlen Hrange Hk.
  exact (proj2 (update_centroids_position count points wallets assignments
                  centroids k Hlen Hrange Hk)).
Qed.

End Update.

(** The witness of [update_step_damped_mean]: three observations, the
    first and the last with Bronze, the second with Gold, in binary32. *)
Lemma update_step_damped_mean_witness :
  Segmentation.centroid
    (snd (Segmentation.update_centroids (F:=binary32) 3 [10; 40; 20]%Z
            [20; 600; 40]%Z [0; 2; 0] Segmentation.initial_centroids)) 0
  = damped (mean_position 0 3 [10; 40; 20]%Z [20; 600; 40]%Z [0; 2; 0])
      (Segmentation.centroid Segmentation.initial_centroids 0).
Proof.
  apply (update_step_damped_mean (F:=binary32) 3 [10; 40; 20]%Z [20; 600; 40]%Z
           [0; 2; 0] Segmentation.initial_centroids 0).
  - reflexivity.
  - intros [|[|[|i]]] Hi; simpl; unfold Segmentation.NUM_CLUSTERS; lia.
  - unfold Segmentation.NUM_CLUSTERS. lia.
Defined.

(** ** The error of rounding to nearest *)

Section RoundValue.
Variables prec emax : Z.
Hypothesis prec_pos : (0 < prec)%Z.

Local Open Scope Z_scope.

Lemma shr_nonpos (mrs : shr_record) (e n : Z) : n <= 0 -> shr mrs e n = (mrs, e).
Proof. intros Hn. unfold shr. by destruct n. Qed.

Lemma shr_fexp_keep (m e : Z) :
  fexp prec emax (Zdigits2 m + e) <= e ->
  shr_fexp prec emax m e loc_Exact = (Build_shr_record m false false, e).
Proof.
  intros H. unfold shr_fexp. simpl shr_record_of_loc. apply shr_nonpos. lia.
Qed.

Lemma shr_fexp_shift (m e : Z) :
  e < fexp prec emax (Zdigits2 m + e) ->
  shr_fexp prec emax m e loc_Exact
  = (Nat.iter (Z.to_nat (fexp prec emax (Zdigits2 m + e) - e)) shr_1
       (Build_shr_record m false false),
     fexp prec emax (Zdigits2 m + e)).
Proof.
  intros H. unfold shr_fexp. simpl shr_record_of_loc.
  rewrite shr_nat by lia. f_equal. lia.
Qed.

(** [binary_round_aux] on an exact input [mz * 2 ^ ez]: the result
    stands for [m1 * 2 ^ e1], where either nothing was shifted out and
    [m1 * 2 ^ e1] is the input, or [e1] is the exponent of the input's
    binade and [m1] is one of the two neighbours of the input at that
    exponent. *)
Lemma binary_round_aux_value (s : bool) (mz : positive) (ez : Z) :
  let r := binary_round_aux prec emax s (Z.pos mz) ez loc_Exact in
  exists (m1 e1 : Z),
    0 <= m1
    /\ (m1 = 0 /\ r = S754_zero s
        \/ exists (m2 : positive) (e2 : Z),
             e1 <= e2 <= e1 + 1 /\ Z.pos m2 * 2 ^ (e2 - e1) = m1
             /\ r = (if e2 <=? emax - prec then S754_finite s m2 e2
                     else S754_infinity s))
    /\ (e1 = ez /\ m1 = Z.pos mz
        \/ ez < e1 /\ e1 = fexp prec emax (Z.pos (digits2_pos mz) + ez)
           /\ (m1 - 1) * 2 ^ (e1 - ez) <= Z.pos mz <= (m1 + 1) * 2 ^ (e1 - ez)).
Proof.
  intros r. unfold r, binary_round_aux.
  set (D := Z.pos (digits2_pos mz) + ez).
  set (e1 := fexp prec emax D).
  set (s1 := e1 - ez).
  destruct (Z.le_gt_cases s1 0) as [Hs1|Hs1].
  - (* nothing is shifted out *)
    rewrite shr_fexp_keep by (simpl Zdigits2; fold D; fold e1; lia).
    cbn [shr_m loc_of_shr_record round_nearest_even].
    rewrite shr_fexp_keep by (simpl Zdigits2; fold D; fold e1; lia).
    cbn [shr_m].
    exists (Z.pos mz), ez. split; [lia|]. split; [|by left].
    right. exists mz, ez. split; [lia|]. split; [|done].
    rewrite Z.sub_diag. simpl. lia.
  - rewrite shr_fexp_shift by (simpl Zdigits2; fold D; fold e1; lia).
    simpl Zdigits2. fold D. fold e1. fold s1.
    pose proof (shr_iter (Z.pos mz) (Z.to_nat s1) ltac:(lia)) as Hshr.
    destruct (Nat.iter (Z.to_nat s1) shr_1 _) as [m' r' s'] eqn:Emrs.
    cbn [shr_m shr_r shr_s] in Hshr. rewrite Z2Nat.id in Hshr by lia.
    destruct Hshr as (Hm0 & [Hma Hmb] & _).
    pose proof (round_nearest_even_bounds (Build_shr_record m' r' s')) as Hrnd.
    cbn [shr_m shr_r shr_s] in Hrnd |- *.
    set (m1 := round_nearest_even m' _) in *.
    destruct Hrnd as [[Hr1 Hr2] _].
    pose proof (pow2_pos s1 ltac:(lia)) as Hp1.
    assert (Hemin : emin prec emax <= e1) by apply fexp_emin.
    exists m1, e1. split; [lia|]. split.
    2: { right. split; [unfold s1 in Hs1; lia|]. split; [done|].
         fold s1. nia. }
    destruct m1 as [|p1|p1] eqn:Em1; [|clear Em1|lia].
    + left. split; [done|].
      rewrite shr_fexp_keep by (simpl Zdigits2; unfold fexp; lia).
      done.
    + right.
      (* the number of digits of the rounded mantissa *)
      pose proof (digits2_pos_bounds mz) as [Hlo Hhi].
      set (k := D - e1).
      assert (Hk : k <= prec) by (unfold k, e1, fexp; lia).
      assert (Hdz : Z.pos (digits2_pos mz) = k + s1) by (unfold k, s1, D; lia).
      assert (Hp1k : Z.pos p1 <= 2 ^ Z.max k 0).
      { destruct (Z.le_gt_cases 0 k) as [Hk0|Hk0].
        - rewrite Z.max_l by lia. rewrite Hdz, pow2_split in Hhi by lia.
          pose proof (pow2_pos k Hk0). nia.
        - rewrite Z.max_r by lia. change (2 ^ 0) with 1.
          assert (Z.pos (digits2_pos mz) < s1) by lia.
          assert (2 ^ Z.pos (digits2_pos mz) <= 2 ^ s1)
            by (apply Z.pow_le_mono_r; lia).
          nia. }
      assert (Hd1 : Z.pos (digits2_pos p1) <= Z.max k 0 + 1).
      { apply digits2_pos_le.
        replace (Z.max k 0 + 1) with (Z.succ (Z.max k 0)) by lia.
        rewrite Z.pow_succ_r by lia.
        pose proof (pow2_pos (Z.max k 0) ltac:(lia)). lia. }
      set (n2 := fexp prec emax (Z.pos (digits2_pos p1) + e1) - e1).
      assert (Hn2 : n2 <= 1) by (unfold n2, fexp; lia).
      destruct (Z.eq_dec n2 1) as [Hone|Hnone].
      * assert (Hkp : k = prec /\ Z.pos (digits2_pos p1) = k + 1)
          by (unfold n2, fexp in Hone; lia).
        destruct Hkp as [Hkp Hd1'].
        assert (Hge : 2 ^ k <= Z.pos p1).
        { pose proof (digits2_pos_bounds p1) as [Hlo1 _].
          rewrite Hd1' in Hlo1. by replace (k + 1 - 1) with k in Hlo1 by lia. }
        rewrite Z.max_l in Hp1k by lia.
        assert (Heq : Z.pos p1 = 2 ^ k) by lia.
        assert (Hkk : 2 ^ k = 2 * 2 ^ (k - 1)).
        { replace k with (Z.succ (k - 1)) at 1 by lia. apply Z.pow_succ_r. lia. }
        rewrite shr_fexp_shift by (simpl Zdigits2; fold n2; lia).
        simpl Zdigits2. fold n2. rewrite Hone.
        destruct p1 as [p1|p1|]; [lia| |].
        2: { pose proof (pow2_pos (k - 1) ltac:(lia)). lia. }
        simpl. exists p1, (e1 + 1). split; [lia|]. split.
        -- replace (e1 + 1 - e1) with 1 by lia. change (2 ^ 1) with 2. lia.
        -- replace (fexp prec emax (Z.pos (Pos.succ (digits2_pos p1)) + e1))
             with (e1 + 1); [done|].
           unfold n2 in Hone. simpl digits2_pos in Hone. lia.
      * rewrite shr_fexp_keep by (simpl Zdigits2; fold n2; lia).
        cbn [shr_m].
        exists p1, e1. split; [lia|]. split; [|done].
        rewrite Z.sub_diag. simpl. lia.
Qed.

End RoundValue.
(** ** Rounding, in real numbers *)

Section PowersOfTwo.
Local Open Scope R_scope.

Lemma pow2R_pos (e : Z) : 0 < powerRZ 2 e.
Proof. apply powerRZ_lt. lra. Qed.

Lemma pow2R_add (a b : Z) : powerRZ 2 (a + b) = powerRZ 2 a * powerRZ 2 b.
Proof. apply powerRZ_add. lra. Qed.

Lemma pow2R_IZR (n : Z) : (0 <= n)%Z -> IZR (2 ^ n) = powerRZ 2 n.
Proof.
  intros Hn. rewrite <- (Z2Nat.id n) by done.
  rewrite <- pow_IZR, <- pow_powerRZ. done.
Qed.

Lemma pow2R_ge_1 (n : Z) : (0 <= n)%Z -> 1 <= powerRZ 2 n.
Proof.
  intros Hn. rewrite <- pow2R_IZR by done. apply IZR_le.
  pose proof (Z.pow_pos_nonneg 2 n ltac:(lia) Hn). lia.
Qed.

Lemma pow2R_le (a b : Z) : (a <= b)%Z -> powerRZ 2 a <= powerRZ 2 b.
Proof.
  intros Hab. replace b with (a + (b - a))%Z by lia. rewrite pow2R_add.
  pose proof (pow2R_pos a). pose proof (pow2R_ge_1 (b - a) ltac:(lia)). nra.
Qed.

Lemma pow2R_lt_inv (a b : Z) : powerRZ 2 a < powerRZ 2 b -> (a < b)%Z.
Proof.
  intros H. destruct (Z.lt_ge_cases a b) as [|Hge]; [done|].
  pose proof (pow2R_le b a Hge). lra.
Qed.

Lemma pow2R_succ (a : Z) : powerRZ 2 (a + 1) = 2 * powerRZ 2 a.
Proof. rewrite pow2R_add. simpl. lra. Qed.

End PowersOfTwo.

Section RoundReal.
Variables prec emax : Z.
Hypothesis prec_pos : (0 < prec)%Z.
Hypothesis emax_two : (2 <= emax)%Z.

Local Open Scope R_scope.

Lemma SF2R_finite (s : bool) (m : positive) (e : Z) :
  SF2R (S754_finite s m e)
  = (if s then -1 else 1) * (IZR (Z.pos m) * powerRZ 2 e).
Proof.
  unfold SF2R. destruct s; cbn [cond_Zopp]; [|lra].
  change (- Z.pos m)%Z with (Z.opp (Z.pos m)). rewrite opp_IZR. lra.
Qed.

(** Rounding an exact number [x] that is below the overflow threshold
    gives a finite number within [2 ^ (1 - prec) * x + 2 ^ emin] of
    [x]. *)
Lemma binary_round_aux_R (s : bool) (mz : positive) (ez : Z) :
  let x := IZR (Z.pos mz) * powerRZ 2 ez in
  let r := binary_round_aux prec emax s (Z.pos mz) ez loc_Exact in
  x < powerRZ 2 (emax - prec) ->
  is_finite r = true
  /\ Rabs (SF2R r - (if s then -1 else 1) * x)
     <= powerRZ 2 (1 - prec) * x + powerRZ 2 (emin prec emax).
Proof.
  intros x r Hx.
  assert (Hx0 : 0 < x).
  { unfold x. apply Rmult_lt_0_compat; [by apply IZR_lt|apply pow2R_pos]. }
  pose proof (pow2R_pos (1 - prec)) as Heps.
  pose proof (pow2R_pos (emin prec emax)) as Heta.
  destruct (binary_round_aux_value prec emax prec_pos s mz ez)
    as (m1 & e1 & Hm1 & Hres & Herr).
  fold r in Hres.
  set (V := IZR m1 * powerRZ 2 e1).
  (* the error *)
  assert (HV : Rabs (V - x) <= powerRZ 2 (1 - prec) * x + powerRZ 2 (emin prec emax)
               /\ (V = x \/ (V <= x + powerRZ 2 e1
                             /\ (powerRZ 2 e1 <= powerRZ 2 (1 - prec) * x
                                 \/ e1 = emin prec emax)))).
  { destruct Herr as [[-> ->]|(Hlt & He1 & Hlo & Hhi)].
    - assert (V = x) as -> by done. split; [|by left].
      replace (x - x) with 0 by lra. rewrite Rabs_R0. nra.
    - set (s1 := (e1 - ez)%Z) in *.
      assert (Hs1 : (0 < s1)%Z) by (unfold s1; lia).
      apply IZR_le in Hlo, Hhi. rewrite mult_IZR in Hlo, Hhi.
      rewrite pow2R_IZR in Hlo, Hhi by lia.
      rewrite minus_IZR in Hlo. rewrite plus_IZR in Hhi.
      assert (He : powerRZ 2 e1 = powerRZ 2 s1 * powerRZ 2 ez).
      { rewrite <- pow2R_add. f_equal. unfold s1. lia. }
      pose proof (pow2R_pos ez) as Hpez.
      pose proof (pow2R_pos s1) as Hps1.
      pose proof (pow2R_pos e1) as Hpe1.
      assert (Hclose : V - powerRZ 2 e1 <= x <= V + powerRZ 2 e1).
      { unfold V, x. rewrite He. split; nra. }
      assert (Hulp : powerRZ 2 e1 <= powerRZ 2 (1 - prec) * x
                     \/ e1 = emin prec emax).
      { unfold fexp in He1.
        destruct (Z.max_spec (Z.pos (digits2_pos mz) + ez - prec) (emin prec emax))
          as [[_ Hmax]|[_ Hmax]]; [right; lia|left].
        rewrite Hmax in He1.
        pose proof (digits2_pos_bounds mz) as [Hd _].
        apply IZR_le in Hd. rewrite pow2R_IZR in Hd by lia.
        assert (E : powerRZ 2 e1
                    = powerRZ 2 (1 - prec)
                      * (powerRZ 2 (Z.pos (digits2_pos mz) - 1) * powerRZ 2 ez)).
        { rewrite <- !pow2R_add. f_equal. clear -He1. lia. }
        rewrite E. unfold x.
        apply Rmult_le_compat_l; [lra|]. apply Rmult_le_compat_r; [lra|done]. }
      split.
      + assert (0 <= powerRZ 2 (1 - prec) * x) by nra.
        apply Rabs_le. destruct Hulp as [Hu| ->]; split; lra.
      + right. split; [lra|done]. }
  destruct HV as [Hdist Hmag].
  destruct Hres as [[-> ->]|(m2 & e2 & He2 & Hm2 & ->)].
  - split; [done|].
    assert (V = 0) as HV0 by (unfold V; lra).
    rewrite HV0 in Hdist. cbn [SF2R].
    replace (0 - (if s then -1 else 1) * x) with (- ((if s then -1 else 1) * x))
      by lra.
    rewrite Rabs_Ropp. rewrite Rabs_minus_sym in Hdist.
    replace (x - 0) with x in Hdist by lra.
    destruct s.
    + replace (-1 * x) with (- x) by lra. by rewrite Rabs_Ropp.
    + by replace (1 * x) with x by lra.
  - (* the value of the finite result *)
    assert (HVm : V = IZR (Z.pos m2) * powerRZ 2 e2).
    { unfold V. rewrite <- Hm2, mult_IZR, pow2R_IZR by lia.
      replace e2 with ((e2 - e1) + e1)%Z at 2 by lia. rewrite pow2R_add. lra. }
    assert (Hfin : (e2 <= emax - prec)%Z).
    { destruct (Z.le_gt_cases e2 (emax - prec)) as [|Hgt]; [done|exfalso].
      assert (H1 : powerRZ 2 e2 <= V).
      { rewrite HVm. pose proof (pow2R_pos e2).
        assert (1 <= IZR (Z.pos m2)) by (apply IZR_le; lia). nra. }
      pose proof (pow2R_le (emax - prec + 1) e2 ltac:(lia)) as H2.
      rewrite pow2R_succ in H2.
      destruct Hmag as [Heq|[Hle Hulp]]; [lra|].
      pose proof (pow2R_le (emax - prec) e1 ltac:(lia)) as H3.
      destruct Hulp as [Hu|Hu].
      - assert (powerRZ 2 (1 - prec) <= 1).
        { change 1 with (powerRZ 2 0). apply pow2R_le. lia. }
        nra.
      - unfold emin in Hu. lia. }
    assert (E : (e2 <=? emax - prec)%Z = true) by (by apply Z.leb_le).
    rewrite E. split; [done|].
    rewrite SF2R_finite, <- HVm.
    replace ((if s then -1 else 1) * V - (if s then -1 else 1) * x)
      with ((if s then -1 else 1) * (V - x)) by lra.
    destruct s.
    + replace (-1 * (V - x)) with (- (V - x)) by lra. by rewrite Rabs_Ropp.
    + by replace (1 * (V - x)) with (V - x) by lra.
Qed.

Lemma binary_round_R (s : bool) (m : positive) (e : Z) :
  let x := IZR (Z.pos m) * powerRZ 2 e in
  let r := binary_round prec emax s m e in
  x < powerRZ 2 (emax - prec) ->
  is_finite r = true
  /\ Rabs (SF2R r - (if s then -1 else 1) * x)
     <= powerRZ 2 (1 - prec) * x + powerRZ 2 (emin prec emax).
Proof.
  intros x r Hx. unfold r, binary_round.
  pose proof (shl_align_value m e (fexp prec emax (Z.pos (digits2_pos m) + e)))
    as Hal.
  destruct (shl_align m e _) as [mz ez]. destruct Hal as [Hez Hmz].
  assert (Hsame : IZR (Z.pos mz) * powerRZ 2 ez = x).
  { unfold x. rewrite Hmz, mult_IZR, pow2R_IZR by lia.
    replace e with ((e - ez) + ez)%Z at 2 by lia. rewrite pow2R_add. lra. }
  pose proof (binary_round_aux_R s mz ez) as H. cbv zeta in H.
  rewrite Hsame in H. by apply H.
Qed.

(** A number that fits the format is not changed by rounding. *)
Lemma binary_round_exact (s : bool) (m : positive) (e : Z) :
  let x := IZR (Z.pos m) * powerRZ 2 e in
  let r := binary_round prec emax s m e in
  (Z.pos (digits2_pos m) <= prec)%Z -> (emin prec emax <= e)%Z ->
  x < powerRZ 2 (emax - prec) ->
  valid_binary prec emax r = true /\ is_finite r = true
  /\ SF2R r = (if s then -1 else 1) * x.
Proof.
  intros x r Hd He Hx.
  destruct (binary_round_R s m e Hx) as [Hfin _]. fold r in Hfin.
  destruct (binary_round_spec prec emax prec_pos s m e He)
    as (m2 & e2 & Hres & Hcan & _).
  fold r in Hres.
  assert (Hvalid : valid_binary prec emax r = true).
  { rewrite Hres in Hfin |- *. destruct (e2 <=? emax - prec)%Z eqn:E; [|done].
    cbn [valid_binary]. unfold bounded. by rewrite Hcan, E. }
  split; [done|]. split; [done|].
  unfold r, binary_round.
  pose proof (shl_align_value m e (fexp prec emax (Z.pos (digits2_pos m) + e)))
    as Hal.
  destruct (shl_align m e _) as [mz ez] eqn:Eal. destruct Hal as [Hez Hmz].
  assert (Hsame : IZR (Z.pos mz) * powerRZ 2 ez = x).
  { unfold x. rewrite Hmz, mult_IZR, pow2R_IZR by lia.
    replace e with ((e - ez) + ez)%Z at 2 by lia. rewrite pow2R_add. lra. }
  assert (Hdz : Z.pos (digits2_pos mz) = (Z.pos (digits2_pos m) + (e - ez))%Z).
  { pose proof (digits2_pos_bounds m) as [Hlo Hhi].
    pose proof (pow2_pos (e - ez) ltac:(lia)) as Hp.
    apply Z.le_antisymm.
    - apply digits2_pos_le. rewrite pow2_split by lia. nia.
    - replace (Z.pos (digits2_pos m) + (e - ez))%Z
        with ((Z.pos (digits2_pos m) - 1 + (e - ez)) + 1)%Z by lia.
      apply digits2_pos_ge. rewrite pow2_split by lia. nia. }
  assert (Hfix : (fexp prec emax (Z.pos (digits2_pos mz) + ez) <= ez)%Z).
  { rewrite Hdz.
    replace (Z.pos (digits2_pos m) + (e - ez) + ez)%Z
      with (Z.pos (digits2_pos m) + e)%Z by lia.
    unfold fexp in *. lia. }
  clear Hez Hd He Hdz.
  assert (Hr : r = binary_round_aux prec emax s (Z.pos mz) ez loc_Exact)
    by (unfold r, binary_round; by rewrite Eal).
  destruct (binary_round_aux_value prec emax prec_pos s mz ez)
    as (m1 & e1 & Hm1 & Hval & Herr).
  rewrite <- Hr in Hval |- *.
  destruct Herr as [[-> ->]|(Hlt & He1 & _)]; [|exfalso; lia].
  destruct Hval as [[Hz _]|(m3 & e3 & He3 & Hm3 & Hr3)]; [lia|].
  rewrite Hr3 in Hfin |- *.
  destruct (e3 <=? emax - prec)%Z; [|done].
  rewrite SF2R_finite. f_equal. rewrite <- Hsame, <- Hm3, mult_IZR.
  rewrite pow2R_IZR by lia.
  replace e3 with ((e3 - ez) + ez)%Z at 1 by lia. rewrite pow2R_add. lra.
Qed.

Lemma binary_normalize_R (m e : Z) (szero : bool) :
  let x := IZR m * powerRZ 2 e in
  let r := binary_normalize prec emax m e szero in
  Rabs x < powerRZ 2 (emax - prec) ->
  is_finite r = true
  /\ Rabs (SF2R r - x) <= powerRZ 2 (1 - prec) * Rabs x + powerRZ 2 (emin prec emax).
Proof.
  intros x r Hx. unfold r, binary_normalize.
  pose proof (pow2R_pos e) as Hpe.
  pose proof (pow2R_pos (1 - prec)) as Heps.
  pose proof (pow2R_pos (emin prec emax)) as Heta.
  destruct m as [|p|p].
  - split; [done|]. cbn [SF2R]. unfold x.
    replace (0 - 0 * powerRZ 2 e) with 0 by lra.
    replace (0 * powerRZ 2 e) with 0 by lra. rewrite Rabs_R0. lra.
  - assert (Hp : 0 < x).
    { unfold x. apply Rmult_lt_0_compat; [by apply IZR_lt|done]. }
    rewrite (Rabs_pos_eq x) in Hx |- * by lra.
    destruct (binary_round_R false p e Hx) as [Hf He]. split; [done|].
    by replace (1 * (IZR (Z.pos p) * powerRZ 2 e)) with x in He by (unfold x; lra).
  - assert (Hx' : x = - (IZR (Z.pos p) * powerRZ 2 e)).
    { unfold x. change (Z.neg p) with (Z.opp (Z.pos p)). rewrite opp_IZR. lra. }
    assert (Hp : 0 < IZR (Z.pos p) * powerRZ 2 e).
    { apply Rmult_lt_0_compat; [by apply IZR_lt|done]. }
    rewrite Hx', Rabs_Ropp, (Rabs_pos_eq _ (Rlt_le _ _ Hp)) in Hx |- *.
    destruct (binary_round_R true p e Hx) as [Hf He]. split; [done|].
    by replace (-1 * (IZR (Z.pos p) * powerRZ 2 e))
      with (- (IZR (Z.pos p) * powerRZ 2 e)) in He by lra.
Qed.

(** The product of two finite numbers. *)
Lemma SFmul_R (x y : spec_float) :
  is_finite x = true -> is_finite y = true ->
  Rabs (SF2R x * SF2R y) < powerRZ 2 (emax - prec) ->
  is_finite (SFmul prec emax x y) = true
  /\ Rabs (SF2R (SFmul prec emax x y) - SF2R x * SF2R y)
     <= powerRZ 2 (1 - prec) * Rabs (SF2R x * SF2R y)
        + powerRZ 2 (emin prec emax).
Proof.
  intros Hfx Hfy Hmag.
  pose proof (pow2R_pos (1 - prec)) as Heps.
  pose proof (pow2R_pos (emin prec emax)) as Heta.
  assert (Hzero : forall v : R, v = 0 ->
            Rabs (0 - v) <= powerRZ 2 (1 - prec) * Rabs v
                            + powerRZ 2 (emin prec emax)).
  { intros v ->. replace (0 - 0) with 0 by lra. rewrite Rabs_R0. lra. }
  destruct x as [sx| | |sx mx ex]; try discriminate;
    destruct y as [sy| | |sy my ey]; try discriminate;
    try (split; [done|]; cbn [SFmul SF2R]; apply Hzero; lra).
  cbn [SFmul].
  set (X := IZR (Z.pos (mx * my)) * powerRZ 2 (ex + ey)).
  assert (Hprod : SF2R (S754_finite sx mx ex) * SF2R (S754_finite sy my ey)
                  = (if xorb sx sy then -1 else 1) * X).
  { rewrite !SF2R_finite. unfold X.
    rewrite Pos2Z.inj_mul, mult_IZR, pow2R_add. destruct sx, sy; cbn [xorb]; lra. }
  assert (HX : 0 < X).
  { unfold X. apply Rmult_lt_0_compat; [by apply IZR_lt|apply pow2R_pos]. }
  assert (Habs : Rabs ((if xorb sx sy then -1 else 1) * X) = X).
  { destruct (xorb sx sy).
    - replace (-1 * X) with (- X) by lra. rewrite Rabs_Ropp. apply Rabs_pos_eq. lra.
    - replace (1 * X) with X by lra. apply Rabs_pos_eq. lra. }
  rewrite Hprod, Habs in Hmag |- *.
  by apply binary_round_aux_R.
Qed.

(** The sum of two finite numbers. *)
Lemma SFadd_R (x y : spec_float) :
  is_finite x = true -> is_finite y = true ->
  Rabs (SF2R x + SF2R y) < powerRZ 2 (emax - prec) ->
  is_finite (SFadd prec emax x y) = true
  /\ Rabs (SF2R (SFadd prec emax x y) - (SF2R x + SF2R y))
     <= powerRZ 2 (1 - prec) * Rabs (SF2R x + SF2R y)
        + powerRZ 2 (emin prec emax).
Proof.
  intros Hfx Hfy Hmag.
  pose proof (pow2R_pos (1 - prec)) as Heps.
  pose proof (pow2R_pos (emin prec emax)) as Heta.
  assert (Hexact : forall v w : R, v = w ->
            Rabs (v - w) <= powerRZ 2 (1 - prec) * Rabs w
                            + powerRZ 2 (emin prec emax)).
  { intros v w ->. replace (w - w) with 0 by lra. rewrite Rabs_R0.
    pose proof (Rabs_pos w). nra. }
  destruct x as [sx| | |sx mx ex]; try discriminate;
    destruct y as [sy| | |sy my ey]; try discriminate.
  - split; [by destruct sx, sy|]. apply Hexact. destruct sx, sy; cbn; lra.
  - split; [done|]. apply Hexact. cbn [SFadd SF2R]. lra.
  - split; [done|]. apply Hexact. cbn [SFadd SF2R]. lra.
  - cbn [SFadd].
    pose proof (shl_align_value mx ex (Z.min ex ey)) as Hax.
    pose proof (shl_align_value my ey (Z.min ex ey)) as Hay.
    destruct (shl_align mx ex _) as [mx' ex'], (shl_align my ey _) as [my' ey'].
    cbn [fst]. destruct Hax as [Hex Hmx], Hay as [Hey Hmy].
    set (ez := Z.min ex ey) in *.
    assert (Hex' : ex' = ez) by lia. assert (Hey' : ey' = ez) by lia.
    rewrite Hex' in Hmx. rewrite Hey' in Hmy. clear Hex Hey Hex' Hey'.
    assert (Hdx : (0 <= ex - ez)%Z) by lia.
    assert (Hdy : (0 <= ey - ez)%Z) by lia.
    set (S := (cond_Zopp sx (Z.pos mx') + cond_Zopp sy (Z.pos my'))%Z).
    assert (Hsum : SF2R (S754_finite sx mx ex) + SF2R (S754_finite sy my ey)
                   = IZR S * powerRZ 2 ez).
    { rewrite !SF2R_finite. unfold S. rewrite plus_IZR.
      assert (Hx : IZR (cond_Zopp sx (Z.pos mx')) * powerRZ 2 ez
                   = (if sx then -1 else 1) * (IZR (Z.pos mx) * powerRZ 2 ex)).
      { assert (Hpow : powerRZ 2 ex = powerRZ 2 (ex - ez) * powerRZ 2 ez)
          by (rewrite <- pow2R_add; f_equal; clear; lia).
        rewrite Hpow, <- (pow2R_IZR (ex - ez)) by assumption.
        destruct sx; cbn [cond_Zopp];
          [change (- Z.pos mx')%Z with (Z.opp (Z.pos mx')); rewrite opp_IZR|];
          rewrite Hmx, mult_IZR; ring. }
      assert (Hy : IZR (cond_Zopp sy (Z.pos my')) * powerRZ 2 ez
                   = (if sy then -1 else 1) * (IZR (Z.pos my) * powerRZ 2 ey)).
      { assert (Hpow : powerRZ 2 ey = powerRZ 2 (ey - ez) * powerRZ 2 ez)
          by (rewrite <- pow2R_add; f_equal; clear; lia).
        rewrite Hpow, <- (pow2R_IZR (ey - ez)) by assumption.
        destruct sy; cbn [cond_Zopp];
          [change (- Z.pos my')%Z with (Z.opp (Z.pos my')); rewrite opp_IZR|];
          rewrite Hmy, mult_IZR; ring. }
      lra. }
    rewrite Hsum in Hmag |- *.
    by apply binary_normalize_R.
Qed.

End RoundReal.
(** ** The conversion of a [float] to [double] *)

(** Every binary32 number is a binary64 number: the conversion in the
    convergence test gives a number of the wider format that stands for
    the same real number, so that the comparison with the literal 0.01 is
    a comparison of two doubles. *)
Lemma b32_to_b64_exact (x : binary32) :
  valid_binary 24 128 x = true ->
  valid_binary 53 1024 (b32_to_b64 x) = true
  /\ is_finite (b32_to_b64 x) = is_finite x
  /\ SF2R (b32_to_b64 x) = SF2R x.
Proof.
  destruct x as [s|s| |s m e]; try done.
  intros Hv. cbn [valid_binary] in Hv. unfold bounded in Hv.
  apply andb_true_iff in Hv as [Hcan He]. apply Z.leb_le in He.
  unfold canonical_mantissa in Hcan. apply Z.eqb_eq in Hcan.
  assert (Hd : (Z.pos (digits2_pos m) <= 24)%Z) by (unfold fexp, emin in Hcan; lia).
  assert (Hm : (-149 <= e)%Z) by (unfold fexp, emin in Hcan; lia).
  assert (Hx : (IZR (Z.pos m) * powerRZ 2 e < powerRZ 2 (1024 - 53))%R).
  { pose proof (digits2_pos_bounds m) as [_ Hhi].
    apply IZR_lt in Hhi. rewrite pow2R_IZR in Hhi by lia.
    pose proof (pow2R_pos e) as Hpe.
    apply Rlt_le_trans with (powerRZ 2 (Z.pos (digits2_pos m) + e)).
    - rewrite pow2R_add. nra.
    - apply pow2R_le. lia. }
  destruct (binary_round_exact 53 1024 ltac:(lia) ltac:(lia) s m e
              ltac:(lia) ltac:(unfold emin; lia) Hx) as (H1 & H2 & H3).
  assert (Hr : b32_to_b64 (S754_finite s m e) = binary_round 53 1024 s m e)
    by (by destruct s).
  rewrite Hr, SF2R_finite. done.
Qed.

(** ** The damped step in binary32 *)

Section DampedStep.
Local Open Scope R_scope.

Lemma Rabs_le_inv (x b : R) : Rabs x <= b -> - b <= x <= b.
Proof.
  intros H. pose proof (Rle_abs x). pose proof (Rle_abs (- x)) as H2.
  rewrite Rabs_Ropp in H2. lra.
Qed.

(** The two weights, [0.7f] and [0.3f], add up to one exactly. *)
Lemma b32_weights :
  SF2R (b32_lit 7 10) = 11744051 / 16777216
  /\ SF2R (b32_lit 3 10) = 5033165 / 16777216.
Proof.
  replace (b32_lit 7 10) with (S754_finite false 11744051 (-24))
    by (vm_compute; reflexivity).
  replace (b32_lit 3 10) with (S754_finite false 10066330 (-25))
    by (vm_compute; reflexivity).
  cbn [SF2R cond_Zopp]. simpl powerRZ. split; lra.
Qed.

Lemma moderate_R (x : spec_float) :
  moderate x = true -> is_finite x = true /\ Rabs (SF2R x) <= powerRZ 2 100.
Proof.
  pose proof (pow2R_pos 100) as HT.
  destruct x as [s| | |s m e]; try discriminate; intros H.
  - split; [done|]. cbn [SF2R]. rewrite Rabs_R0. lra.
  - split; [done|]. cbn [moderate] in H. apply Z.leb_le in H.
    rewrite SF2R_finite.
    pose proof (digits2_pos_bounds m) as [_ Hhi].
    apply IZR_lt in Hhi. rewrite pow2R_IZR in Hhi by lia.
    pose proof (pow2R_pos e) as Hpe.
    assert (Hm : 0 < IZR (Z.pos m)) by (by apply IZR_lt).
    assert (Hv : IZR (Z.pos m) * powerRZ 2 e <= powerRZ 2 100).
    { apply Rle_trans with (powerRZ 2 (Z.pos (digits2_pos m) + e)).
      - rewrite pow2R_add. nra.
      - by apply pow2R_le. }
    assert (Hv0 : 0 < IZR (Z.pos m) * powerRZ 2 e) by nra.
    destruct s.
    + replace (-1 * (IZR (Z.pos m) * powerRZ 2 e))
        with (- (IZR (Z.pos m) * powerRZ 2 e)) by lra.
      rewrite Rabs_Ropp, Rabs_pos_eq; lra.
    + replace (1 * (IZR (Z.pos m) * powerRZ 2 e))
        with (IZR (Z.pos m) * powerRZ 2 e) by lra.
      rewrite Rabs_pos_eq; lra.
Qed.

(** One coordinate of the damped step: the result is finite, and it is
    no farther from the old coordinate than 0.7 times the distance of
    the mean from it, up to the rounding of the three operations. *)
Lemma damped_coordinate (m o : binary32) :
  moderate m = true -> moderate o = true ->
  let u := f_add (f_mul (f_lit 7 10) m) (f_mul (f_lit 3 10) o) in
  is_finite u = true
  /\ Rabs (SF2R u - SF2R o)
     <= 7 / 10 * Rabs (SF2R m - SF2R o) + rounding_slack m o.
Proof.
  intros Hmm Hmo u. unfold u.
  destruct (moderate_R m Hmm) as [Hfm Hm]. destruct (moderate_R o Hmo) as [Hfo Ho].
  change (@f_add binary32 b32_ops) with (SFadd 24 128).
  change (@f_mul binary32 b32_ops) with (SFmul 24 128).
  change (@f_lit binary32 b32_ops) with b32_lit.
  destruct b32_weights as [Ha Hb].
  assert (Hfa : is_finite (b32_lit 7 10) = true) by (by vm_compute).
  assert (Hfb : is_finite (b32_lit 3 10) = true) by (by vm_compute).
  set (ra := SF2R (b32_lit 7 10)) in *. set (rb := SF2R (b32_lit 3 10)) in *.
  set (rm := SF2R m) in *. set (ro := SF2R o) in *.
  set (T := powerRZ 2 100) in *.
  assert (HT : 1 <= T) by (apply pow2R_ge_1; lia).
  assert (HT4 : powerRZ 2 (128 - 24) = 16 * T).
  { change (128 - 24)%Z with (4 + 100)%Z. rewrite pow2R_add. fold T. simpl. lra. }
  assert (Heps : powerRZ 2 (1 - 24) = / 8388608) by (simpl; lra).
  set (eta := powerRZ 2 (emin 24 128)) in *.
  assert (Heta : 0 < eta <= 1).
  { split; [apply pow2R_pos|]. change 1 with (powerRZ 2 0). apply pow2R_le.
    unfold emin. lia. }
  assert (Hslack : rounding_slack m o
                   = / 2097152 * (Rabs rm + Rabs ro) + 4 * eta).
  { unfold rounding_slack, eta. fold rm ro.
    change (-147)%Z with (2 + emin 24 128)%Z. rewrite pow2R_add.
    simpl (powerRZ 2 2). simpl (powerRZ 2 (-21)). lra. }
  pose proof (Rabs_pos rm) as HM0. pose proof (Rabs_pos ro) as HO0.
  assert (Hram : Rabs (ra * rm) = ra * Rabs rm).
  { rewrite Rabs_mult, (Rabs_pos_eq ra); [done|lra]. }
  assert (Hrbo : Rabs (rb * ro) = rb * Rabs ro).
  { rewrite Rabs_mult, (Rabs_pos_eq rb); [done|lra]. }
  (* the two products *)
  destruct (SFmul_R 24 128 ltac:(lia) ltac:(lia) (b32_lit 7 10) m Hfa Hfm)
    as [Hfp Hp].
  { fold ra rm. rewrite Hram, HT4, Ha. lra. }
  destruct (SFmul_R 24 128 ltac:(lia) ltac:(lia) (b32_lit 3 10) o Hfb Hfo)
    as [Hfq Hq].
  { fold rb ro. rewrite Hrbo, HT4, Hb. lra. }
  fold ra rm in Hp. fold rb ro in Hq. fold eta in Hp, Hq.
  rewrite Heps, Hram, Ha in Hp. rewrite Heps, Hrbo, Hb in Hq.
  set (rp := SF2R (SFmul 24 128 (b32_lit 7 10) m)) in *.
  set (rq := SF2R (SFmul 24 128 (b32_lit 3 10) o)) in *.
  apply Rabs_le_inv in Hp, Hq.
  assert (Hpq : Rabs (rp + rq)
                <= (1 + / 8388608) * (ra * Rabs rm + rb * Rabs ro) + 2 * eta).
  { rewrite Ha, Hb. apply Rabs_le.
    pose proof (Rle_abs rm). pose proof (Rle_abs (- rm)) as Hm2.
    pose proof (Rle_abs ro). pose proof (Rle_abs (- ro)) as Ho2.
    rewrite Rabs_Ropp in Hm2, Ho2. split; lra. }
  (* the sum *)
  destruct (SFadd_R 24 128 ltac:(lia) ltac:(lia) _ _ Hfp Hfq) as [Hfu Hu].
  { fold rp rq. rewrite HT4. rewrite Ha, Hb in Hpq. lra. }
  fold rp rq eta in Hu. rewrite Heps in Hu. rewrite Ha, Hb in Hpq.
  set (ru := SF2R (SFadd 24 128 _ _)) in *.
  apply Rabs_le_inv in Hu.
  split; [done|]. rewrite Hslack.
  pose proof (Rle_abs (rm - ro)) as Hd1. pose proof (Rle_abs (- (rm - ro))) as Hd2.
  rewrite Rabs_Ropp in Hd2.
  apply Rabs_le. split; lra.
Qed.

(** From the coordinates to the distance. *)
Lemma distance_bound (p1 p2 a1 a2 b1 b2 : R) :
  0 <= b1 -> 0 <= b2 ->
  Rabs p1 <= 7 / 10 * Rabs a1 + b1 ->
  Rabs p2 <= 7 / 10 * Rabs a2 + b2 ->
  sqrt (p1 * p1 + p2 * p2) <= 7 / 10 * sqrt (a1 * a1 + a2 * a2) + b1 + b2.
Proof.
  intros Hb1 Hb2 H1 H2.
  set (S := sqrt (a1 * a1 + a2 * a2)).
  assert (HS0 : 0 <= S) by apply sqrt_pos.
  assert (HSS : S * S = a1 * a1 + a2 * a2).
  { apply sqrt_sqrt. nra. }
  pose proof (Rabs_pos a1) as Ha1. pose proof (Rabs_pos a2) as Ha2.
  pose proof (Rabs_pos p1) as Hp1. pose proof (Rabs_pos p2) as Hp2.
  assert (Hs1 : Rabs a1 * Rabs a1 = a1 * a1).
  { rewrite <- Rabs_mult. apply Rabs_pos_eq. nra. }
  assert (Hs2 : Rabs a2 * Rabs a2 = a2 * a2).
  { rewrite <- Rabs_mult. apply Rabs_pos_eq. nra. }
  assert (Hq1 : Rabs p1 * Rabs p1 = p1 * p1).
  { rewrite <- Rabs_mult. apply Rabs_pos_eq. nra. }
  assert (Hq2 : Rabs p2 * Rabs p2 = p2 * p2).
  { rewrite <- Rabs_mult. apply Rabs_pos_eq. nra. }
  assert (HSa1 : Rabs a1 <= S) by nra.
  assert (HSa2 : Rabs a2 <= S) by nra.
  set (B := 7 / 10 * S + b1 + b2).
  assert (HB0 : 0 <= B) by (unfold B; lra).
  rewrite <- (sqrt_square B) by done.
  apply sqrt_le_1_alt.
  rewrite <- Hq1, <- Hq2. unfold B. nra.
Qed.

Lemma rounding_slack_nonneg (m o : spec_float) : 0 <= rounding_slack m o.
Proof.
  unfold rounding_slack.
  pose proof (pow2R_pos (-21)). pose proof (pow2R_pos (-147)).
  pose proof (Rabs_pos (SF2R m)). pose proof (Rabs_pos (SF2R o)). nra.
Qed.

End DampedStep.

(** C9, as the code has it.  In binary32 the update step moves a
    centroid that has members to [0.7f * mean + 0.3f * old], each
    product and the sum rounded, where [mean] is the mean of the
    members as the code computes it.  When the coordinates of the old
    position and of this mean are finite and below [2 ^ 100] in
    magnitude, the new position is finite, and its distance from the old
    position is at most 0.7 times the distance of the mean from the old
    position plus the rounding slack of the two coordinates,
    [2 ^ -21 * (|mean| + |old|) + 2 ^ -147] each. *)
Theorem damped_displacement_rounded (count : nat) (points wallets : list Z)
    (assignments : list nat) (centroids : list (binary32 * binary32)) (k : nat) :
  length centroids = Segmentation.NUM_CLUSTERS ->
  (forall i, i < count -> nth i assignments 0 < Segmentation.NUM_CLUSTERS) ->
  k < Segmentation.NUM_CLUSTERS ->
  members k count assignments <> [] ->
  let old := Segmentation.centroid centroids k in
  let mean := mean_position (F:=binary32) k count points wallets assignments in
  let new := Segmentation.centroid
               (snd (Segmentation.update_centroids (F:=binary32) count points
                       wallets assignments centroids)) k in
  moderate (fst old) = true -> moderate (snd old) = true ->
  moderate (fst mean) = true -> moderate (snd mean) = true ->
  is_finite (fst new) = true /\ is_finite (snd new) = true
  /\ (distance_R new old
      <= 7 / 10 * distance_R mean old
         + rounding_slack (fst mean) (fst old)
         + rounding_slack (snd mean) (snd old))%R.
Proof.
  intros Hlen Hrange Hk Hne old mean new Hox Hoy Hmx Hmy.
  assert (Hnew : new = damped mean old).
  { unfold new.
    rewrite (proj2 (update_centroids_position count points wallets assignments
                      centroids k Hlen Hrange Hk)).
    destruct (members k count assignments); done. }
  destruct (damped_coordinate (fst mean) (fst old) Hmx Hox) as [Hfx Hx].
  destruct (damped_coordinate (snd mean) (snd old) Hmy Hoy) as [Hfy Hy].
  rewrite Hnew. unfold damped. cbn [fst snd].
  split; [done|]. split; [done|].
  unfold distance_R. cbn [fst snd].
  apply distance_bound;
    [apply rounding_slack_nonneg|apply rounding_slack_nonneg|done|done].
Qed.


(** The witness of [damped_displacement_rounded]: the observation
    (100, 70), assigned to Bronze, against the initial centroids. *)
Lemma damped_displacement_rounded_witness :
  let old := Segmentation.centroid (F:=binary32) Segmentation.initial_centroids 0 in
  let mean := mean_position (F:=binary32) 0 1 [100%Z] [70%Z] [0] in
  let new := Segmentation.centroid
               (snd (Segmentation.update_centroids (F:=binary32) 1 [100%Z] [70%Z] [0]
                       Segmentation.initial_centroids)) 0 in
  is_finite (fst new) = true /\ is_finite (snd new) = true
  /\ (distance_R new old
      <= 7 / 10 * distance_R mean old
         + rounding_slack (fst mean) (fst old)
         + rounding_slack (snd mean) (snd old))%R.
Proof.
  apply (damped_displacement_rounded 1 [100%Z] [70%Z] [0]
           Segmentation.initial_centroids 0).
  - reflexivity.
  - intros [|i] Hi; simpl; unfold Segmentation.NUM_CLUSTERS; lia.
  - unfold Segmentation.NUM_CLUSTERS. lia.
  - discriminate.
  - vm_compute. reflexivity.
  - vm_compute. reflexivity.
  - vm_compute. reflexivity.
  - vm_compute. reflexivity.
Defined.

(** C9, as stated, fails in the arithmetic of the code.  After seven
    calls with the single observation (52084724, 0) the Titanium centroid
    stands at (52084724, 0.0000478...).  The next call assigns the
    observation to it, so the mean is (52084724, 0), at a distance of
    0.0000478... from the centroid; the update step rounds the first
    coordinate to the next binary32 number, 52084728, and the centroid
    moves by 4.0, farther than its distance from the mean. *)
Lemma update_overshoots_mean :
  let points := [52084724%Z] in
  let wallets := [0%Z] in
  let table := after_calls (F:=binary32) 7 1 points wallets
                 Segmentation.initial_centroids in
  let labels := snd (Segmentation.assign_clusters 1 points wallets table [0]) in
  let old := Segmentation.centroid table 3 in
  let mean := mean_position (F:=binary32) 3 1 points wallets labels in
  let new := Segmentation.centroid
               (snd (Segmentation.update_centroids 1 points wallets labels table)) 3 in
  let moved := Segmentation.euclidean_distance (fst old) (snd old) (fst new) (snd new) in
  let reach := Segmentation.euclidean_distance (fst old) (snd old) (fst mean) (snd mean) in
  labels = [3]
  /\ old = (b32_of_int 52084724, S754_finite false 13147333 (-38))
  /\ mean = (b32_of_int 52084724, S754_zero false)
  /\ fst new = b32_of_int 52084728
  /\ moved = b32_of_int 4
  /\ reach = S754_finite false 13147333 (-38)
  /\ f_lt reach moved = true
  /\ f_lt moved reach = false.
Proof. vm_compute. repeat split. Qed.

(** ** Text in a region *)

Section Holds.

Lemma holds_app_l (buf p q : list ascii) : holds buf (p ++ q) -> holds buf p.
Proof.
  intros H k Hk. rewrite H by (rewrite length_app; lia).
  by rewrite lookup_app_l.
Qed.

Lemma holds_poke (buf p d : list ascii) :
  holds buf p -> length p + length d <= length buf ->
  holds (poke buf (length p) d) (p ++ d).
Proof.
  intros H Hlen k Hk. rewrite length_app in Hk.
  destruct (decide (k < length p)) as [Hlt|Hge].
  - rewrite poke_lookup_lt by done. rewrite lookup_app_l by done. by apply H.
  - rewrite lookup_app_r by lia.
    replace k with (length p + (k - length p)) at 1 by lia.
    apply poke_lookup_in; lia.
Qed.

Lemma holds_insert (buf p : list ascii) (c : ascii) :
  holds buf p -> length p < length buf ->
  holds (<[length p := c]> buf) (p ++ [c]).
Proof.
  intros H Hlen. apply (holds_poke buf p [c]); simpl; [done|lia].
Qed.

Lemma holds_cstring (buf p : list ascii) :
  holds buf (p ++ [NUL]) -> Forall (fun c => c <> NUL) p -> cstring buf = p.
Proof.
  intros H Hp. apply cstring_prefix; [done| |].
  - intros k Hk. rewrite H by (rewrite length_app; lia). by rewrite lookup_app_l.
  - rewrite H by (rewrite length_app; simpl; lia).
    rewrite lookup_app_r by lia. by rewrite Nat.sub_diag.
Qed.

Lemma chars_no_nul_digits (d : Decimal.uint) :
  Forall (fun c => c <> NUL) (chars (NilEmpty.string_of_uint d)).
Proof.
  induction d; simpl; constructor; first [discriminate | assumption].
Qed.

Lemma chars_no_nul_uint (d : Decimal.uint) :
  Forall (fun c => c <> NUL) (chars (NilZero.string_of_uint d)).
Proof.
  destruct d; try apply chars_no_nul_digits.
  simpl. constructor; [discriminate|constructor].
Qed.

Lemma fmt_d_no_nul (n : Z) : Forall (fun c => c <> NUL) (fmt_d n).
Proof.
  unfold fmt_d. destruct (Z.to_int n) as [d|d]; simpl.
  - apply chars_no_nul_uint.
  - constructor; [discriminate|apply chars_no_nul_uint].
Qed.

End Holds.

(** ** The output loop *)

Section EmitLoop.
Variables (headroom comma_room : Z) (record : nat -> list ascii).
Variables (count : nat) (buffer_size : Z) (start : list ascii).

Let written (i : nat) : list ascii := start ++ joined count record i.

Lemma written_S (i : nat) :
  written (S i) = written i ++ record i ++ separator count i.
Proof.
  unfold written, joined.
  rewrite seq_S, map_app, concat_app. simpl.
  by rewrite app_nil_r, <- !app_assoc.
Qed.

Lemma written_length_mono (i j : nat) :
  i <= j -> length (written i) <= length (written j).
Proof.
  induction 1 as [|j Hle IH]; [done|].
  rewrite written_S, length_app. lia.
Qed.

Hypothesis Hcomma : (0 <= comma_room <= headroom)%Z.
Hypothesis Hroom : (Z.of_nat (length (written count)) + headroom < buffer_size)%Z.

(** With [headroom] bytes to spare beyond the whole text, the loop writes
    every element. *)
Lemma emit_loop_full (m : nat) :
  forall (i : nat) (buf : list ascii),
    i + m = count ->
    length buf = Z.to_nat buffer_size ->
    holds buf (written i) ->
    let r := emit_loop headroom comma_room record m i (Z.of_nat count)
               buffer_size buf (Z.of_nat (length (written i))) in
    snd r = Z.of_nat (length (written count))
    /\ holds (fst r) (written count)
    /\ length (fst r) = length buf.
Proof.
  induction m as [|m IH]; intros i buf Him Hlen Hholds.
  - simpl. replace i with count in * by lia. done.
  - cbn [emit_loop].
    set (rec := record i).
    assert (HS : length (written (S i)) <= length (written count))
      by (apply written_length_mono; lia).
    pose proof (written_S i) as HwS. fold rec in HwS.
    rewrite HwS, !length_app in HS.
    assert (Hguard : (Z.of_nat (length (written i)) <? buffer_size - headroom)%Z = true)
      by (apply Z.ltb_lt; lia).
    rewrite Hguard.
    unfold snprintf.
    assert (Hn : (buffer_size - Z.of_nat (length (written i)) <=? 0)%Z = false)
      by (apply Z.leb_gt; lia).
    rewrite Hn.
    assert (Hw : (Z.of_nat (length rec) <? 0)%Z
                 || (buffer_size - Z.of_nat (length (written i))
                     <=? Z.of_nat (length rec))%Z = false).
    { apply orb_false_iff. split; [apply Z.ltb_ge; lia|apply Z.leb_gt; lia]. }
    rewrite Hw.
    rewrite take_ge by lia.
    rewrite Nat2Z.id.
    set (buf1 := poke buf (length (written i)) (rec ++ [NUL])).
    assert (Hlen1 : length buf1 = length buf) by apply poke_length.
    assert (Hh1 : holds buf1 (written i ++ rec)).
    { apply (holds_app_l _ _ [NUL]). rewrite <- app_assoc.
      apply holds_poke; [done|]. rewrite length_app.
      change (length [NUL]) with 1. lia. }
    assert (Hlast : (Z.of_nat i <? Z.of_nat count - 1)%Z = (S i <? count)).
    { destruct (S i <? count) eqn:E.
      - apply Nat.ltb_lt in E. apply Z.ltb_lt. lia.
      - apply Nat.ltb_ge in E. apply Z.ltb_ge. lia. }
    rewrite Hlast.
    assert (Hroom2 : (Z.of_nat (length (written i)) + Z.of_nat (length rec)
                      <? buffer_size - comma_room)%Z = true)
      by (apply Z.ltb_lt; lia).
    rewrite Hroom2.
    unfold separator in HwS, HS.
    destruct (S i <? count) eqn:Esep; cbn [andb].
    + replace (Z.of_nat (length (written i)) + Z.of_nat (length rec) + 1)%Z
        with (Z.of_nat (length (written (S i))))
        by (rewrite HwS, !length_app; simpl; lia).
      replace (Z.to_nat (Z.of_nat (length (written i)) + Z.of_nat (length rec)))
        with (length (written i ++ rec))
        by (rewrite length_app; lia).
      destruct (IH (S i) (<[length (written i ++ rec) := ","%char]> buf1))
        as (H1 & H2 & H3).
      * lia.
      * rewrite length_insert. lia.
      * rewrite HwS, app_assoc. apply holds_insert; [done|].
        rewrite length_app. simpl in HS. lia.
      * rewrite length_insert in H3. repeat split; [done..|lia].
    + replace (Z.of_nat (length (written i)) + Z.of_nat (length rec))%Z
        with (Z.of_nat (length (written (S i))))
        by (rewrite HwS, !length_app; simpl; lia).
      destruct (IH (S i) buf1) as (H1 & H2 & H3).
      * lia.
      * lia.
      * rewrite HwS, app_nil_r. done.
      * repeat split; [done..|lia].
Qed.

(** The loop started behind a header that [snprintf] has just written. *)
Lemma emit_loop_after_header (buf : list ascii) :
  length buf = Z.to_nat buffer_size ->
  let b0 := fst (snprintf buf 0 (buffer_size - 0) start) in
  let r := emit_loop headroom comma_room record count 0 (Z.of_nat count)
             buffer_size b0 (0 + Z.of_nat (length start)) in
  snd r = Z.of_nat (length (written count))
  /\ holds (fst r) (written count)
  /\ length (fst r) = length buf.
Proof.
  intros Hlen b0.
  pose proof (written_length_mono 0 count ltac:(lia)) as Hmono.
  assert (Hw0 : written 0 = start) by (unfold written, joined; apply app_nil_r).
  rewrite Hw0 in Hmono.
  assert (Hb0 : b0 = poke buf 0 (start ++ [NUL])).
  { unfold b0, snprintf.
    assert (Hn : (buffer_size - 0 <=? 0)%Z = false) by (apply Z.leb_gt; lia).
    rewrite Hn. cbn [fst]. by rewrite take_ge by lia. }
  assert (Hlen0 : length b0 = length buf) by (rewrite Hb0; apply poke_length).
  assert (Hh0 : holds b0 (written 0)).
  { rewrite Hw0, Hb0. apply (holds_app_l _ _ [NUL]).
    apply (holds_poke buf [] (start ++ [NUL])); [intros k Hk; simpl in Hk; lia|].
    rewrite length_app. change (length [NUL]) with 1. simpl. lia. }
  pose proof (emit_loop_full count 0 b0 ltac:(lia) ltac:(lia) Hh0) as Hemit.
  cbv zeta in Hemit |- *. rewrite Hw0, Hlen0 in Hemit.
  change (0 + Z.of_nat (length start))%Z with (Z.of_nat (length start)).
  exact Hemit.
Qed.

End EmitLoop.

(** ** The segmentation payload *)

Section Payload.
Context {F : Type} {ops : FloatOps F} {fmt : FloatFmt F}.
Variables (count : nat) (points wallets : list Z) (assignments : list nat).
Variable buffer_size : Z.

Hypothesis Hroom :
  (Z.of_nat (length (payload count points wallets assignments)) + 150
   <= buffer_size)%Z.

(** With 150 bytes to spare, the region ends up holding the full
    payload and its terminating NUL. *)
Lemma build_json_full (buf : list ascii) :
  length buf = Z.to_nat buffer_size ->
  holds (Segmentation.build_json (Z.of_nat count) points wallets assignments
           buffer_size buf)
    (payload count points wallets assignments ++ [NUL]).
Proof.
  intros Hlen.
  pose (w := chars "[" ++ joined count (record_of points wallets assignments) count).
  assert (Hpay : payload count points wallets assignments = w ++ chars "]")
    by (unfold payload, w; by rewrite <- app_assoc).
  assert (Hpl : length (payload count points wallets assignments) = length w + 1)
    by (rewrite Hpay, length_app; done).
  assert (Hr : (Z.of_nat (length w) + 150 < buffer_size)%Z) by lia.
  pose proof (emit_loop_after_header 150 2 (record_of points wallets assignments)
                count buffer_size (chars "[") ltac:(lia) Hr buf Hlen) as Hemit.
  cbv zeta in Hemit. fold w in Hemit.
  unfold Segmentation.build_json, Segmentation.emit_records.
  rewrite Nat2Z.id.
  change (fun i : nat =>
            let cluster := nth i assignments 0 in
            let churn := Segmentation.calculate_churn_risk (nth i wallets 0%Z) in
            Segmentation.record_text (nth i points 0%Z) (nth i wallets 0%Z) cluster churn)
    with (record_of points wallets assignments).
  destruct (snprintf buf 0 (buffer_size - 0) (chars "[")) as [b0 n0] eqn:Es.
  assert (Hn0 : n0 = Z.of_nat (length (chars "["))).
  { unfold snprintf in Es. destruct (_ <=? _)%Z; by injection Es as _ <-. }
  subst n0. cbn [fst] in Hemit.
  destruct (emit_loop _ _ _ _ _ _ _ _ _) as [buf1 off1].
  cbn [fst snd] in Hemit. destruct Hemit as (-> & Hh1 & Hlen1).
  fold w in Hh1 |- *.
  assert (Hend : (Z.of_nat (length w) <? buffer_size - 1)%Z = true)
    by (apply Z.ltb_lt; lia).
  rewrite Hend.
  replace (Z.to_nat (Z.of_nat (length w) + 1)) with (length (w ++ chars "]"))
    by (rewrite length_app; change (length (chars "]")) with 1; lia).
  rewrite Nat2Z.id, Hpay.
  apply holds_insert.
  - apply holds_insert; [done|lia].
  - rewrite length_insert, length_app. change (length (chars "]")) with 1. lia.
Qed.

End Payload.

(** ** The result of [perform_clustering] *)

Section Clustering.
Context {F : Type} {ops : FloatOps F} {fmt : FloatFmt F}.

Lemma assign_clusters_range (count : nat) (points wallets : list Z)
    (centroids : list (F * F)) (assignments : list nat) :
  length assignments = count ->
  let r := snd (Segmentation.assign_clusters count points wallets centroids
                  assignments) in
  length r = count /\ Forall (fun k => k < Segmentation.NUM_CLUSTERS) r.
Proof.
  intros Hlen r.
  destruct (assign_clusters_nth count points wallets centroids assignments Hlen)
    as [Hl Hnth].
  split; [done|]. apply Forall_lookup. intros i k Hik.
  assert (Hi : i < count) by (rewrite <- Hl; by eapply lookup_lt_Some).
  rewrite <- (nth_lookup_Some _ _ 0 _ Hik). fold r in Hnth. rewrite Hnth by done.
  apply nearest_centroid_lt.
Qed.

Lemma kmeans_assignments (rounds count : nat) (points wallets : list Z) :
  forall (centroids : list (F * F)) (assignments : list nat),
    length assignments = count ->
    Forall (fun k => k < Segmentation.NUM_CLUSTERS) assignments ->
    let r := snd (Segmentation.kmeans rounds count points wallets centroids
                    assignments) in
    length r = count /\ Forall (fun k => k < Segmentation.NUM_CLUSTERS) r.
Proof.
  induction rounds as [|rounds IH]; intros centroids assignments Hlen Hall; [done|].
  cbn [Segmentation.kmeans].
  pose proof (assign_clusters_range count points wallets centroids assignments Hlen)
    as Hassign.
  destruct (Segmentation.assign_clusters _ _ _ _ _) as [changed asg].
  cbn [snd] in Hassign. destruct Hassign as [Hl Hr].
  destruct (Segmentation.update_centroids _ _ _ _ _) as [movement cs].
  destruct (negb changed || f_lt_dlit movement 1 100); [done|].
  by apply IH.
Qed.

Lemma final_assignments_range (centroids : list (F * F)) (count : nat)
    (points wallets : list Z) :
  length (final_assignments centroids count points wallets) = count
  /\ Forall (fun k => k < Segmentation.NUM_CLUSTERS)
       (final_assignments centroids count points wallets).
Proof.
  apply kmeans_assignments; [apply repeat_length|].
  apply Forall_forall. intros k Hk. apply list_elem_of_In, repeat_spec in Hk.
  subst. unfold Segmentation.NUM_CLUSTERS. lia.
Qed.

Lemma cluster_name_in (k : nat) :
  k < Segmentation.NUM_CLUSTERS ->
  In (Segmentation.cluster_name k) Segmentation.cluster_names.
Proof.
  intros Hk. unfold Segmentation.cluster_name. apply nth_In. exact Hk.
Qed.

Lemma record_text_no_nul (x y : Z) (k : nat) (churn : F) :
  Forall (fun c => c <> NUL) (f_fmt 1 churn) ->
  Forall (fun c => c <> NUL) (Segmentation.record_text x y k churn).
Proof.
  intros Hf. unfold Segmentation.record_text.
  assert (Hname : Forall (fun c => c <> NUL) (quoted (Segmentation.cluster_name k))).
  { destruct k as [|[|[|[|k]]]]; try (repeat constructor; discriminate).
    unfold Segmentation.cluster_name. simpl.
    destruct k; repeat constructor; discriminate. }
  repeat (apply Forall_app; split);
    first [ assumption | apply fmt_d_no_nul | repeat constructor; discriminate ].
Qed.

Lemma payload_no_nul (count : nat) (points wallets : list Z)
    (assignments : list nat) :
  (forall w, Forall (fun c => c <> NUL)
               (f_fmt 1 (Segmentation.calculate_churn_risk w))) ->
  Forall (fun c => c <> NUL) (payload count points wallets assignments).
Proof.
  intros Hf. unfold payload, joined.
  apply Forall_app; split; [repeat constructor; discriminate|].
  apply Forall_app; split; [|repeat constructor; discriminate].
  apply Forall_concat, Forall_forall. intros r Hr.
  apply list_elem_of_In, in_map_iff in Hr as (k & <- & _).
  apply Forall_app; split.
  - by apply record_text_no_nul.
  - unfold separator. destruct (S k <? count); repeat constructor; discriminate.
Qed.

(** C1, as the code has it.  For a batch of [count >= 1] observations
    and an output region at least 150 bytes longer than the full
    payload, the text left in the region is the full payload: a JSON
    array of exactly [count] records, the record of observation [i] at
    position [i], each with the tier name that the frozen table gives
    for the index assigned to the observation, one of Bronze, Silver,
    Gold, Titanium. *)
Theorem full_payload_with_headroom (centroids : list (F * F)) (count : Z)
    (points wallets : list Z) (buf : list ascii) (buffer_size : Z) :
  let n := Z.to_nat count in
  let assignments := final_assignments centroids n points wallets in
  let text := payload n points wallets assignments in
  (1 <= count)%Z ->
  length points = n -> length wallets = n ->
  length buf = Z.to_nat buffer_size ->
  (forall w, Forall (fun c => c <> NUL)
               (f_fmt 1 (Segmentation.calculate_churn_risk w))) ->
  (Z.of_nat (length text) + 150 <= buffer_size)%Z ->
  output_text (snd (Segmentation.perform_clustering centroids true count
                      (Some points) (Some wallets) (Some buf) buffer_size))
  = text
  /\ length (map (record_of points wallets assignments) (seq 0 n)) = n
  /\ length assignments = n
  /\ Forall (fun k => In (Segmentation.cluster_name k) Segmentation.cluster_names)
       assignments.
Proof.
  intros n assignments text Hcount Hp Hw Hlen Hfmt Hroom.
  destruct (final_assignments_range centroids n points wallets) as [Hl Hr].
  repeat split.
  - unfold Segmentation.perform_clustering.
    destruct (count <=? 0)%Z eqn:Ec; [lia|].
    destruct (buffer_size <? 100)%Z eqn:Es; [lia|]. cbn [orb negb].
    fold n.
    pose proof (eq_refl : assignments
                = snd (Segmentation.kmeans Segmentation.MAX_ITERATIONS n points
                         wallets centroids (repeat 0 n))) as Hasg.
    destruct (Segmentation.kmeans _ _ _ _ _ _) as [cs asg].
    cbn [snd] in Hasg. subst asg. cbn [snd output_text].
    apply holds_cstring; [|by apply payload_no_nul].
    replace count with (Z.of_nat n) by lia.
    by apply build_json_full.
  - by rewrite length_map, length_seq.
  - done.
  - eapply Forall_impl; [exact Hr|]. intros k Hk. by apply cluster_name_in.
Qed.

End Clustering.

Lemma b32_churn_text_no_nul (w : Z) :
  Forall (fun c => c <> NUL)
    (f_fmt 1 (Segmentation.calculate_churn_risk (F:=binary32) w)).
Proof.
  unfold Segmentation.calculate_churn_risk.
  destruct (w <? 50)%Z; [|destruct (w <? 200)%Z; [|destruct (w <? 500)%Z]];
    vm_compute; repeat constructor; discriminate.
Qed.

(** The witness of [full_payload_with_headroom]: two observations and a
    region of 300 bytes, in binary32. *)
Lemma full_payload_with_headroom_witness :
  output_text (snd (Segmentation.perform_clustering (F:=binary32)
                      Segmentation.initial_centroids true 2
                      (Some [1; 300]%Z) (Some [10; 600]%Z)
                      (Some (repeat "#"%char 300)) 300))
  = payload 2 [1; 300]%Z [10; 600]%Z
      (final_assignments (F:=binary32) Segmentation.initial_centroids 2
         [1; 300]%Z [10; 600]%Z).
Proof.
  destruct (full_payload_with_headroom (F:=binary32) Segmentation.initial_centroids 2
              [1; 300]%Z [10; 600]%Z (repeat "#"%char 300) 300) as [H _].
  - lia.
  - reflexivity.
  - reflexivity.
  - reflexivity.
  - exact b32_churn_text_no_nul.
  - vm_compute. discriminate.
  - exact H.
Defined.

(** C1, as stated, fails: a region can be large enough for the full
    payload and still receive none of it.  One observation, (1, 1), and a
    region of 100 bytes: the payload has 47 characters, and the text
    written is the empty array, because the loop asks for 150 bytes of
    headroom before each record. *)
Lemma payload_fits_but_is_not_written :
  let text := payload 1 [1%Z] [1%Z]
                (final_assignments (F:=binary32) Segmentation.initial_centroids 1
                   [1%Z] [1%Z]) in
  let out := snd (Segmentation.perform_clustering (F:=binary32)
                    Segmentation.initial_centroids true 1 (Some [1%Z]) (Some [1%Z])
                    (Some (repeat "#"%char 100)) 100) in
  length text = 47
  /\ output_text out = chars "[]"
  /\ output_text out <> text.
Proof. vm_compute. repeat split; discriminate. Qed.

(** ** The 2-opt swap *)

Section Swap.

Lemma stop_at_lookup (route : list Z) (k : nat) :
  k < length route -> route !! k = Some (Routing.stop_at route k).
Proof.
  intros Hk. unfold Routing.stop_at. rewrite nth_lookup.
  destruct (lookup_lt_is_Some_2 route k Hk) as [x ->]. done.
Qed.

(** A loop that copies the entries [lo .. hi - 1]. *)
Lemma copy_loop (route new_route : list Z) (lo hi : nat) :
  lo <= hi -> hi <= length new_route ->
  let r := for_loop lo hi
             (fun k new_route => <[k := Routing.stop_at route k]> new_route)
             new_route in
  length r = length new_route
  /\ (forall p, lo <= p < hi -> r !! p = Some (Routing.stop_at route p))
  /\ (forall p, ~ lo <= p < hi -> r !! p = new_route !! p).
Proof.
  intros Hle Hhi.
  apply (for_loop_inv
           (fun n r =>
              length r = length new_route
              /\ (forall p, lo <= p < n -> r !! p = Some (Routing.stop_at route p))
              /\ (forall p, ~ lo <= p < n -> r !! p = new_route !! p))); [done| |].
  - repeat split; try done; intros; lia.
  - intros n r Hn (Hl & Hin & Hout). repeat split; [by rewrite length_insert| |].
    + intros p Hp. destruct (decide (p = n)) as [->|Hne].
      * by rewrite list_lookup_insert_eq by lia.
      * rewrite list_lookup_insert_ne by done. apply Hin. lia.
    + intros p Hp. rewrite list_lookup_insert_ne by lia. apply Hout. lia.
Qed.

(** The loop that stores the entries [ks] at [idx], [idx + 1], ... *)
Lemma store_loop (route : list Z) (ks : list nat) :
  forall (new_route : list Z) (idx : nat),
    idx + length ks <= length new_route ->
    let r := fold_left
               (fun '(new_route, idx) k =>
                  (<[idx := Routing.stop_at route k]> new_route, S idx))
               ks (new_route, idx) in
    length (fst r) = length new_route
    /\ (forall p, idx <= p < idx + length ks ->
          fst r !! p = Some (Routing.stop_at route (nth (p - idx) ks 0)))
    /\ (forall p, ~ idx <= p < idx + length ks -> fst r !! p = new_route !! p).
Proof.
  induction ks as [|k ks IH]; intros new_route idx Hlen; simpl in *.
  - repeat split; try done; intros; lia.
  - destruct (IH (<[idx := Routing.stop_at route k]> new_route) (S idx))
      as (Hl & Hin & Hout); [rewrite length_insert; lia|].
    repeat split; [by rewrite Hl, length_insert| |].
    + intros p Hp. destruct (decide (p = idx)) as [->|Hne].
      * rewrite Hout by lia. rewrite list_lookup_insert_eq by lia.
        by rewrite Nat.sub_diag.
      * rewrite Hin by lia.
        replace (p - idx) with (S (p - S idx)) by lia. done.
    + intros p Hp. rewrite Hout by lia.
      apply list_lookup_insert_ne. lia.
Qed.

(** [two_opt_swap] fills [new_route] with the route whose entries
    [i .. j] are reversed, whatever [new_route] held before. *)
Lemma two_opt_swap_reversed (route new_route : list Z) (i j count : nat) :
  i <= j -> j < count -> length route = count -> length new_route = count ->
  Routing.two_opt_swap route i j count new_route = reversed_segment route i j.
Proof.
  intros Hij Hj Hr Hn. unfold Routing.two_opt_swap.
  destruct (copy_loop route new_route 0 i ltac:(lia) ltac:(lia))
    as (Hl1 & Hin1 & Hout1).
  set (r1 := for_loop 0 i _ new_route) in *.
  pose proof (store_loop route (rev (seq i (S j - i))) r1 i) as Hstore.
  rewrite length_rev, length_seq in Hstore.
  destruct (fold_left _ (rev (seq i (S j - i))) (r1, i)) as [r2 idx].
  destruct Hstore as (Hl2 & Hin2 & Hout2); [lia|]. cbn [fst] in Hl2, Hin2, Hout2.
  destruct (copy_loop route r2 (j + 1) count ltac:(lia) ltac:(lia))
    as (Hl3 & Hin3 & Hout3).
  set (r3 := for_loop (j + 1) count _ r2) in *.
  apply list_eq. intros p. unfold reversed_segment.
  destruct (decide (p < count)) as [Hpc|Hpc].
  2: { rewrite !lookup_ge_None_2; [done| |lia].
       rewrite !length_app, length_reverse, !length_take, !length_drop. lia. }
  destruct (decide (p < i)) as [Hpi|Hpi].
  { rewrite Hout3, Hout2, Hin1 by lia.
    rewrite lookup_app_l by (rewrite length_take; lia).
    rewrite lookup_take_lt by done. symmetry. apply stop_at_lookup. lia. }
  rewrite lookup_app_r by (rewrite length_take; lia).
  rewrite length_take, Nat.min_l by lia.
  destruct (decide (p <= j)) as [Hpj|Hpj].
  - rewrite Hout3, Hin2 by lia.
    rewrite lookup_app_l
      by (rewrite length_reverse, length_take, length_drop; lia).
    rewrite reverse_lookup by (rewrite length_take, length_drop; lia).
    rewrite length_take, length_drop, Nat.min_l by lia.
    rewrite lookup_take_lt by lia. rewrite lookup_drop.
    rewrite rev_nth by (rewrite length_seq; lia).
    rewrite length_seq, seq_nth by lia.
    symmetry. apply stop_at_lookup. lia.
  - rewrite Hin3 by lia.
    rewrite lookup_app_r
      by (rewrite length_reverse, length_take, length_drop; lia).
    rewrite length_reverse, length_take, length_drop, Nat.min_l by lia.
    rewrite lookup_drop.
    replace (S j + (p - i - (S j - i))) with p by lia.
    symmetry. apply stop_at_lookup. lia.
Qed.

Lemma reversed_segment_perm (route : list Z) (i j : nat) :
  i <= j -> Permutation (reversed_segment route i j) route.
Proof.
  intros Hij. unfold reversed_segment.
  transitivity (take i route ++ drop i route); [|by rewrite take_drop].
  apply Permutation_app_head.
  transitivity (take (S j - i) (drop i route) ++ drop (S j - i) (drop i route));
    [|by rewrite take_drop].
  rewrite reverse_Permutation. apply Permutation_app_head.
  rewrite drop_drop. by replace (i + (S j - i)) with (S j) by lia.
Qed.

Lemma reversed_segment_length (route : list Z) (i j : nat) :
  i <= j -> length (reversed_segment route i j) = length route.
Proof. intros H. apply Permutation_length. by apply reversed_segment_perm. Qed.

Lemma is_tour_length (count : nat) (route : list Z) :
  is_tour count route -> length route = count.
Proof.
  intros H. apply Permutation_length in H.
  by rewrite H, length_map, length_seq.
Qed.

End Swap.

(** ** The nearest-neighbour tour *)

Section NearestNeighbour.
Context {F : Type} {ops : FloatOps F} {inf : FloatInf F}.

Lemma indices_NoDup (count : nat) : NoDup (map Z.of_nat (seq 0 count)).
Proof.
  apply NoDup_ListNoDup, Finite.Injective_map_NoDup; [|apply seq_NoDup].
  intros a b. apply Nat2Z.inj.
Qed.

Lemma elem_of_indices (count : nat) (z : Z) :
  z ∈ map Z.of_nat (seq 0 count) <-> exists v, z = Z.of_nat v /\ v < count.
Proof.
  rewrite list_elem_of_In, in_map_iff. split.
  - intros (v & <- & Hv). apply in_seq in Hv. exists v. split; [done|lia].
  - intros (v & -> & Hv). exists v. split; [done|]. apply in_seq. lia.
Qed.

(** A duplicate-free route of [count] valid indices is a tour. *)
Lemma NoDup_is_tour (count : nat) (route : list Z) :
  NoDup route -> length route = count ->
  (forall z, z ∈ route -> exists v, z = Z.of_nat v /\ v < count) ->
  is_tour count route.
Proof.
  intros Hnd Hlen Hin. unfold is_tour.
  apply submseteq_length_Permutation.
  - apply NoDup_submseteq; [done|]. intros z Hz. apply elem_of_indices. by apply Hin.
  - rewrite length_map, length_seq. lia.
Qed.

Lemma identity_route (count : nat) (route : list Z) :
  length route = count ->
  for_loop 0 count (fun i route => <[i := Z.of_nat i]> route) route
  = map Z.of_nat (seq 0 count).
Proof.
  intros Hlen.
  assert (H : let r := for_loop 0 count (fun i route => <[i := Z.of_nat i]> route) route in
              length r = count
              /\ forall p, p < count -> r !! p = Some (Z.of_nat p)).
  { apply (for_loop_inv
             (fun n r => length r = count
                         /\ forall p, p < n -> r !! p = Some (Z.of_nat p)));
      [lia|split; [done|intros; lia]|].
    intros n r Hn [Hl Hp]. split; [by rewrite length_insert|].
    intros p Hlt. destruct (decide (p = n)) as [->|Hne].
    - by rewrite list_lookup_insert_eq by lia.
    - rewrite list_lookup_insert_ne by done. apply Hp. lia. }
  destruct H as [Hl Hp]. apply list_eq. intros p.
  destruct (decide (p < count)) as [Hlt|Hge].
  - rewrite Hp by done. symmetry.
    change (map Z.of_nat (seq 0 count)) with (Z.of_nat <$> seq 0 count).
    rewrite list_lookup_fmap, lookup_seq_lt by done. done.
  - rewrite !lookup_ge_None_2; [done| |lia].
    rewrite length_map, length_seq. lia.
Qed.

Variable nodes : list (Routing.DeliveryNode (F:=F)).
Variable count : nat.
Hypothesis Hnodes : length nodes = count.
Hypothesis Hfinite : finite_distances nodes.

Lemma node_at_In (v : nat) : v < count -> In (Routing.node_at nodes (Z.of_nat v)) nodes.
Proof.
  intros Hv. unfold Routing.node_at. rewrite Nat2Z.id. apply nth_In. lia.
Qed.

(** The scan finds an unvisited node whenever there is one. *)
Lemma nearest_unvisited_found (visited : list bool) (current : nat) :
  1 <= count -> current < count ->
  let nearest := snd (Routing.nearest_unvisited nodes count visited
                        (Z.of_nat current)) in
  (nearest = (-1)%Z /\ forall j, 1 <= j < count -> nth j visited false = true)
  \/ (exists j, nearest = Z.of_nat j /\ 1 <= j < count /\ nth j visited false = false).
Proof.
  intros Hc Hcur. unfold Routing.nearest_unvisited.
  pose (P := fun (n : nat) (s : F * Z) =>
               (snd s = (-1)%Z /\ fst s = f_inf
                /\ forall j, 1 <= j < n -> nth j visited false = true)
               \/ (exists j, snd s = Z.of_nat j /\ 1 <= j < n
                             /\ nth j visited false = false)).
  match goal with
  | |- context [for_loop 1 count ?body ?s] =>
      assert (HP : P count (for_loop 1 count body s))
  end.
  { apply for_loop_inv; [done| |].
    - left. repeat split; try done. intros; lia.
    - intros n [m nr] Hn HPn. unfold P in *. cbn [fst snd] in *.
      destruct (nth n visited false) eqn:Ev; cbn [negb].
      + destruct HPn as [(-> & -> & Hall)|(j & -> & Hj & Hvj)].
        * left. repeat split; try done. intros j Hj.
          destruct (decide (j = n)) as [->|Hne]; [done|apply Hall; lia].
        * right. exists j. repeat split; try done; lia.
      + destruct HPn as [(-> & -> & Hall)|(j & -> & Hj & Hvj)].
        * right. exists n.
          rewrite Hfinite by (apply node_at_In; lia). cbn [fst snd].
          repeat split; try done; lia.
        * destruct (f_lt _ m); cbn [fst snd]; right.
          -- exists n. repeat split; try done; lia.
          -- exists j. repeat split; try done; lia. }
  destruct HP as [(H1 & _ & H2)|H]; [left|right]; done.
Qed.

(** The nearest-neighbour construction returns, and returns a tour. *)
Lemma nearest_neighbor_is_tour (route : list Z) (calloc_ok : bool) :
  1 <= count -> length route = count ->
  exists route0,
    Routing.initialize_route_nearest_neighbor nodes route count calloc_ok
    = Some route0
    /\ is_tour count route0.
Proof.
  intros Hc Hlen. unfold Routing.initialize_route_nearest_neighbor.
  destruct calloc_ok; cbn [negb].
  2: { eexists. split; [done|]. rewrite identity_route by done.
       unfold is_tour. done. }
  pose (Q := fun (i : nat) (st : option (list Z * list bool)) =>
               exists r vis,
                 st = Some (r, vis)
                 /\ length r = count /\ length vis = count
                 /\ NoDup (take i r)
                 /\ (forall z, z ∈ take i r -> exists v, z = Z.of_nat v /\ v < count)
                 /\ (forall v, v < count ->
                       nth v vis false = true <-> Z.of_nat v ∈ take i r)
                 /\ nth 0 vis false = true).
  match goal with
  | |- context [for_loop 1 count ?body ?s] =>
      assert (HQ : Q count (for_loop 1 count body s))
  end.
  { apply for_loop_inv; [done| |].
    - exists (<[0 := 0%Z]> route), (<[0 := true]> (repeat false count)).
      assert (Ht : take 1 (<[0 := 0%Z]> route) = [0%Z]).
      { destruct route; simpl in *; [lia|]. by rewrite take_0. }
      rewrite Ht.
      repeat split; try done.
      + by rewrite length_insert.
      + by rewrite length_insert, repeat_length.
      + apply NoDup_singleton.
      + intros z Hz. apply list_elem_of_singleton in Hz as ->. exists 0. split; [done|lia].
      + intros Hv. apply list_elem_of_singleton.
        destruct (decide (v = 0)) as [->|Hne]; [done|].
        rewrite nth_insert_ne, nth_repeat in Hv by lia. done.
      + intros Hv. apply list_elem_of_singleton in Hv.
        assert (v = 0) as -> by lia.
        apply nth_insert_eq. rewrite repeat_length. lia.
      + apply nth_insert_eq. rewrite repeat_length. lia.
    - intros i st Hi (r & vis & -> & Hlr & Hlv & Hnd & Hval & Hvis & H0).
      destruct (Hval (Routing.stop_at r (i - 1))) as (cur & Hcur & Hcurlt).
      { apply elem_of_take. exists (i - 1). split; [|lia].
        apply stop_at_lookup. lia. }
      rewrite Hcur.
      destruct (nearest_unvisited_found vis cur Hc Hcurlt)
        as [[Hnone Hall]|(j & Hj & Hjr & Hjv)].
      + exfalso.
        assert (Hsub : map Z.of_nat (seq 0 count) ⊆+ take i r).
        { apply NoDup_submseteq; [apply indices_NoDup|].
          intros z Hz. apply elem_of_indices in Hz as (v & -> & Hv).
          apply Hvis; [done|].
          destruct (decide (v = 0)) as [->|Hne]; [done|apply Hall; lia]. }
        apply submseteq_length in Hsub.
        rewrite length_map, length_seq, length_take in Hsub. lia.
      + rewrite Hj.
        assert (Hneg : (Z.of_nat j <? 0)%Z = false) by (apply Z.ltb_ge; lia).
        rewrite Hneg, Nat2Z.id.
        assert (Ht : take (S i) (<[i := Z.of_nat j]> r) = take i r ++ [Z.of_nat j]).
        { rewrite (take_S_r _ _ (Z.of_nat j))
            by (apply list_lookup_insert_eq; lia).
          by rewrite take_insert_ge by lia. }
        exists (<[i := Z.of_nat j]> r), (<[j := true]> vis). rewrite Ht.
        repeat split; try done.
        * by rewrite length_insert.
        * by rewrite length_insert.
        * apply NoDup_app. repeat split; [done| |apply NoDup_singleton].
          intros z Hz Hz2. apply list_elem_of_singleton in Hz2 as ->.
          apply Hvis in Hz; [|lia]. congruence.
        * intros z Hz. apply elem_of_app in Hz as [Hz|Hz]; [by apply Hval|].
          apply list_elem_of_singleton in Hz as ->. exists j. split; [done|lia].
        * intros Hv. apply elem_of_app.
          destruct (decide (v = j)) as [->|Hne];
            [right; by apply list_elem_of_singleton|].
          left. apply Hvis; [done|]. by rewrite nth_insert_ne in Hv by done.
        * intros Hv. apply elem_of_app in Hv as [Hv|Hv].
          -- destruct (decide (v = j)) as [->|Hne];
               [apply nth_insert_eq; lia|].
             rewrite nth_insert_ne by done. by apply Hvis.
          -- apply list_elem_of_singleton in Hv.
             assert (v = j) as -> by lia. apply nth_insert_eq. lia.
        * destruct (decide (j = 0)) as [->|Hne]; [lia|].
          by rewrite nth_insert_ne by done. }
  destruct HQ as (r & vis & -> & Hlr & Hlv & Hnd & Hval & _).
  exists r. split; [done|].
  rewrite take_ge in Hnd, Hval by lia.
  by apply NoDup_is_tour.
Qed.

End NearestNeighbour.

(** ** The 2-opt phase *)

Section TwoOpt.
Context {F : Type} {ops : FloatOps F}.
Variable nodes : list (Routing.DeliveryNode (F:=F)).
Variable n : nat.

(** What [try_swap] does, with the candidate in closed form. *)
Lemma try_swap_unfold (i j : nat) (s : Routing.search) :
  i <= j -> j < n ->
  length (Routing.route s) = n -> length (Routing.new_route s) = n ->
  Routing.try_swap nodes n i j s
  = (let candidate := reversed_segment (Routing.route s) i j in
     let new_distance := Routing.calculate_route_distance nodes candidate n in
     if f_lt new_distance (f_sub (Routing.best_distance s) (f_lit 1 1000))
     then {| Routing.route := candidate; Routing.new_route := candidate;
             Routing.best_distance := new_distance; Routing.improved := true |}
     else {| Routing.route := Routing.route s; Routing.new_route := candidate;
             Routing.best_distance := Routing.best_distance s;
             Routing.improved := Routing.improved s |}).
Proof.
  intros Hij Hj Hr Hn. unfold Routing.try_swap.
  by rewrite two_opt_swap_reversed.
Qed.

Lemma try_swap_consistent (i j : nat) (s : Routing.search) :
  i <= j -> j < n -> consistent nodes n s ->
  consistent nodes n (Routing.try_swap nodes n i j s).
Proof.
  intros Hij Hj (Hr & Hn & Hb). rewrite try_swap_unfold by done. cbv zeta.
  destruct (f_lt _ _); unfold consistent; cbn;
    rewrite ?reversed_segment_length by done; done.
Qed.

Lemma try_swap_tour (i j : nat) (s : Routing.search) :
  i <= j -> j < n ->
  is_tour n (Routing.route s) -> length (Routing.new_route s) = n ->
  is_tour n (Routing.route (Routing.try_swap nodes n i j s)).
Proof.
  intros Hij Hj Ht Hn. rewrite try_swap_unfold; [|done|done|by apply is_tour_length|done].
  cbv zeta. destruct (f_lt _ _); cbn; [|done].
  unfold is_tour in *. by rewrite reversed_segment_perm.
Qed.

(** One pass is a fold of [try_swap] over [swap_pairs]. *)
Lemma two_opt_pass_pairs (s : Routing.search) :
  Routing.two_opt_pass nodes n s
  = fold_left (fun s p => Routing.try_swap nodes n (fst p) (snd p) s)
      (swap_pairs n)
      {| Routing.route := Routing.route s; Routing.new_route := Routing.new_route s;
         Routing.best_distance := Routing.best_distance s;
         Routing.improved := false |}.
Proof.
  unfold Routing.two_opt_pass, swap_pairs, for_loop.
  generalize (seq 1 (n - 1 - 1)).
  generalize {| Routing.route := Routing.route s;
                Routing.new_route := Routing.new_route s;
                Routing.best_distance := Routing.best_distance s;
                Routing.improved := false |}.
  intros s0 l. revert s0. induction l as [|i l IH]; intros s0; [done|].
  cbn [fold_left flat_map]. rewrite fold_left_app, IH. f_equal.
  generalize (seq (i + 1) (n - (i + 1))). intros js. revert s0.
  induction js as [|j js IHj]; intros s0; [done|]. cbn. apply IHj.
Qed.

Lemma swap_pairs_valid (p : nat * nat) :
  In p (swap_pairs n) -> 1 <= fst p /\ fst p < snd p /\ snd p < n.
Proof.
  unfold swap_pairs. rewrite in_flat_map. intros (i & Hi & Hp).
  apply in_seq in Hi. apply in_map_iff in Hp as (j & <- & Hj).
  apply in_seq in Hj. cbn. lia.
Qed.

(** Invariants of a fold of [try_swap] over valid pairs. *)
Lemma swaps_preserve (P : Routing.search -> Prop) (pairs : list (nat * nat))
    (s : Routing.search) :
  (forall p, In p pairs -> fst p <= snd p /\ snd p < n) ->
  (forall i j t, i <= j -> j < n -> P t -> P (Routing.try_swap nodes n i j t)) ->
  P s ->
  P (fold_left (fun s p => Routing.try_swap nodes n (fst p) (snd p) s) pairs s).
Proof.
  revert s. induction pairs as [|p pairs IH]; intros s Hv Hstep Hs; [done|].
  cbn. apply IH; [intros q Hq; apply Hv; by right|done|].
  destruct (Hv p ltac:(by left)). by apply Hstep.
Qed.

Lemma two_opt_pass_preserves (P : Routing.search -> Prop) (s : Routing.search) :
  (forall i j t, i <= j -> j < n -> P t -> P (Routing.try_swap nodes n i j t)) ->
  P {| Routing.route := Routing.route s; Routing.new_route := Routing.new_route s;
       Routing.best_distance := Routing.best_distance s;
       Routing.improved := false |} ->
  P (Routing.two_opt_pass nodes n s).
Proof.
  intros Hstep Hs. rewrite two_opt_pass_pairs. apply swaps_preserve; [|done|done].
  intros p Hp. apply swap_pairs_valid in Hp. lia.
Qed.

Lemma two_opt_loop_preserves (P : Routing.search -> Prop) (passes : nat) :
  forall (iteration : Z) (s : Routing.search),
    (forall t, P t -> P (Routing.two_opt_pass nodes n t)) ->
    P s ->
    P (fst (Routing.two_opt_loop passes nodes n iteration s)).
Proof.
  induction passes as [|passes IH]; intros iteration s Hstep Hs; [done|].
  cbn [Routing.two_opt_loop]. destruct (Routing.improved s); [|done].
  apply IH; [done|]. by apply Hstep.
Qed.

(** The route stays a tour and the state consistent through the whole
    phase. *)
Lemma two_opt_tour (route new_route : list Z) :
  is_tour n route -> length new_route = n ->
  let s := fst (Routing.two_opt nodes n route new_route) in
  is_tour n (Routing.route s) /\ consistent nodes n s.
Proof.
  intros Ht Hn. unfold Routing.two_opt.
  apply (two_opt_loop_preserves
           (fun s => is_tour n (Routing.route s) /\ consistent nodes n s)).
  - intros t [Htt Hct].
    apply (two_opt_pass_preserves
             (fun s => is_tour n (Routing.route s) /\ consistent nodes n s)).
    + intros i j u Hij Hj [Hu Hcu]. split; [|by apply try_swap_consistent].
      apply try_swap_tour; try done. apply Hcu.
    + split; [done|]. destruct Hct as (H1 & H2 & H3). done.
  - split; [done|]. unfold consistent. cbn. split; [by apply is_tour_length|done].
Qed.


(** *** The recorded distance never grows *)

Section Monotone.
Hypothesis lt_trans :
  forall a b c : F, f_lt a b = true -> f_lt b c = true -> f_lt a c = true.
Hypothesis lt_margin :
  forall (route : list Z) (a : F),
    f_lt a (f_sub (Routing.calculate_route_distance nodes route n) (f_lit 1 1000))
    = true ->
    f_lt a (Routing.calculate_route_distance nodes route n) = true.

Lemma f_le_trans (a b c : F) : f_le a b -> f_le b c -> f_le a c.
Proof.
  intros [->|Hab] [->|Hbc]; [by left|by right|by right|].
  right. by apply (lt_trans a b c).
Qed.

Lemma try_swap_le (i j : nat) (s : Routing.search) :
  consistent nodes n s ->
  f_le (Routing.best_distance (Routing.try_swap nodes n i j s))
    (Routing.best_distance s).
Proof.
  intros (_ & _ & Hb). unfold Routing.try_swap.
  destruct (f_lt _ _) eqn:E; cbn; [|by left].
  right. rewrite Hb in *. by apply lt_margin.
Qed.

Lemma two_opt_le (route new_route : list Z) :
  length route = n -> length new_route = n ->
  f_le (Routing.best_distance (fst (Routing.two_opt nodes n route new_route)))
    (Routing.calculate_route_distance nodes route n).
Proof.
  intros Hr Hn. unfold Routing.two_opt.
  pose (P := fun s : Routing.search =>
               consistent nodes n s
               /\ f_le (Routing.best_distance s)
                    (Routing.calculate_route_distance nodes route n)).
  apply (two_opt_loop_preserves P); [|split; [done|by left]].
  intros t [Hc Ht].
  apply (two_opt_pass_preserves P).
  - intros i j u Hij Hj [Hcu Hu]. split; [by apply try_swap_consistent|].
    eapply f_le_trans; [by apply try_swap_le|done].
  - split; [|done]. destruct Hc as (H1 & H2 & H3). done.
Qed.
End Monotone.

(** *** A pass without an accepted swap can be replayed *)

Lemma try_swap_quiet (i j : nat) (s : Routing.search) :
  i <= j -> j < n ->
  length (Routing.route s) = n -> length (Routing.new_route s) = n ->
  Routing.improved (Routing.try_swap nodes n i j s) = false ->
  Routing.improved s = false
  /\ Routing.route (Routing.try_swap nodes n i j s) = Routing.route s
  /\ Routing.best_distance (Routing.try_swap nodes n i j s) = Routing.best_distance s
  /\ f_lt (Routing.calculate_route_distance nodes
             (reversed_segment (Routing.route s) i j) n)
        (f_sub (Routing.best_distance s) (f_lit 1 1000)) = false.
Proof.
  intros Hij Hj Hr Hn. rewrite try_swap_unfold by done. cbv zeta.
  destruct (f_lt _ _); cbn; [discriminate|done].
Qed.

Lemma swaps_replay (pairs : list (nat * nat)) :
  forall s : Routing.search,
    (forall p, In p pairs -> fst p <= snd p /\ snd p < n) ->
    length (Routing.route s) = n -> length (Routing.new_route s) = n ->
    let run := fold_left (fun s p => Routing.try_swap nodes n (fst p) (snd p) s) pairs in
    Routing.improved (run s) = false ->
    Routing.improved s = false
    /\ Routing.route (run s) = Routing.route s
    /\ Routing.best_distance (run s) = Routing.best_distance s
    /\ forall t : Routing.search,
         Routing.route t = Routing.route s ->
         Routing.best_distance t = Routing.best_distance s ->
         Routing.improved t = false ->
         length (Routing.new_route t) = n ->
         Routing.route (run t) = Routing.route s
         /\ Routing.best_distance (run t) = Routing.best_distance s
         /\ Routing.improved (run t) = false.
Proof.
  induction pairs as [|[i j] pairs IH]; intros s Hv Hr Hn run Hq.
  - cbn in *. by repeat split.
  - destruct (Hv (i, j) ltac:(by left)) as [Hij Hj]. cbn in Hij, Hj.
    unfold run in *. cbn [fold_left fst snd] in *.
    pose proof (try_swap_consistent i j) as Hcons.
    assert (Hr1 : length (Routing.route (Routing.try_swap nodes n i j s)) = n).
    { rewrite try_swap_unfold by done. cbv zeta.
      destruct (f_lt _ _); cbn; rewrite ?reversed_segment_length; done. }
    assert (Hn1 : length (Routing.new_route (Routing.try_swap nodes n i j s)) = n).
    { rewrite try_swap_unfold by done. cbv zeta.
      destruct (f_lt _ _); cbn; rewrite ?reversed_segment_length; done. }
    destruct (IH (Routing.try_swap nodes n i j s)
                ltac:(intros q Hq'; apply Hv; by right) Hr1 Hn1 Hq)
      as (Hi1 & Hroute & Hbest & Hreplay).
    destruct (try_swap_quiet i j s Hij Hj Hr Hn Hi1) as (Hi0 & Hr0 & Hb0 & Htest).
    split; [done|]. split; [congruence|]. split; [congruence|].
    intros t Htr Htb Hti Htn.
    assert (Ht1 : Routing.try_swap nodes n i j t
                  = {| Routing.route := Routing.route t;
                       Routing.new_route := reversed_segment (Routing.route t) i j;
                       Routing.best_distance := Routing.best_distance t;
                       Routing.improved := Routing.improved t |}).
    { rewrite try_swap_unfold by (done || congruence). cbv zeta.
      rewrite Htr, Htb, Htest. done. }
    destruct (Hreplay (Routing.try_swap nodes n i j t)) as (H1 & H2 & H3).
    + rewrite Ht1. cbn. congruence.
    + rewrite Ht1. cbn. congruence.
    + rewrite Ht1. cbn. done.
    + rewrite Ht1. cbn. rewrite reversed_segment_length by done. congruence.
    + repeat split; congruence.
Qed.

(** Running one more pass on a state whose last pass accepted nothing
    accepts nothing. *)
Lemma two_opt_pass_replay (s t : Routing.search) :
  length (Routing.route s) = n -> length (Routing.new_route s) = n ->
  Routing.improved (Routing.two_opt_pass nodes n s) = false ->
  Routing.route t = Routing.route (Routing.two_opt_pass nodes n s) ->
  Routing.best_distance t = Routing.best_distance (Routing.two_opt_pass nodes n s) ->
  length (Routing.new_route t) = n ->
  Routing.route (Routing.two_opt_pass nodes n t) = Routing.route t
  /\ Routing.best_distance (Routing.two_opt_pass nodes n t) = Routing.best_distance t
  /\ Routing.improved (Routing.two_opt_pass nodes n t) = false.
Proof.
  intros Hr Hn Hq Htr Htb Htn. rewrite two_opt_pass_pairs in *.
  destruct (swaps_replay (swap_pairs n)
              {| Routing.route := Routing.route s;
                 Routing.new_route := Routing.new_route s;
                 Routing.best_distance := Routing.best_distance s;
                 Routing.improved := false |})
    as (_ & Hroute & Hbest & Hreplay); try done.
  { intros p Hp. apply swap_pairs_valid in Hp. lia. }
  cbn in Hroute, Hbest, Hreplay.
  destruct (Hreplay {| Routing.route := Routing.route t;
                       Routing.new_route := Routing.new_route t;
                       Routing.best_distance := Routing.best_distance t;
                       Routing.improved := false |}) as (H1 & H2 & H3);
    cbn; try congruence.
  repeat split; congruence.
Qed.

(** A phase that reports fewer passes than the cap has ended on a pass
    that accepted nothing. *)
Lemma two_opt_loop_exit (passes : nat) :
  forall (iteration : Z) (s : Routing.search),
    let r := Routing.two_opt_loop passes nodes n iteration s in
    (snd r < iteration + Z.of_nat passes)%Z ->
    Routing.improved (fst r) = false.
Proof.
  induction passes as [|passes IH]; intros iteration s r Hit.
  - unfold r in Hit. cbn in Hit. lia.
  - unfold r in *. cbn [Routing.two_opt_loop] in *.
    destruct (Routing.improved s) eqn:E; [|done].
    apply IH. lia.
Qed.

(** Every state the loop returns with [improved = 0] is quiet: one more
    pass from its route and distance accepts nothing. *)
Lemma two_opt_loop_quiet (passes : nat) :
  forall (iteration : Z) (s : Routing.search),
    length (Routing.route s) = n -> length (Routing.new_route s) = n ->
    Routing.improved s = true ->
    let r := fst (Routing.two_opt_loop passes nodes n iteration s) in
    Routing.improved r = false ->
    forall t : Routing.search,
      Routing.route t = Routing.route r ->
      Routing.best_distance t = Routing.best_distance r ->
      length (Routing.new_route t) = n ->
      Routing.route (Routing.two_opt_pass nodes n t) = Routing.route t
      /\ Routing.best_distance (Routing.two_opt_pass nodes n t)
         = Routing.best_distance t
      /\ Routing.improved (Routing.two_opt_pass nodes n t) = false.
Proof.
  induction passes as [|passes IH]; intros iteration s Hr Hn Hi r Hq.
  - unfold r in Hq. cbn in Hq. congruence.
  - unfold r in *. cbn [Routing.two_opt_loop] in *. rewrite Hi in *.
    assert (Hc : length (Routing.route (Routing.two_opt_pass nodes n s)) = n
                 /\ length (Routing.new_route (Routing.two_opt_pass nodes n s)) = n).
    { apply (two_opt_pass_preserves
               (fun u => length (Routing.route u) = n
                         /\ length (Routing.new_route u) = n)); [|done].
      intros i j u Hij Hj [Hu1 Hu2]. rewrite try_swap_unfold by done. cbv zeta.
      destruct (f_lt _ _); cbn; rewrite ?reversed_segment_length; done. }
    destruct Hc as [Hr1 Hn1].
    destruct (Routing.improved (Routing.two_opt_pass nodes n s)) eqn:E.
    + by apply (IH (iteration + 1)%Z (Routing.two_opt_pass nodes n s)).
    + destruct passes as [|passes]; cbn [Routing.two_opt_loop fst] in *;
        rewrite ?E in *; cbn [fst] in *;
        intros t Htr Htb Htn; by apply (two_opt_pass_replay s t).
Qed.

(** When the phase has ended on a pass that accepted nothing, running
    the phase again on the returned tour takes one pass, accepts no
    swap, and returns the same tour with the same distance. *)
Lemma two_opt_fixed_point (route new_route new_route' : list Z) :
  length route = n -> length new_route = n -> length new_route' = n ->
  let first := Routing.two_opt nodes n route new_route in
  let again := Routing.two_opt nodes n (Routing.route (fst first)) new_route' in
  Routing.improved (fst first) = false ->
  Routing.route (fst again) = Routing.route (fst first)
  /\ Routing.best_distance (fst again) = Routing.best_distance (fst first)
  /\ Routing.improved (fst again) = false
  /\ snd again = 1%Z.
Proof.
  intros Hr Hn Hn' first again Hq.
  assert (Hcons : consistent nodes n (fst first)).
  { unfold first, Routing.two_opt.
    apply (two_opt_loop_preserves (consistent nodes n)).
    - intros t (H1 & H2 & H3).
      apply (two_opt_pass_preserves (consistent nodes n)); [|done].
      intros i j u Hij Hj Hu. by apply try_swap_consistent.
    - unfold consistent. cbn. done. }
  destruct Hcons as (Hr1 & Hn1 & Hb1).
  pose (t := {| Routing.route := Routing.route (fst first);
                Routing.new_route := new_route';
                Routing.best_distance :=
                  Routing.calculate_route_distance nodes (Routing.route (fst first)) n;
                Routing.improved := true |}).
  destruct (two_opt_loop_quiet Routing.MAX_ITERATIONS 0
              {| Routing.route := route; Routing.new_route := new_route;
                 Routing.best_distance :=
                   Routing.calculate_route_distance nodes route n;
                 Routing.improved := true |} Hr Hn eq_refl Hq t)
    as (H1 & H2 & H3); [done|by cbn|done|].
  unfold again, Routing.two_opt. fold t.
  change Routing.MAX_ITERATIONS with (S (S 198)).
  cbn [Routing.two_opt_loop]. change (Routing.improved t) with true. cbv iota.
  rewrite H3. cbn [fst snd]. rewrite H1, H2. cbn. done.
Qed.

End TwoOpt.

(** ** The generated nodes *)

Section Generation.
Context {F : Type} {ops : FloatOps F}.

Lemma generated_nodes (count : nat) (rand : nat -> Z) :
  1 <= count ->
  let nodes := Routing.generate_delivery_locations (F:=F) count rand in
  length nodes = count
  /\ forall i, i < count ->
       Routing.node_at nodes (Z.of_nat i)
       = if i =? 0
         then {| Routing.id := 0;
                 Routing.x := f_div Routing.GRID_SIZE (f_lit 2 1);
                 Routing.y := f_div Routing.GRID_SIZE (f_lit 2 1);
                 Routing.type := "HUB"%string |}
         else {| Routing.id := Z.of_nat i;
                 Routing.x := f_of_int (Z.rem (rand (2 * (i - 1))) 100);
                 Routing.y := f_of_int (Z.rem (rand (2 * (i - 1) + 1)) 100);
                 Routing.type := "DROP"%string |}.
Proof.
  intros Hc. unfold Routing.generate_delivery_locations.
  set (hub := {| Routing.id := 0%Z; Routing.x := f_div Routing.GRID_SIZE (f_lit 2 1);
                 Routing.y := f_div Routing.GRID_SIZE (f_lit 2 1);
                 Routing.type := "HUB"%string |}).
  set (dflt := {| Routing.id := 0%Z; Routing.x := f_of_int 0; Routing.y := f_of_int 0;
                  Routing.type := ""%string |}).
  set (drop := fun i : nat =>
                 {| Routing.id := Z.of_nat i;
                    Routing.x := f_of_int (Z.rem (rand (2 * (i - 1))) 100);
                    Routing.y := f_of_int (Z.rem (rand (2 * (i - 1) + 1)) 100);
                    Routing.type := "DROP"%string |}).
  cut (let nodes := for_loop 1 count (fun i nodes => <[i := drop i]> nodes)
                      (<[0 := hub]> (repeat dflt count)) in
       length nodes = count
       /\ forall i, i < count -> nth i nodes dflt = if i =? 0 then hub else drop i).
  { intros [Hl Hn]. split; [done|]. intros i Hi. unfold Routing.node_at.
    rewrite Nat2Z.id. fold dflt. by apply Hn. }
  apply (for_loop_inv
           (fun n nodes =>
              length nodes = count
              /\ forall i, i < n -> nth i nodes dflt = if i =? 0 then hub else drop i));
    [done| |].
  - split; [by rewrite length_insert, repeat_length|].
    intros i Hi. assert (i = 0) as -> by lia.
    apply nth_insert_eq. rewrite repeat_length. lia.
  - intros n nodes Hn [Hl Hi]. split; [by rewrite length_insert|].
    intros i Hlt. destruct (decide (i = n)) as [->|Hne].
    + rewrite nth_insert_eq by lia. destruct n; [lia|done].
    + rewrite nth_insert_ne by done. apply Hi. lia.
Qed.

Lemma generated_ids (count : nat) (rand : nat -> Z) (i : nat) :
  i < count ->
  Routing.id (Routing.node_at
                (Routing.generate_delivery_locations (F:=F) count rand)
                (Z.of_nat i))
  = Z.of_nat i.
Proof.
  intros Hi.
  destruct (generated_nodes count rand ltac:(lia)) as [_ Hn].
  rewrite Hn by done. by destruct i.
Qed.

End Generation.

(** ** Distances on the grid, in binary64 *)

Section Grid.

Lemma sf_same_eq (a b : spec_float) : sf_same a b = true -> a = b.
Proof.
  destruct a as [s1|s1| |s1 m1 e1], b as [s2|s2| |s2 m2 e2]; cbn; try done.
  - intros H. apply Bool.eqb_prop in H. by subst.
  - intros H. apply Bool.eqb_prop in H. by subst.
  - intros H. apply andb_true_iff in H as [H He].
    apply andb_true_iff in H as [Hs Hm].
    apply Bool.eqb_prop in Hs. apply Pos.eqb_eq in Hm. apply Z.eqb_eq in He.
    by subst.
Qed.

Lemma in_zrange (lo hi z : Z) : (lo <= z <= hi)%Z -> In z (zrange lo hi).
Proof.
  intros Hz. unfold zrange. apply in_map_iff.
  exists (Z.to_nat (z - lo)). split; [lia|]. apply in_seq. lia.
Qed.

Lemma forallb2_spec {A B : Type} (f : A -> B -> bool) (la : list A) (lb : list B) :
  forallb (fun a => forallb (f a) lb) la = true ->
  forall a b, In a la -> In b lb -> f a b = true.
Proof.
  intros H a b Ha Hb. rewrite forallb_forall in H. specialize (H a Ha).
  rewrite forallb_forall in H. by apply H.
Qed.

Lemma grid_differences_checked :
  forallb (fun a => forallb (difference_exact a) (zrange (-99) 99)) (zrange (-99) 99)
  = true.
Proof. vm_cast_no_check (eq_refl true). Qed.

Lemma grid_squares_checked : forallb square_exact (zrange (-198) 198) = true.
Proof. vm_cast_no_check (eq_refl true). Qed.

Lemma grid_roots_checked :
  forallb (fun p => forallb (root_finite p) (zrange 0 198)) (zrange 0 198) = true.
Proof. vm_cast_no_check (eq_refl true). Qed.

Lemma grid_roots_valid_checked :
  forallb (fun p => forallb (root_valid p) (zrange 0 198)) (zrange 0 198) = true.
Proof. vm_cast_no_check (eq_refl true). Qed.

Lemma grid_difference (p q : Z) :
  (-99 <= p <= 99)%Z -> (-99 <= q <= 99)%Z ->
  SFsub 53 1024 (b64_of_int p) (b64_of_int q) = b64_of_int (p - q).
Proof.
  intros Hp Hq. apply sf_same_eq.
  apply (forallb2_spec difference_exact (zrange (-99) 99) (zrange (-99) 99)
           grid_differences_checked); by apply in_zrange.
Qed.

Lemma grid_square (d : Z) :
  (-198 <= d <= 198)%Z ->
  SFmul 53 1024 (b64_of_int d) (b64_of_int d) = b64_of_int (Z.abs d * Z.abs d).
Proof.
  intros Hd. apply sf_same_eq.
  apply (proj1 (forallb_forall square_exact (zrange (-198) 198))
           grid_squares_checked).
  by apply in_zrange.
Qed.

Lemma grid_root (p q : Z) :
  (0 <= p <= 198)%Z -> (0 <= q <= 198)%Z ->
  SFltb (SFsqrt 53 1024 (SFadd 53 1024 (b64_of_int (p * p)) (b64_of_int (q * q))))
    (S754_infinity false) = true.
Proof.
  intros Hp Hq.
  apply (forallb2_spec root_finite (zrange 0 198) (zrange 0 198)
           grid_roots_checked); by apply in_zrange.
Qed.

Lemma grid_distance_finite (a b : Routing.DeliveryNode (F:=binary64)) :
  on_grid (Routing.x a) -> on_grid (Routing.y a) ->
  on_grid (Routing.x b) -> on_grid (Routing.y b) ->
  f_lt (Routing.calculate_distance a b) f_inf = true.
Proof.
  intros (xa & Hxa & Exa) (ya & Hya & Eya) (xb & Hxb & Exb) (yb & Hyb & Eyb).
  unfold Routing.calculate_distance. rewrite Exa, Eya, Exb, Eyb.
  change (@f_sub binary64 b64_ops) with (SFsub 53 1024).
  change (@f_mul binary64 b64_ops) with (SFmul 53 1024).
  change (@f_add binary64 b64_ops) with (SFadd 53 1024).
  change (@f_sqrt binary64 b64_ops) with (SFsqrt 53 1024).
  change (@f_lt binary64 b64_ops) with SFltb.
  change (@f_inf binary64 b64_inf) with (S754_infinity false).
  rewrite !grid_difference, !grid_square by lia.
  apply grid_root; lia.
Qed.

Lemma grid_distance_valid (a b : Routing.DeliveryNode (F:=binary64)) :
  on_grid (Routing.x a) -> on_grid (Routing.y a) ->
  on_grid (Routing.x b) -> on_grid (Routing.y b) ->
  nonneg_valid 53 1024 (Routing.calculate_distance a b) = true.
Proof.
  intros (xa & Hxa & Exa) (ya & Hya & Eya) (xb & Hxb & Exb) (yb & Hyb & Eyb).
  unfold Routing.calculate_distance. rewrite Exa, Eya, Exb, Eyb.
  change (@f_sub binary64 b64_ops) with (SFsub 53 1024).
  change (@f_mul binary64 b64_ops) with (SFmul 53 1024).
  change (@f_add binary64 b64_ops) with (SFadd 53 1024).
  change (@f_sqrt binary64 b64_ops) with (SFsqrt 53 1024).
  rewrite !grid_difference, !grid_square by lia.
  apply (forallb2_spec root_valid (zrange 0 198) (zrange 0 198)
           grid_roots_valid_checked); apply in_zrange; lia.
Qed.

Lemma rem_on_grid (r : Z) : on_grid (b64_of_int (Z.rem r 100)).
Proof.
  exists (Z.rem r 100). split; [|done].
  pose proof (Z.rem_bound_abs r 100 ltac:(lia)). lia.
Qed.

(** The nodes that [optimize_route] generates lie on the grid, whatever
    [rand()] returns. *)
Lemma generated_on_grid (count : nat) (rand : nat -> Z)
    (a : Routing.DeliveryNode (F:=binary64)) :
  1 <= count ->
  In a (Routing.generate_delivery_locations (F:=binary64) count rand) ->
  on_grid (Routing.x a) /\ on_grid (Routing.y a).
Proof.
  intros Hc Ha.
  destruct (generated_nodes (F:=binary64) count rand Hc) as [Hl Hn].
  apply (In_nth _ _ {| Routing.id := 0%Z; Routing.x := f_of_int 0;
                       Routing.y := f_of_int 0; Routing.type := ""%string |})
    in Ha as (i & Hi & <-).
  rewrite Hl in Hi. specialize (Hn i Hi). unfold Routing.node_at in Hn.
  rewrite Nat2Z.id in Hn. rewrite Hn.
  destruct (i =? 0); cbn [Routing.x Routing.y].
  - split; exists 50%Z; (split; [lia|vm_compute; reflexivity]).
  - split; apply rem_on_grid.
Qed.

(** So are they at finite distances from one another. *)
Lemma generated_distances_finite (count : nat) (rand : nat -> Z) :
  1 <= count ->
  finite_distances (Routing.generate_delivery_locations (F:=binary64) count rand).
Proof.
  intros Hc a b Ha Hb.
  destruct (generated_on_grid count rand a Hc Ha),
           (generated_on_grid count rand b Hc Hb).
  by apply grid_distance_finite.
Qed.

(** Whatever entry a route holds, the node read for it lies on the
    grid. *)
Lemma node_at_on_grid (count : nat) (rand : nat -> Z) (r : Z) :
  1 <= count ->
  let a := Routing.node_at
             (Routing.generate_delivery_locations (F:=binary64) count rand) r in
  on_grid (Routing.x a) /\ on_grid (Routing.y a).
Proof.
  intros Hc a. unfold a, Routing.node_at.
  destruct (Nat.lt_ge_cases (Z.to_nat r)
              (length (Routing.generate_delivery_locations (F:=binary64) count rand)))
    as [Hlt|Hge].
  - apply (generated_on_grid count rand _ Hc). by apply nth_In.
  - rewrite nth_overflow by done. cbn [Routing.x Routing.y].
    split; exists 0%Z; (split; [lia|reflexivity]).
Qed.

(** The distance of every route over the generated nodes is not below
    zero and is in canonical form. *)
Lemma route_distance_valid (count : nat) (rand : nat -> Z) (route : list Z) :
  1 <= count ->
  nonneg_valid 53 1024
    (Routing.calculate_route_distance
       (Routing.generate_delivery_locations (F:=binary64) count rand) route count)
  = true.
Proof.
  intros Hc. unfold Routing.calculate_route_distance.
  destruct (count <? 2); [by vm_compute|].
  assert (Hd : forall r1 r2,
             nonneg_valid 53 1024
               (Routing.calculate_distance
                  (Routing.node_at
                     (Routing.generate_delivery_locations (F:=binary64) count rand) r1)
                  (Routing.node_at
                     (Routing.generate_delivery_locations (F:=binary64) count rand) r2))
             = true).
  { intros r1 r2.
    destruct (node_at_on_grid count rand r1 Hc), (node_at_on_grid count rand r2 Hc).
    by apply grid_distance_valid. }
  change (@f_add binary64 b64_ops) with (SFadd 53 1024).
  apply SFadd_nonneg_valid; [lia| |apply Hd].
  apply (for_loop_preserves (fun t : binary64 => nonneg_valid 53 1024 t = true));
    [by vm_compute|].
  intros i t _ Ht. apply SFadd_nonneg_valid; [lia|done|apply Hd].
Qed.

(** Subtracting the margin 0.001 from such a distance does not raise
    it. *)
Lemma route_distance_margin (count : nat) (rand : nat -> Z) (route : list Z)
    (a : binary64) :
  1 <= count ->
  let d := Routing.calculate_route_distance
             (Routing.generate_delivery_locations (F:=binary64) count rand)
             route count in
  f_lt a (f_sub d (f_lit 1 1000)) = true -> f_lt a d = true.
Proof.
  intros Hc d.
  change (@f_lt binary64 b64_ops) with SFltb.
  change (@f_sub binary64 b64_ops) with (SFsub 53 1024).
  change (@f_lit binary64 b64_ops 1 1000) with (b64_lit 1 1000).
  remember (b64_lit 1 1000) as eps eqn:E. vm_compute in E. subst eps.
  apply (SFsub_margin 53 1024); [lia| |by vm_compute].
  by apply route_distance_valid.
Qed.

End Grid.

(** ** The route payload *)

Section RoutePayload.
Context {F : Type} {ops : FloatOps F} {fmt : FloatFmt F}.
Variables (nodes : list (Routing.DeliveryNode (F:=F))) (route : list Z).
Variables (best_distance : F) (iteration : Z) (buffer_size : Z).

Hypothesis Hroom :
  (Z.of_nat (length (route_payload nodes route best_distance iteration)) + 100
   <= buffer_size)%Z.

(** With 100 bytes to spare, the region ends up holding the full payload
    and its terminating NUL. *)
Lemma route_json_full (buf : list ascii) :
  length buf = Z.to_nat buffer_size ->
  holds (Routing.build_json (Z.of_nat (length route)) nodes route best_distance
           iteration buffer_size buf)
    (route_payload nodes route best_distance iteration ++ [NUL]).
Proof.
  intros Hlen.
  pose (record := fun i : nat =>
                    Routing.stop_text (Routing.node_at nodes (Routing.stop_at route i))).
  pose (w := Routing.header_text best_distance iteration
             ++ joined (length route) record (length route)).
  assert (Hpay : route_payload nodes route best_distance iteration = w ++ chars "]}")
    by (unfold route_payload, w; by rewrite <- app_assoc).
  assert (Hpl : length (route_payload nodes route best_distance iteration)
                = length w + 2)
    by (rewrite Hpay, length_app; done).
  assert (Hr : (Z.of_nat (length w) + 100 < buffer_size)%Z) by lia.
  pose proof (emit_loop_after_header 100 3 record (length route) buffer_size
                (Routing.header_text best_distance iteration) ltac:(lia) Hr buf Hlen)
    as Hemit.
  cbv zeta in Hemit. fold w in Hemit.
  unfold Routing.build_json, Routing.emit_stops.
  rewrite Nat2Z.id.
  change (fun i : nat =>
            let idx := Routing.stop_at route i in
            Routing.stop_text (Routing.node_at nodes idx))
    with record.
  destruct (snprintf buf 0 (buffer_size - 0)
              (Routing.header_text best_distance iteration)) as [b0 n0] eqn:Es.
  assert (Hn0 : n0 = Z.of_nat (length (Routing.header_text best_distance iteration))).
  { unfold snprintf in Es. destruct (_ <=? _)%Z; by injection Es as _ <-. }
  subst n0. cbn [fst] in Hemit.
  destruct (emit_loop _ _ _ _ _ _ _ _ _) as [buf1 off1].
  cbn [fst snd] in Hemit. destruct Hemit as (-> & Hh1 & Hlen1).
  fold w in Hh1 |- *.
  assert (Hend : (Z.of_nat (length w) <? buffer_size - 2)%Z = true)
    by (apply Z.ltb_lt; lia).
  rewrite Hend. unfold snprintf.
  assert (Hn : (buffer_size - Z.of_nat (length w) <=? 0)%Z = false)
    by (apply Z.leb_gt; lia).
  rewrite Hn. cbn [fst].
  rewrite take_ge by (change (length (chars "]}")) with 2; lia).
  rewrite Nat2Z.id, Hpay, <- app_assoc.
  apply holds_poke; [done|].
  rewrite length_app. change (length (chars "]}")) with 2.
  change (length [NUL]) with 1. lia.
Qed.

End RoutePayload.

(** ** Printed numbers hold no NUL *)

Section Printed.

Lemma fmt_digits_no_nul (p : nat) :
  forall n : Z, Forall (fun c => c <> NUL) (fmt_digits p n).
Proof.
  induction p as [|p IH]; intros n; cbn [fmt_digits]; [constructor|].
  apply Forall_app. split; [apply IH|apply fmt_d_no_nul].
Qed.

Lemma fmt_fixed_no_nul (p : nat) (v : spec_float) :
  Forall (fun c => c <> NUL) (fmt_fixed p v).
Proof.
  assert (Hsign : forall s : bool,
            Forall (fun c => c <> NUL) (if s then chars "-" else [])).
  { intros []; repeat constructor; discriminate. }
  assert (Hbody : forall q : Z,
            Forall (fun c => c <> NUL)
              (fmt_d (q / 10 ^ Z.of_nat p)
               ++ (if p is 0 then []
                   else chars "." ++ fmt_digits p (q mod 10 ^ Z.of_nat p)))).
  { intros q. apply Forall_app. split; [apply fmt_d_no_nul|].
    destruct p; [constructor|].
    apply Forall_app. split; [repeat constructor; discriminate|].
    apply fmt_digits_no_nul. }
  unfold fmt_fixed. destruct v as [s|s| |s m e].
  - apply Forall_app. split; [apply Hsign|apply Hbody].
  - apply Forall_app. split; [apply Hsign|repeat constructor; discriminate].
  - repeat constructor; discriminate.
  - apply Forall_app. split; [apply Hsign|apply Hbody].
Qed.

Lemma quoted_no_nul (s : string) :
  Forall (fun c => c <> NUL) (chars s) -> Forall (fun c => c <> NUL) (quoted s).
Proof.
  intros H. unfold quoted. constructor; [discriminate|].
  apply Forall_app. split; [done|repeat constructor; discriminate].
Qed.

Lemma header_text_no_nul (best_distance : binary64) (iteration : Z) :
  Forall (fun c => c <> NUL) (Routing.header_text best_distance iteration).
Proof.
  unfold Routing.header_text.
  repeat (apply Forall_app; split);
    first [ apply fmt_d_no_nul | apply (fmt_fixed_no_nul 2)
          | repeat constructor; discriminate ].
Qed.

Lemma stop_text_no_nul (n : Routing.DeliveryNode (F:=binary64)) :
  Forall (fun c => c <> NUL) (chars (Routing.type n)) ->
  Forall (fun c => c <> NUL) (Routing.stop_text n).
Proof.
  intros Ht. unfold Routing.stop_text.
  repeat (apply Forall_app; split);
    first [ apply fmt_d_no_nul | apply (fmt_fixed_no_nul 1)
          | by apply quoted_no_nul | repeat constructor; discriminate ].
Qed.

Lemma route_payload_no_nul (count : nat) (rand : nat -> Z) (route : list Z)
    (best_distance : binary64) (iteration : Z) :
  1 <= count ->
  (forall z, z ∈ route -> exists v, z = Z.of_nat v /\ v < count) ->
  Forall (fun c => c <> NUL)
    (route_payload (Routing.generate_delivery_locations count rand) route
       best_distance iteration).
Proof.
  intros Hc Hroute. unfold route_payload, joined.
  apply Forall_app; split; [apply header_text_no_nul|].
  apply Forall_app; split; [|repeat constructor; discriminate].
  apply Forall_concat, Forall_forall. intros r Hr.
  apply list_elem_of_In, in_map_iff in Hr as (k & <- & Hk). apply in_seq in Hk.
  apply Forall_app; split.
  - apply stop_text_no_nul.
    destruct (Hroute (Routing.stop_at route k)) as (v & -> & Hv).
    { apply list_elem_of_lookup. exists k. apply stop_at_lookup. lia. }
    destruct (generated_nodes (F:=binary64) count rand Hc) as [_ Hn].
    rewrite Hn by done.
    destruct (v =? 0); repeat constructor; discriminate.
  - unfold separator. destruct (S k <? length route); repeat constructor; discriminate.
Qed.

End Printed.

(** ** The tour of [optimize_route] *)

Section Tour.

Lemma clamp_stops_range (num_stops : Z) :
  (2 <= Routing.clamp_stops num_stops <= 100)%Z.
Proof.
  unfold Routing.clamp_stops, Routing.MIN_STOPS, Routing.MAX_STOPS.
  destruct (num_stops <? 2)%Z eqn:E1.
  - cbn. lia.
  - destruct (100 <? num_stops)%Z eqn:E2; lia.
Qed.

Lemma tour_ids_perm {F : Type} {ops : FloatOps F} (count : nat) (rand : nat -> Z)
    (route : list Z) :
  is_tour count route ->
  Permutation
    (map (fun r => Routing.id
                     (Routing.node_at
                        (Routing.generate_delivery_locations (F:=F) count rand) r))
       route)
    (map Z.of_nat (seq 0 count)).
Proof.
  intros Ht. unfold is_tour in Ht.
  rewrite (Permutation_map _ Ht). rewrite map_map.
  erewrite map_ext_in; [reflexivity|].
  intros i Hi. apply in_seq in Hi. apply generated_ids. lia.
Qed.

Lemma tour_hub_once (count : nat) (route : list Z) :
  1 <= count -> is_tour count route -> count_occ Z.eq_dec route 0%Z = 1.
Proof.
  intros Hc Ht.
  rewrite (proj1 (Permutation_count_occ Z.eq_dec _ _) Ht 0%Z).
  apply NoDup_count_occ'.
  - apply Finite.Injective_map_NoDup; [|apply seq_NoDup].
    intros a b. apply Nat2Z.inj.
  - apply in_map_iff. exists 0. split; [done|]. apply in_seq. lia.
Qed.

(** C5.  For every requested stop count, every outcome of the
    allocation in the nearest-neighbour step and every sequence of
    values of [rand()], the computation of [optimize_route] is defined,
    and its tour array is a permutation of the node indices
    [0 .. count - 1] after the nearest-neighbour initialisation, after
    every step of the 2-opt double loop (so after every accepted
    reversal), and when it is handed to the output loop; the node ids in
    tour order are then a permutation of all ids, and the hub, node 0,
    occurs exactly once.  The text written lists these stops in full
    whenever the output region is at least 100 bytes longer than the
    payload. *)
Theorem tour_is_permutation (calloc_ok : bool) (rand : nat -> Z) (num_stops : Z) :
  let count := Z.to_nat (Routing.clamp_stops num_stops) in
  exists nodes route0 s iteration,
    Routing.plan_route (F:=binary64) count calloc_ok rand
    = Some (nodes, route0, (s, iteration))
    /\ is_tour count route0
    /\ (forall (t : Routing.search) (i j : nat),
          is_tour count (Routing.route t) -> length (Routing.new_route t) = count ->
          1 <= i -> i < j -> j < count ->
          is_tour count (two_opt_swap_candidate t i j count)
          /\ is_tour count (Routing.route (Routing.try_swap nodes count i j t)))
    /\ is_tour count (Routing.route s)
    /\ Permutation (map (fun r => Routing.id (Routing.node_at nodes r)) (Routing.route s))
         (map Z.of_nat (seq 0 count))
    /\ count_occ Z.eq_dec (Routing.route s) 0%Z = 1
    /\ (forall (buf : list ascii) (buffer_size : Z),
          length buf = Z.to_nat buffer_size ->
          (Z.of_nat (length (route_payload nodes (Routing.route s)
                               (Routing.best_distance s) iteration)) + 100
           <= buffer_size)%Z ->
          exists buf',
            Routing.optimize_route true true true calloc_ok rand num_stops
              (Some buf) buffer_size = Some (Some buf')
            /\ cstring buf'
               = route_payload nodes (Routing.route s) (Routing.best_distance s)
                   iteration).
Proof.
  intros count.
  pose proof (clamp_stops_range num_stops) as Hrange.
  assert (Hc : 2 <= count) by (unfold count; lia).
  pose (nodes := Routing.generate_delivery_locations (F:=binary64) count rand).
  destruct (generated_nodes (F:=binary64) count rand ltac:(lia)) as [Hl _].
  fold nodes in Hl.
  destruct (nearest_neighbor_is_tour nodes count Hl
              (generated_distances_finite count rand ltac:(lia))
              (repeat 0%Z count) calloc_ok ltac:(lia) (repeat_length _ _))
    as (route0 & Hnn & Ht0).
  destruct (two_opt_tour nodes count route0 (repeat 0%Z count) Ht0
              (repeat_length _ _)) as [Hts Hcs].
  destruct (Routing.two_opt nodes count route0 (repeat 0%Z count))
    as [s iteration] eqn:Etwo.
  cbn [fst] in Hts, Hcs.
  assert (Hplan : Routing.plan_route (F:=binary64) count calloc_ok rand
                  = Some (nodes, route0, (s, iteration))).
  { unfold Routing.plan_route. fold nodes. by rewrite Hnn, Etwo. }
  exists nodes, route0, s, iteration.
  split; [done|]. split; [done|].
  split; [|split; [done|split; [|split]]].
  - intros t i j Ht Hn Hi Hij Hj. split.
    + unfold two_opt_swap_candidate.
      rewrite two_opt_swap_reversed; [|lia|done|by apply is_tour_length|done].
      unfold is_tour in *. rewrite reversed_segment_perm by lia. done.
    + apply try_swap_tour; [lia|done|done|done].
  - by apply tour_ids_perm.
  - apply (tour_hub_once count); [lia|done].
  - intros buf buffer_size Hlen Hroom.
    unfold Routing.optimize_route.
    destruct (buffer_size <? 100)%Z eqn:Es; [lia|]. cbn [negb orb].
    fold count. rewrite Hplan. eexists. split; [done|].
    assert (Hlr : length (Routing.route s) = count) by (by apply is_tour_length).
    replace (Routing.clamp_stops num_stops)
      with (Z.of_nat (length (Routing.route s))) by (unfold count in Hlr; lia).
    apply holds_cstring; [by apply route_json_full|].
    apply route_payload_no_nul; [lia|].
    intros z Hz. apply elem_of_indices.
    unfold is_tour in Hts. by rewrite <- Hts.
Qed.

End Tour.

(** ** The length of the initial route *)

Section InitialRoute.
Context {F : Type} {ops : FloatOps F} {inf : FloatInf F}.

Lemma initialize_route_length (nodes : list Routing.DeliveryNode)
    (route : list Z) (count : nat) (calloc_ok : bool) (route0 : list Z) :
  length route = count ->
  Routing.initialize_route_nearest_neighbor nodes route count calloc_ok
  = Some route0 ->
  length route0 = count.
Proof.
  intros Hlen. unfold Routing.initialize_route_nearest_neighbor.
  destruct calloc_ok; cbn [negb].
  - pose (P := fun st : option (list Z * list bool) =>
                 forall r v, st = Some (r, v) -> length r = count).
    match goal with
    | |- option_map fst ?st = _ -> _ => assert (HP : P st)
    end.
    { apply for_loop_preserves.
      - intros r v [= <- <-]. by rewrite length_insert.
      - intros i [[r v]|] Hi Hst r' v'; [|discriminate].
        destruct (_ <? 0)%Z; [discriminate|].
        intros [= <- <-]. rewrite length_insert. by apply (Hst r v). }
    destruct (for_loop _ _ _ _) as [[r v]|]; [|discriminate].
    intros [= <-]. by apply (HP r v).
  - intros [= <-].
    apply (for_loop_preserves (fun r : list Z => length r = count)); [done|].
    intros i r _ Hr. by rewrite length_insert.
Qed.

End InitialRoute.

(** ** The reported distance *)

Section Reported.

(** C6.  The distance recorded at the end of the 2-opt phase, which
    [optimize_route] reports as [total_distance], is at most the total
    closed-tour distance of the tour the phase started from.  First,
    for every node set and every starting tour, in every arithmetic
    where [<] is transitive and subtracting the margin 0.001 from a
    route distance does not raise it (exact arithmetic is one).
    Second, in binary64, for every node set that [optimize_route]
    generates, whatever the requested stop count, the outcome of the
    allocation in the nearest-neighbour step and the values of
    [rand()]: there the phase starts from the tour that
    [initialize_route_nearest_neighbor] leaves, the nearest-neighbour
    tour when its allocation succeeds and the tour 0, 1, 2, ... when it
    fails. *)
Theorem two_opt_never_longer :
  (forall (F : Type) (ops : FloatOps F) (nodes : list Routing.DeliveryNode)
          (num_stops : nat),
      (forall a b c : F, f_lt a b = true -> f_lt b c = true -> f_lt a c = true) ->
      (forall (route : list Z) (a : F),
          f_lt a (f_sub (Routing.calculate_route_distance nodes route num_stops)
                    (f_lit 1 1000)) = true ->
          f_lt a (Routing.calculate_route_distance nodes route num_stops) = true) ->
      forall route new_route : list Z,
        length route = num_stops -> length new_route = num_stops ->
        f_le (Routing.best_distance
                (fst (Routing.two_opt nodes num_stops route new_route)))
          (Routing.calculate_route_distance nodes route num_stops))
  /\ (forall (calloc_ok : bool) (rand : nat -> Z) (num_stops : Z),
        let count := Z.to_nat (Routing.clamp_stops num_stops) in
        exists nodes route0 s iteration,
          Routing.plan_route (F:=binary64) count calloc_ok rand
          = Some (nodes, route0, (s, iteration))
          /\ Routing.initialize_route_nearest_neighbor nodes (repeat 0%Z count)
               count calloc_ok = Some route0
          /\ f_le (Routing.best_distance s)
               (Routing.calculate_route_distance nodes route0 count)).
Proof.
  split.
  - intros F ops nodes num_stops lt_trans lt_margin route new_route Hr Hn.
    by apply two_opt_le.
  - intros calloc_ok rand num_stops count.
    pose proof (clamp_stops_range num_stops) as Hrange.
    assert (Hc : 1 <= count) by (unfold count; lia).
    pose (nodes := Routing.generate_delivery_locations (F:=binary64) count rand).
    destruct (generated_nodes (F:=binary64) count rand Hc) as [Hl _].
    fold nodes in Hl.
    destruct (nearest_neighbor_is_tour nodes count Hl
                (generated_distances_finite count rand Hc)
                (repeat 0%Z count) calloc_ok Hc (repeat_length _ _))
      as (route0 & Hnn & _).
    pose proof (initialize_route_length _ _ _ _ _ (repeat_length _ _) Hnn) as Hr0.
    pose proof (two_opt_le nodes count SFltb_trans
                  (fun route a => route_distance_margin count rand route a Hc)
                  route0 (repeat 0%Z count) Hr0 (repeat_length _ _)) as Hle.
    destruct (Routing.two_opt nodes count route0 (repeat 0%Z count))
      as [s iteration] eqn:Etwo.
    exists nodes, route0, s, iteration.
    split; [|split; [exact Hnn|exact Hle]].
    unfold Routing.plan_route. fold nodes. by rewrite Hnn, Etwo.
Qed.

End Reported.

Section ExactOrder.

Lemma Rltb_true (a b : R) : Rltb a b = true <-> (a < b)%R.
Proof. unfold Rltb. destruct (Rlt_dec a b); split; try done; lra. Qed.

Lemma xr_lt_trans (a b c : xreal) :
  f_lt a b = true -> f_lt b c = true -> f_lt a c = true.
Proof.
  destruct a as [a|], b as [b|], c as [c|]; cbn; try done.
  rewrite !Rltb_true. lra.
Qed.

Lemma xr_lt_margin (a b : xreal) :
  f_lt a (f_sub b (f_lit 1 1000)) = true -> f_lt a b = true.
Proof.
  destruct a as [a|], b as [b|]; cbn; try done.
  rewrite !Rltb_true. lra.
Qed.

End ExactOrder.

(** The witness of [two_opt_never_longer]: a hub and three drops, in exact
    arithmetic, started on the tour 0, 2, 1, 3. *)
Lemma two_opt_never_longer_witness :
  let node := fun (i x y : Z) =>
    {| Routing.id := i; Routing.x := XFin (IZR x); Routing.y := XFin (IZR y);
       Routing.type := "DROP"%string |} in
  let nodes := [node 0 50 50; node 1 10 10; node 2 90 10; node 3 10 90]%Z in
  f_le (Routing.best_distance
          (fst (Routing.two_opt nodes 4 [0; 2; 1; 3]%Z [0; 0; 0; 0]%Z)))
    (Routing.calculate_route_distance nodes [0; 2; 1; 3]%Z 4).
Proof.
  intros node nodes.
  apply (proj1 two_opt_never_longer xreal _ nodes 4 xr_lt_trans
           (fun route a => xr_lt_margin a _)); reflexivity.
Defined.

(** ** Degenerate calls and allocation failure *)

Section Failure.
Context {F : Type} {ops : FloatOps F} {fmt : FloatFmt F}.
Context {D : Type} {dops : FloatOps D} {dinf : FloatInf D} {dfmt : FloatFmt D}.

Lemma write_empty_text (buf : list ascii) (buffer_size : Z) :
  length buf = Z.to_nat buffer_size -> (3 < buffer_size)%Z ->
  cstring (Segmentation.write_empty buf buffer_size) = chars "[]".
Proof.
  intros Hlen Hsz. unfold Segmentation.write_empty, strncpy.
  set (n := Z.to_nat (buffer_size - 1)).
  set (data := take n (chars "[]" ++ repeat NUL n)).
  assert (Hn : 3 <= n) by (unfold n; lia).
  assert (Hd : length data = n).
  { unfold data. rewrite length_take, length_app, repeat_length. simpl. lia. }
  assert (Hk : forall k, k < 3 -> data !! k = (chars "[]" ++ [NUL]) !! k).
  { intros k Hk. unfold data. rewrite lookup_take_lt by lia.
    destruct n as [|[|[|n']]]; try lia.
    destruct k as [|[|[|k]]]; try lia; reflexivity. }
  assert (Hp : forall k, k < 3 ->
             <[n := NUL]> (poke buf 0 data) !! k = (chars "[]" ++ [NUL]) !! k).
  { intros k Hlt. rewrite list_lookup_insert_ne by lia.
    rewrite <- (Nat.add_0_l k) at 1.
    rewrite poke_lookup_in by lia. by apply Hk. }
  apply cstring_prefix.
  - repeat constructor; discriminate.
  - intros k Hlt. change (length (chars "[]")) with 2 in Hlt.
    rewrite Hp by lia. by destruct k as [|[|k]]; try lia.
  - change (length (chars "[]")) with 2. by rewrite Hp by lia.
Qed.

Lemma snprintf_text (buf s : list ascii) (n : Z) :
  length buf = Z.to_nat n -> (Z.of_nat (length s) < n)%Z ->
  Forall (fun c => c <> NUL) s ->
  cstring (fst (snprintf buf 0 n s)) = s.
Proof.
  intros Hlen Hn Hs. unfold snprintf.
  destruct (n <=? 0)%Z eqn:E; [lia|]. simpl.
  rewrite take_ge by lia.
  apply cstring_prefix; [done| |].
  - intros k Hk. rewrite <- (Nat.add_0_l k) at 1.
    rewrite poke_lookup_in; [|rewrite length_app; simpl; lia|lia].
    by apply lookup_app_l.
  - rewrite <- (Nat.add_0_l (length s)) at 1.
    rewrite poke_lookup_in; [|rewrite length_app; simpl; lia|lia].
    rewrite lookup_app_r by lia. by rewrite Nat.sub_diag.
Qed.

(** C10.  A degenerate call of [perform_clustering] (count not positive,
    a null points or wallets array, a null output region or one of fewer
    than 100 bytes) and a call in which [calloc] fails leave the four
    centroids exactly as they were. *)
Theorem degenerate_call_keeps_centroids
    (centroids : list (F * F)) (calloc_ok : bool) (count : Z)
    (points wallets : option (list Z)) (output_buffer : option (list ascii))
    (buffer_size : Z) :
  (count <= 0)%Z \/ points = None \/ wallets = None \/ output_buffer = None
    \/ (buffer_size < 100)%Z \/ calloc_ok = false ->
  fst (Segmentation.perform_clustering centroids calloc_ok count points wallets
         output_buffer buffer_size) = centroids.
Proof.
  intros H. unfold Segmentation.perform_clustering.
  destruct points as [pts|], wallets as [wls|], output_buffer as [buf|]; try done.
  destruct (count <=? 0)%Z eqn:Ec; [done|].
  destruct (buffer_size <? 100)%Z eqn:Es; [done|]. simpl.
  destruct calloc_ok; [|done].
  exfalso. destruct H as [H|[H|[H|[H|[H|H]]]]]; try done; lia.
Qed.

(** C7, as the code has it.  When one of the three [malloc] calls of
    [optimize_route] fails, the output region holds exactly the error
    object and nothing of a route.  When the [calloc] of
    [perform_clustering] fails, the output region holds the empty array
    [[]], the same text as on degenerate input, and the centroids are
    untouched.  Both calls return. *)
Theorem allocation_failure_outcome
    (buf : list ascii) (buffer_size : Z)
    (nodes_ok route_ok new_route_ok calloc_ok : bool) (rand : nat -> Z)
    (num_stops : Z)
    (centroids : list (F * F)) (count : Z) (points wallets : list Z) :
  length buf = Z.to_nat buffer_size -> (100 <= buffer_size)%Z ->
  (nodes_ok && route_ok && new_route_ok = false ->
   exists buf',
     Routing.optimize_route (F:=D) nodes_ok route_ok new_route_ok calloc_ok rand
       num_stops (Some buf) buffer_size = Some (Some buf')
     /\ cstring buf' = Routing.error_text
     /\ error_payload (cstring buf') = true)
  /\ ((0 < count)%Z ->
      exists buf',
        Segmentation.perform_clustering centroids false count (Some points)
          (Some wallets) (Some buf) buffer_size = (centroids, Some buf')
        /\ cstring buf' = chars "[]"
        /\ error_payload (cstring buf') = false).
Proof.
  intros Hlen Hsz. split.
  - intros Hfail. unfold Routing.optimize_route.
    destruct (buffer_size <? 100)%Z eqn:Es; [lia|].
    assert (Hb : negb nodes_ok || negb route_ok || negb new_route_ok = true)
      by (destruct nodes_ok, route_ok, new_route_ok; done).
    rewrite Hb. eexists. split; [done|].
    assert (Ht : cstring (fst (snprintf buf 0 buffer_size Routing.error_text))
                 = Routing.error_text).
    { apply snprintf_text; [done| |].
      - change (length Routing.error_text) with 36. lia.
      - repeat constructor; discriminate. }
    rewrite Ht. done.
  - intros Hc. unfold Segmentation.perform_clustering.
    destruct (count <=? 0)%Z eqn:Ec; [lia|].
    destruct (buffer_size <? 100)%Z eqn:Es; [lia|]. simpl.
    eexists. split; [done|].
    rewrite write_empty_text by (done || lia). done.
Qed.

End Failure.

(** The witness of [degenerate_call_keeps_centroids]: an empty batch. *)
Lemma degenerate_call_keeps_centroids_witness :
  fst (Segmentation.perform_clustering (F:=binary32)
         Segmentation.initial_centroids true 0 (Some []) (Some [])
         (Some (repeat "#"%char 100)) 100)
  = Segmentation.initial_centroids.
Proof.
  apply degenerate_call_keeps_centroids. left. lia.
Defined.

(** The witness of [allocation_failure_outcome]: a 100-byte region, the
    route buffer not allocated, one observation. *)
Lemma allocation_failure_outcome_witness :
  (exists buf',
     Routing.optimize_route (F:=binary64) true false true true (fun _ => 7%Z) 5
       (Some (repeat "#"%char 100)) 100 = Some (Some buf')
     /\ cstring buf' = Routing.error_text
     /\ error_payload (cstring buf') = true)
  /\ (exists buf',
        Segmentation.perform_clustering (F:=binary32)
          Segmentation.initial_centroids false 1 (Some [1%Z]) (Some [1%Z])
          (Some (repeat "#"%char 100)) 100
        = (Segmentation.initial_centroids, Some buf')
        /\ cstring buf' = chars "[]"
        /\ error_payload (cstring buf') = false).
Proof.
  destruct (allocation_failure_outcome (F:=binary32) (D:=binary64)
              (repeat "#"%char 100) 100 true false true true (fun _ => 7%Z) 5
              Segmentation.initial_centroids 1 [1%Z] [1%Z]) as [HA HB];
    [reflexivity | lia |].
  split; [apply HA; reflexivity | apply HB; lia].
Defined.

(** C7, as stated, fails for the segmentation engine: with the allocation
    of the assignments array failing, the text written is the empty array,
    which is not an error object. *)
Lemma segmentation_alloc_failure_not_error :
  let out := snd (Segmentation.perform_clustering (F:=binary32)
                    Segmentation.initial_centroids false 1 (Some [1%Z]) (Some [1%Z])
                    (Some (repeat "#"%char 100)) 100) in
  output_text out = chars "[]" /\ error_payload (output_text out) = false.
Proof. vm_compute. done. Qed.

(** ** Runs of the model *)

(** Four observations against the initial centroids, in binary32: two go
    to Bronze, one to Gold, one to Titanium. *)
Example final_assignments_sample :
  final_assignments (F:=binary32) Segmentation.initial_centroids 4
    [1; 2; 300; 700]%Z [10; 100; 600; 900]%Z
  = [0; 0; 2; 3].
Proof. vm_compute. reflexivity. Qed.

Example two_opt_swap_sample :
  Routing.two_opt_swap [0; 1; 2; 3; 4; 5]%Z 2 4 6 (repeat 9%Z 6)
  = [0; 1; 4; 3; 2; 5]%Z.
Proof. reflexivity. Qed.

(** Nine stops, in binary64: the nearest-neighbour tour, the tour after
    the 2-opt phase, and the number of passes. *)
Example plan_route_sample :
  let rand := fun k =>
    nth k [10; 20; 90; 80; 15; 85; 70; 10; 33; 44; 99; 0; 1; 2; 50; 51]%Z 7%Z in
  option_map (fun '(_, route0, (s, iteration)) => (route0, Routing.route s, iteration))
    (Routing.plan_route (F:=binary64) 9 true rand)
  = Some ([0; 8; 5; 1; 7; 4; 6; 2; 3]%Z, [0; 8; 3; 2; 6; 4; 7; 1; 5]%Z, 2%Z).
Proof. vm_compute. reflexivity. Qed.

(** Three stops and a region of 200 bytes: the payload of 172 characters
    would fit, and the text written stops after the second stop, with the
    comma that follows it. *)
Example stops_cut_short :
  let rand := fun k => nth k [10; 20; 90; 80]%Z 7%Z in
  let node := fun (i x y : Z) (t : string) =>
    {| Routing.id := i; Routing.x := b64_of_int x; Routing.y := b64_of_int y;
       Routing.type := t |} in
  option_map output_text
    (Routing.optimize_route (F:=binary64) true true true true rand 3
       (Some (repeat "#"%char 200)) 200)
  = Some (Routing.header_text (b64_of_int 200) 1
          ++ Routing.stop_text (node 0%Z 50%Z 50%Z "HUB"%string) ++ chars ","
          ++ Routing.stop_text (node 1%Z 10%Z 20%Z "DROP"%string) ++ chars ","
          ++ chars "]}").
Proof. vm_compute. reflexivity. Qed.

(** C5, as stated, fails for the stops output.  With three stops the tour
    is 0, 1, 2 and the payload has 172 characters.  In a region of 200
    bytes the text lists the hub and node 1 and leaves node 2 out; in a
    region of 100 bytes it lists no stop at all, the hub included: the
    output loop asks for 100 bytes of headroom before each stop. *)
Lemma stops_output_omits_stops :
  let rand := fun k => nth k [10; 20; 90; 80]%Z 7%Z in
  let node := fun (i x y : Z) (t : string) =>
    {| Routing.id := i; Routing.x := b64_of_int x; Routing.y := b64_of_int y;
       Routing.type := t |} in
  let plan := Routing.plan_route (F:=binary64) 3 true rand in
  let text := fun size : Z =>
    option_map output_text
      (Routing.optimize_route (F:=binary64) true true true true rand 3
         (Some (repeat "#"%char (Z.to_nat size))) size) in
  option_map (fun '(_, _, (s, _)) => Routing.route s) plan = Some [0; 1; 2]%Z
  /\ option_map (fun '(nodes, _, (s, iteration)) =>
                   length (route_payload nodes (Routing.route s)
                             (Routing.best_distance s) iteration)) plan
     = Some 172
  /\ text 200%Z
     = Some (Routing.header_text (b64_of_int 200) 1
             ++ Routing.stop_text (node 0%Z 50%Z 50%Z "HUB"%string) ++ chars ","
             ++ Routing.stop_text (node 1%Z 10%Z 20%Z "DROP"%string) ++ chars ","
             ++ chars "]}")
  /\ text 100%Z = Some (Routing.header_text (b64_of_int 200) 1 ++ chars "]}").
Proof. vm_compute. repeat split. Qed.

(** * Further properties of the code *)

(** ** Distances *)

Section DistanceFacts.
Variables prec emax : Z.

Lemma binary_round_aux_opp (s : bool) (m e : Z) (l : location) :
  binary_round_aux prec emax (negb s) m e l
  = SFopp (binary_round_aux prec emax s m e l).
Proof.
  unfold binary_round_aux.
  destruct (shr_fexp prec emax m e l) as [mrs' e'].
  destruct (shr_fexp prec emax _ e' loc_Exact) as [mrs'' e''].
  destruct (shr_m mrs''); [done| |done].
  by destruct (e'' <=? emax - prec)%Z.
Qed.

Lemma binary_normalize_opp (m e : Z) :
  binary_normalize prec emax (- m) e false
  = match m with
    | Z0 => S754_zero false
    | _ => SFopp (binary_normalize prec emax m e false)
    end.
Proof.
  destruct m as [|p|p]; [done| |].
  - change (- Z.pos p)%Z with (Z.neg p). unfold binary_normalize, binary_round.
    destruct (shl_align p e _) as [mz ez]. apply (binary_round_aux_opp false).
  - change (- Z.neg p)%Z with (Z.pos p). unfold binary_normalize, binary_round.
    destruct (shl_align p e _) as [mz ez]. rewrite (binary_round_aux_opp false).
    by destruct (binary_round_aux _ _ _ _ _ _) as [[]|[]| |[] ? ?].
Qed.

(** The difference taken the other way round is the opposite number,
    or both differences are zeros. *)
Lemma SFsub_swap (x y : spec_float) :
  SFsub prec emax y x = SFopp (SFsub prec emax x y)
  \/ exists s s', SFsub prec emax x y = S754_zero s
                  /\ SFsub prec emax y x = S754_zero s'.
Proof.
  destruct x as [sx|sx| |sx mx ex], y as [sy|sy| |sy my ey];
    try (left; reflexivity);
    try (left; destruct sx; reflexivity);
    try (left; destruct sy; reflexivity);
    try (left; destruct sx, sy; reflexivity).
  - right. destruct sx, sy; eexists _, _; done.
  - cbn [SFsub]. rewrite (Z.min_comm ey ex).
    set (a := cond_Zopp sx (Z.pos (fst (shl_align mx ex (Z.min ex ey))))).
    set (b := cond_Zopp sy (Z.pos (fst (shl_align my ey (Z.min ex ey))))).
    replace (b - a)%Z with (- (a - b))%Z by lia.
    rewrite binary_normalize_opp.
    destruct (a - b)%Z; [right; by exists false, false|by left..].
Qed.

Lemma SFmul_opp_opp (a : spec_float) :
  SFmul prec emax (SFopp a) (SFopp a) = SFmul prec emax a a.
Proof. by destruct a as [[]|[]| |[] m e]. Qed.

Lemma SFmul_zero_zero (s : bool) :
  SFmul prec emax (S754_zero s) (S754_zero s) = S754_zero false.
Proof. by destruct s. Qed.

Lemma SFsub_square_swap (x y : spec_float) :
  SFmul prec emax (SFsub prec emax x y) (SFsub prec emax x y)
  = SFmul prec emax (SFsub prec emax y x) (SFsub prec emax y x).
Proof.
  destruct (SFsub_swap x y) as [->|(s & s' & -> & ->)].
  - by rewrite SFmul_opp_opp.
  - by rewrite !SFmul_zero_zero.
Qed.

Lemma SFsub_diag (x : spec_float) :
  is_finite x = true -> SFsub prec emax x x = S754_zero false.
Proof.
  destruct x as [[]|[]| |s m e]; try done. intros _.
  cbn [SFsub]. by rewrite Z.sub_diag.
Qed.

End DistanceFacts.

(** X1.  Both distance functions are symmetric in IEEE arithmetic, for
    every pair of arguments, NaN and the infinities included: the
    square of a difference does not depend on the order of its terms,
    although the difference itself does. *)
Theorem distance_symmetric :
  (forall x1 y1 x2 y2 : binary32,
      Segmentation.euclidean_distance x1 y1 x2 y2
      = Segmentation.euclidean_distance x2 y2 x1 y1)
  /\ (forall a b : Routing.DeliveryNode (F:=binary64),
        Routing.calculate_distance a b = Routing.calculate_distance b a).
Proof.
  split.
  - intros x1 y1 x2 y2. unfold Segmentation.euclidean_distance.
    change (@f_sub binary32 b32_ops) with (SFsub 24 128).
    change (@f_mul binary32 b32_ops) with (SFmul 24 128).
    by rewrite (SFsub_square_swap 24 128 x1 x2), (SFsub_square_swap 24 128 y1 y2).
  - intros a b. unfold Routing.calculate_distance.
    change (@f_sub binary64 b64_ops) with (SFsub 53 1024).
    change (@f_mul binary64 b64_ops) with (SFmul 53 1024).
    by rewrite (SFsub_square_swap 53 1024 (Routing.x a) (Routing.x b)),
               (SFsub_square_swap 53 1024 (Routing.y a) (Routing.y b)).
Qed.

(** X2.  The distance from a point to itself is +0.0 when both
    coordinates are finite numbers. *)
Theorem distance_to_self :
  (forall x y : binary32,
      is_finite x = true -> is_finite y = true ->
      Segmentation.euclidean_distance x y x y = S754_zero false)
  /\ (forall a : Routing.DeliveryNode (F:=binary64),
        is_finite (Routing.x a) = true -> is_finite (Routing.y a) = true ->
        Routing.calculate_distance a a = S754_zero false).
Proof.
  split.
  - intros x y Hx Hy. unfold Segmentation.euclidean_distance.
    change (@f_sub binary32 b32_ops) with (SFsub 24 128).
    by rewrite !SFsub_diag.
  - intros a Hx Hy. unfold Routing.calculate_distance.
    change (@f_sub binary64 b64_ops) with (SFsub 53 1024).
    by rewrite !SFsub_diag.
Qed.

(** An instance of [distance_to_self]: the Silver centroid (150, 30) and
    the hub (50, 50). *)
Lemma distance_to_self_witness :
  Segmentation.euclidean_distance (F:=binary32) (f_lit 150 1) (f_lit 30 1)
    (f_lit 150 1) (f_lit 30 1) = S754_zero false
  /\ (let hub := {| Routing.id := 0%Z; Routing.x := b64_of_int 50;
                    Routing.y := b64_of_int 50; Routing.type := "HUB"%string |} in
      Routing.calculate_distance hub hub = S754_zero false).
Proof.
  split.
  - apply (proj1 distance_to_self); reflexivity.
  - apply (proj2 distance_to_self); reflexivity.
Defined.

(** ** The segmentation engine *)

Section SegmentationFacts.

(** X3.  The churn risk never rises with the wallet balance: of two
    balances the larger has the same risk or a smaller one, in the
    [float] arithmetic of the code. *)
Theorem churn_risk_antitone (w1 w2 : Z) :
  (w1 <= w2)%Z ->
  f_le (Segmentation.calculate_churn_risk (F:=binary32) w2)
       (Segmentation.calculate_churn_risk (F:=binary32) w1).
Proof.
  intros Hle. unfold Segmentation.calculate_churn_risk.
  destruct (Z.ltb_spec w1 50), (Z.ltb_spec w1 200), (Z.ltb_spec w1 500),
           (Z.ltb_spec w2 50), (Z.ltb_spec w2 200), (Z.ltb_spec w2 500);
    try lia; first [by left | right; by vm_compute].
Qed.

End SegmentationFacts.

Section AssignFacts.
Context {F : Type} {ops : FloatOps F}.

Lemma assign_clusters_inv (count : nat) (points wallets : list Z)
    (centroids : list (F * F)) (assignments : list nat) :
  count <= length assignments ->
  let r := Segmentation.assign_clusters count points wallets centroids assignments in
  let target := fun i =>
    Segmentation.nearest_centroid centroids
      (f_of_int (nth i points 0%Z)) (f_of_int (nth i wallets 0%Z)) in
  length (snd r) = length assignments
  /\ (forall i, i < count -> nth i (snd r) 0 = target i)
  /\ (forall i, count <= i -> nth i (snd r) 0 = nth i assignments 0)
  /\ (fst r = false <-> forall i, i < count -> nth i assignments 0 = target i)
  /\ (fst r = false -> snd r = assignments).
Proof.
  intros Hlen r target. unfold r, Segmentation.assign_clusters.
  apply (for_loop_inv
           (fun n (s : bool * list nat) =>
              length (snd s) = length assignments
              /\ (forall i, i < n -> nth i (snd s) 0 = target i)
              /\ (forall i, n <= i -> nth i (snd s) 0 = nth i assignments 0)
              /\ (fst s = false <-> forall i, i < n -> nth i assignments 0 = target i)
              /\ (fst s = false -> snd s = assignments))); [lia| |].
  - cbn. repeat split; try done; intros; lia.
  - intros n [changed asg] Hn (Hl & Hlo & Hhi & Hflag & Hsame). cbn [fst snd] in *.
    fold (target n).
    destruct (nth n asg 0 =? target n) eqn:E; cbn [negb fst snd].
    + apply Nat.eqb_eq in E. split; [done|]. split.
      { intros i Hi. destruct (decide (i = n)) as [->|]; [done|apply Hlo; lia]. }
      split; [intros i Hi; apply Hhi; lia|]. split; [|done].
      rewrite Hflag. split.
      * intros H i Hi. destruct (decide (i = n)) as [->|]; [|apply H; lia].
        rewrite <- (Hhi n) by lia. done.
      * intros H i Hi. apply H. lia.
    + apply Nat.eqb_neq in E. split; [by rewrite length_insert|]. split.
      { intros i Hi. destruct (decide (i = n)) as [->|].
        - rewrite nth_insert_eq by lia. done.
        - rewrite nth_insert_ne by done. apply Hlo. lia. }
      split.
      { intros i Hi. rewrite nth_insert_ne by lia. apply Hhi. lia. }
      split; [|done]. split; [done|].
      intros H. exfalso. apply E. rewrite (Hhi n) by lia. apply H. lia.
Qed.

(** X4.  [assign_clusters] on an array of at least [count] entries
    stores the nearest centroid in each of the first [count] entries and
    leaves the others alone; it returns 0 exactly when every one of the
    first [count] entries already held its nearest centroid, and then
    the array is unchanged. *)
Theorem assign_clusters_reports_change (count : nat) (points wallets : list Z)
    (centroids : list (F * F)) (assignments : list nat) :
  count <= length assignments ->
  let r := Segmentation.assign_clusters count points wallets centroids assignments in
  let target := fun i =>
    Segmentation.nearest_centroid centroids
      (f_of_int (nth i points 0%Z)) (f_of_int (nth i wallets 0%Z)) in
  length (snd r) = length assignments
  /\ (forall i, i < count -> nth i (snd r) 0 = target i)
  /\ (forall i, count <= i -> nth i (snd r) 0 = nth i assignments 0)
  /\ (fst r = false <-> forall i, i < count -> nth i assignments 0 = target i)
  /\ (fst r = false -> snd r = assignments).
Proof. apply assign_clusters_inv. Qed.

(** X5.  The assignment step is idempotent: run again on its own
    result with the same centroids, it reports no change and returns the
    same array. *)
Theorem assign_clusters_idempotent (count : nat) (points wallets : list Z)
    (centroids : list (F * F)) (assignments : list nat) :
  count <= length assignments ->
  let once := snd (Segmentation.assign_clusters count points wallets centroids
                     assignments) in
  Segmentation.assign_clusters count points wallets centroids once = (false, once).
Proof.
  intros Hlen once.
  destruct (assign_clusters_inv count points wallets centroids assignments Hlen)
    as (Hl & Hlo & _). fold once in Hl, Hlo.
  destruct (assign_clusters_inv count points wallets centroids once ltac:(lia))
    as (_ & _ & _ & Hflag & Hsame).
  destruct (Segmentation.assign_clusters count points wallets centroids once)
    as [changed again]. cbn [fst snd] in *.
  assert (changed = false) as -> by (by apply Hflag).
  by rewrite Hsame.
Qed.

End AssignFacts.

(** An instance of [assign_clusters_reports_change]: two observations in
    a freshly cleared array. *)
Lemma assign_clusters_reports_change_witness :
  let r := Segmentation.assign_clusters (F:=binary32) 2 [10; 150]%Z [20; 30]%Z
             Segmentation.initial_centroids [0; 0] in
  let target := fun i =>
    Segmentation.nearest_centroid (F:=binary32) Segmentation.initial_centroids
      (f_of_int (nth i [10; 150]%Z 0%Z)) (f_of_int (nth i [20; 30]%Z 0%Z)) in
  length (snd r) = length [0; 0]
  /\ (forall i, i < 2 -> nth i (snd r) 0 = target i)
  /\ (forall i, 2 <= i -> nth i (snd r) 0 = nth i [0; 0] 0)
  /\ (fst r = false <-> forall i, i < 2 -> nth i [0; 0] 0 = target i)
  /\ (fst r = false -> snd r = [0; 0]).
Proof.
  apply (assign_clusters_reports_change (F:=binary32) 2 [10; 150]%Z [20; 30]%Z
           Segmentation.initial_centroids [0; 0]).
  simpl. lia.
Defined.

(** An instance of [assign_clusters_idempotent], on the same input. *)
Lemma assign_clusters_idempotent_witness :
  let once := snd (Segmentation.assign_clusters (F:=binary32) 2 [10; 150]%Z [20; 30]%Z
                     Segmentation.initial_centroids [0; 0]) in
  Segmentation.assign_clusters (F:=binary32) 2 [10; 150]%Z [20; 30]%Z
    Segmentation.initial_centroids once = (false, once).
Proof.
  apply (assign_clusters_idempotent (F:=binary32) 2 [10; 150]%Z [20; 30]%Z
           Segmentation.initial_centroids [0; 0]).
  simpl. lia.
Defined.

(** An instance of [churn_risk_antitone]: balances 120 and 450. *)
Lemma churn_risk_antitone_witness :
  f_le (Segmentation.calculate_churn_risk (F:=binary32) 450)
       (Segmentation.calculate_churn_risk (F:=binary32) 120).
Proof. apply churn_risk_antitone. lia. Defined.

Section KmeansFacts.
Context {F : Type} {ops : FloatOps F} {fmt : FloatFmt F}.

Lemma update_centroids_length (count : nat) (points wallets : list Z)
    (assignments : list nat) (centroids : list (F * F)) :
  length (snd (Segmentation.update_centroids count points wallets assignments
                 centroids)) = length centroids.
Proof.
  unfold Segmentation.update_centroids.
  destruct (Segmentation.accumulate count points wallets assignments) as [nc cc].
  apply (for_loop_preserves
           (fun s : F * list (F * F) => length (snd s) = length centroids)); [done|].
  intros k [m cs] _ H. cbn [snd] in *.
  destruct (0 <? nth k cc 0)%Z; cbn [snd]; [by rewrite length_insert|done].
Qed.

Lemma kmeans_last_step (rounds count : nat) (points wallets : list Z) :
  forall (centroids : list (F * F)) (assignments : list nat),
    length assignments = count ->
    let r := Segmentation.kmeans (S rounds) count points wallets centroids
               assignments in
    exists before : list (F * F),
      length before = length centroids
      /\ length (snd r) = count
      /\ (forall i, i < count ->
            nth i (snd r) 0
            = Segmentation.nearest_centroid before
                (f_of_int (nth i points 0%Z)) (f_of_int (nth i wallets 0%Z)))
      /\ fst r = snd (Segmentation.update_centroids count points wallets (snd r)
                        before).
Proof.
  induction rounds as [|rounds IH]; intros centroids assignments Hlen r.
  - unfold r. cbn [Segmentation.kmeans].
    destruct (assign_clusters_inv count points wallets centroids assignments
                ltac:(lia)) as (Hl & Hlo & _).
    destruct (Segmentation.assign_clusters _ _ _ _ _) as [changed asg].
    cbn [fst snd] in *.
    destruct (Segmentation.update_centroids count points wallets asg centroids)
      as [movement cs] eqn:Eu.
    exists centroids.
    assert (cs = snd (Segmentation.update_centroids count points wallets asg centroids))
      by (by rewrite Eu).
    destruct (negb changed || f_lt_dlit movement 1 100); cbn [fst snd];
      (split; [done|split; [lia|split; [done|done]]]).
  - unfold r. cbn [Segmentation.kmeans].
    destruct (assign_clusters_inv count points wallets centroids assignments
                ltac:(lia)) as (Hl & Hlo & _).
    destruct (Segmentation.assign_clusters _ _ _ _ _) as [changed asg].
    cbn [fst snd] in *.
    pose proof (update_centroids_length count points wallets asg centroids) as Hul.
    destruct (Segmentation.update_centroids count points wallets asg centroids)
      as [movement cs] eqn:Eu. cbn [snd] in Hul.
    destruct (negb changed || f_lt_dlit movement 1 100).
    + exists centroids. cbn [fst snd].
      split; [done|]. split; [lia|]. split; [done|]. by rewrite Eu.
    + destruct (IH cs asg ltac:(lia)) as (before & Hb & H1 & H2 & H3).
      exists before. split; [lia|]. done.
Qed.

(** X6.  On a valid call of [perform_clustering] the tiers written are
    those of the last assignment step, and the centroid table left
    behind is one update step ahead of the table [before] that this
    step measured against: every record's tier is the nearest centroid
    in [before], and the stored table is [before] after one damped
    update with these tiers. *)
Theorem labels_precede_last_update (centroids : list (F * F)) (count : Z)
    (points wallets : list Z) (buf : list ascii) (buffer_size : Z) :
  (0 < count)%Z -> (100 <= buffer_size)%Z ->
  let n := Z.to_nat count in
  let labels := final_assignments centroids n points wallets in
  exists before : list (F * F),
    length before = length centroids
    /\ (forall i, i < n ->
          nth i labels 0
          = Segmentation.nearest_centroid before
              (f_of_int (nth i points 0%Z)) (f_of_int (nth i wallets 0%Z)))
    /\ Segmentation.perform_clustering centroids true count (Some points)
         (Some wallets) (Some buf) buffer_size
       = (snd (Segmentation.update_centroids n points wallets labels before),
          Some (Segmentation.build_json count points wallets labels buffer_size buf)).
Proof.
  intros Hc Hs n labels.
  destruct (kmeans_last_step 49 n points wallets centroids (repeat 0 n)
              (repeat_length _ _)) as (before & Hb & Hl & Hn & Hf).
  exists before. split; [done|]. split; [exact Hn|].
  unfold Segmentation.perform_clustering.
  destruct (count <=? 0)%Z eqn:Ec; [lia|].
  destruct (buffer_size <? 100)%Z eqn:Es; [lia|]. cbn [orb negb].
  fold n. change Segmentation.MAX_ITERATIONS with 50.
  unfold labels, final_assignments. change Segmentation.MAX_ITERATIONS with 50.
  destruct (Segmentation.kmeans 50 n points wallets centroids (repeat 0 n))
    as [cs asg]. cbn [fst snd] in *. by rewrite Hf.
Qed.

End KmeansFacts.

(** An instance of [labels_precede_last_update]: three observations and a
    200-byte region. *)
Lemma labels_precede_last_update_witness :
  let labels := final_assignments (F:=binary32) Segmentation.initial_centroids 3
                  [10; 40; 20]%Z [20; 600; 40]%Z in
  exists before : list (binary32 * binary32),
    length before = length (Segmentation.initial_centroids (F:=binary32))
    /\ (forall i, i < 3 ->
          nth i labels 0
          = Segmentation.nearest_centroid before
              (f_of_int (nth i [10; 40; 20]%Z 0%Z))
              (f_of_int (nth i [20; 600; 40]%Z 0%Z)))
    /\ Segmentation.perform_clustering (F:=binary32)
         Segmentation.initial_centroids true 3
         (Some [10; 40; 20]%Z) (Some [20; 600; 40]%Z)
         (Some (repeat "#"%char 200)) 200
       = (snd (Segmentation.update_centroids 3 [10; 40; 20]%Z [20; 600; 40]%Z
                 labels before),
          Some (Segmentation.build_json (F:=binary32) 3 [10; 40; 20]%Z [20; 600; 40]%Z labels 200
                  (repeat "#"%char 200))).
Proof.
  apply (labels_precede_last_update (F:=binary32) Segmentation.initial_centroids 3
           [10; 40; 20]%Z [20; 600; 40]%Z (repeat "#"%char 200) 200); lia.
Defined.

Section DegenerateFacts.
Context {F : Type} {ops : FloatOps F} {fmt : FloatFmt F}.

Lemma write_empty_small (buf : list ascii) (buffer_size : Z) :
  length buf = Z.to_nat buffer_size ->
  (buffer_size = 1%Z -> cstring (Segmentation.write_empty buf buffer_size) = [])
  /\ (buffer_size = 2%Z ->
      cstring (Segmentation.write_empty buf buffer_size) = chars "[")
  /\ (buffer_size = 3%Z ->
      cstring (Segmentation.write_empty buf buffer_size) = chars "[]").
Proof.
  intros Hlen. repeat split; intros ->.
  - destruct buf as [|a [|]]; done.
  - destruct buf as [|a [|b [|]]]; done.
  - destruct buf as [|a [|b [|c [|]]]]; done.
Qed.

(** X7.  The text of a degenerate call ([count] not positive, a null
    points or wallets array, or an output region of fewer than 100
    bytes) depends on the size of the region alone: [[]] from 3 bytes
    on, the single character [[] in a region of 2 bytes, the empty string
    in a region of 1 byte; a region of size 0 or less is not touched. *)
Theorem degenerate_call_text (centroids : list (F * F)) (calloc_ok : bool)
    (count : Z) (points wallets : option (list Z)) (buf : list ascii)
    (buffer_size : Z) :
  length buf = Z.to_nat buffer_size ->
  (count <= 0)%Z \/ points = None \/ wallets = None \/ (buffer_size < 100)%Z ->
  let out := snd (Segmentation.perform_clustering centroids calloc_ok count points
                    wallets (Some buf) buffer_size) in
  ((buffer_size <= 0)%Z -> out = Some buf)
  /\ (buffer_size = 1%Z -> output_text out = [])
  /\ (buffer_size = 2%Z -> output_text out = chars "[")
  /\ ((3 <= buffer_size)%Z -> output_text out = chars "[]").
Proof.
  intros Hlen Hdeg out.
  assert (Hout : out = if (0 <? buffer_size)%Z
                       then Some (Segmentation.write_empty buf buffer_size)
                       else Some buf).
  { unfold out, Segmentation.perform_clustering.
    destruct points as [pts|], wallets as [wls|]; try done.
    destruct (count <=? 0)%Z eqn:Ec; [done|].
    destruct (buffer_size <? 100)%Z eqn:Es; [done|].
    exfalso. destruct Hdeg as [H|[H|[H|H]]]; try done; lia. }
  rewrite Hout.
  destruct (write_empty_small buf buffer_size Hlen) as (H1 & H2 & H3).
  repeat split.
  - intros H. by destruct (Z.ltb_spec 0 buffer_size); [lia|].
  - intros ->. by apply H1.
  - intros ->. by apply H2.
  - intros H. destruct (Z.ltb_spec 0 buffer_size); [|lia]. cbn [output_text].
    destruct (Z.eq_dec buffer_size 3%Z) as [->|]; [by apply H3|].
    apply write_empty_text; [done|lia].
Qed.

End DegenerateFacts.

(** An instance of [degenerate_call_text]: no observations and a region
    of 2 bytes. *)
Lemma degenerate_call_text_witness :
  output_text (snd (Segmentation.perform_clustering (F:=binary32)
                      Segmentation.initial_centroids true 0 (Some []) (Some [])
                      (Some (repeat "#"%char 2)) 2))
  = chars "[".
Proof.
  apply (degenerate_call_text (F:=binary32) Segmentation.initial_centroids true 0
           (Some []) (Some []) (repeat "#"%char 2) 2);
    [reflexivity | left; lia | reflexivity].
Defined.

(** ** The route optimiser *)

Section SwapFacts.

Lemma reversed_segment_involutive (route : list Z) (i j : nat) :
  i <= j -> j < length route ->
  reversed_segment (reversed_segment route i j) i j = route.
Proof.
  intros Hij Hj. unfold reversed_segment.
  set (A := take i route). set (M := take (S j - i) (drop i route)).
  set (C := drop (S j) route).
  assert (HA : length A = i) by (unfold A; rewrite length_take; lia).
  assert (HM : length (reverse M) = S j - i).
  { unfold M. rewrite length_reverse, length_take, length_drop. lia. }
  assert (Hroute : route = A ++ M ++ C).
  { unfold A, M, C. rewrite <- (take_drop i route) at 1. f_equal.
    rewrite <- (take_drop (S j - i) (drop i route)) at 1. f_equal.
    rewrite drop_drop. f_equal. lia. }
  assert (HC : drop (S j) (A ++ reverse M ++ C) = C).
  { rewrite app_assoc. apply drop_app_length'. rewrite length_app. lia. }
  rewrite HC.
  rewrite (take_app_length' A) by done.
  rewrite (drop_app_length' A) by done.
  rewrite (take_app_length' (reverse M)) by done.
  by rewrite reverse_involutive.
Qed.

Lemma reversed_segment_lookup (route : list Z) (i j k : nat) :
  i <= j -> j < length route ->
  Routing.stop_at (reversed_segment route i j) k
  = if (i <=? k) && (k <=? j) then Routing.stop_at route (i + j - k)
    else Routing.stop_at route k.
Proof.
  intros Hij Hj. unfold Routing.stop_at, reversed_segment.
  rewrite !nth_lookup.
  destruct (Nat.leb_spec i k) as [Hik|Hik]; cbn [andb].
  - rewrite lookup_app_r by (rewrite length_take; lia).
    rewrite length_take, Nat.min_l by lia.
    destruct (Nat.leb_spec k j) as [Hkj|Hkj].
    + rewrite lookup_app_l by (rewrite length_reverse, length_take, length_drop; lia).
      rewrite reverse_lookup by (rewrite length_take, length_drop; lia).
      rewrite length_take, length_drop, Nat.min_l by lia.
      rewrite lookup_take_lt by lia. rewrite lookup_drop. do 2 f_equal. lia.
    + rewrite lookup_app_r by (rewrite length_reverse, length_take, length_drop; lia).
      rewrite length_reverse, length_take, length_drop, Nat.min_l by lia.
      rewrite lookup_drop. do 2 f_equal. lia.
  - rewrite lookup_app_l by (rewrite length_take; lia).
    by rewrite lookup_take_lt by lia.
Qed.

(** X8.  [two_opt_swap] writes every entry of the candidate buffer: the
    entries [i .. j] of the route in reverse order, the others as they
    are, whatever the buffer held.  Applied to its own result with the
    same [i] and [j], it gives the route back. *)
Theorem two_opt_swap_round_trip (route buffer buffer' : list Z) (i j count : nat) :
  i <= j -> j < count ->
  length route = count -> length buffer = count -> length buffer' = count ->
  let candidate := Routing.two_opt_swap route i j count buffer in
  length candidate = count
  /\ (forall k, k < count ->
        Routing.stop_at candidate k
        = if (i <=? k) && (k <=? j) then Routing.stop_at route (i + j - k)
          else Routing.stop_at route k)
  /\ Routing.two_opt_swap candidate i j count buffer' = route.
Proof.
  intros Hij Hj Hr Hb Hb' candidate. unfold candidate.
  rewrite two_opt_swap_reversed by done.
  split; [by rewrite reversed_segment_length|]. split.
  - intros k _. apply reversed_segment_lookup; lia.
  - rewrite two_opt_swap_reversed; [|done|done|by rewrite reversed_segment_length|done].
    apply reversed_segment_involutive; lia.
Qed.

End SwapFacts.

(** An instance of [two_opt_swap_round_trip]: the entries 1 to 3 of a
    route over five nodes. *)
Lemma two_opt_swap_round_trip_witness :
  let candidate := Routing.two_opt_swap [0; 3; 1; 4; 2]%Z 1 3 5 [9; 9; 9; 9; 9]%Z in
  length candidate = 5
  /\ (forall k, k < 5 ->
        Routing.stop_at candidate k
        = if (1 <=? k) && (k <=? 3) then Routing.stop_at [0; 3; 1; 4; 2]%Z (1 + 3 - k)
          else Routing.stop_at [0; 3; 1; 4; 2]%Z k)
  /\ Routing.two_opt_swap candidate 1 3 5 [7; 7; 7; 7; 7]%Z = [0; 3; 1; 4; 2]%Z.
Proof.
  apply (two_opt_swap_round_trip [0; 3; 1; 4; 2]%Z [9; 9; 9; 9; 9]%Z
           [7; 7; 7; 7; 7]%Z 1 3 5); (lia || reflexivity).
Defined.

Section SearchFacts.
Context {F : Type} {ops : FloatOps F} {inf : FloatInf F}.

(** X9.  When the [calloc] of the nearest-neighbour step fails, no
    error is reported: the step falls back to the tour 0, 1, ...,
    [count - 1] in the order of the node indices, whatever the nodes
    are. *)
Theorem nearest_neighbor_fallback (nodes : list Routing.DeliveryNode)
    (route : list Z) (count : nat) :
  length route = count ->
  Routing.initialize_route_nearest_neighbor nodes route count false
  = Some (map Z.of_nat (seq 0 count)).
Proof.
  intros Hlen. unfold Routing.initialize_route_nearest_neighbor. cbn [negb].
  by rewrite identity_route.
Qed.

Lemma two_opt_loop_count (nodes : list Routing.DeliveryNode) (n passes : nat) :
  forall (iteration : Z) (s : Routing.search),
    let r := Routing.two_opt_loop passes nodes n iteration s in
    (iteration <= snd r <= iteration + Z.of_nat passes)%Z
    /\ (1 <= passes -> Routing.improved s = true -> (iteration + 1 <= snd r)%Z).
Proof.
  induction passes as [|passes IH]; intros iteration s r.
  - unfold r. cbn. split; [lia|]. intros; lia.
  - unfold r. cbn [Routing.two_opt_loop].
    destruct (Routing.improved s) eqn:E; cbn [snd].
    + destruct (IH (iteration + 1)%Z (Routing.two_opt_pass nodes n s)) as [H _].
      split; [lia|]. intros _ _. lia.
    + split; [lia|]. intros _ H. discriminate.
Qed.

(** X10.  The 2-opt phase runs at least one pass and at most 200: the
    [iterations] it reports lie between 1 and 200, for every node set
    and every starting tour. *)
Theorem two_opt_iterations_range (nodes : list Routing.DeliveryNode) (n : nat)
    (route new_route : list Z) :
  (1 <= snd (Routing.two_opt nodes n route new_route) <= 200)%Z.
Proof.
  unfold Routing.two_opt.
  destruct (two_opt_loop_count nodes n Routing.MAX_ITERATIONS 0
              {| Routing.route := route; Routing.new_route := new_route;
                 Routing.best_distance :=
                   Routing.calculate_route_distance nodes route n;
                 Routing.improved := true |}) as [H1 H2].
  specialize (H2 ltac:(unfold Routing.MAX_ITERATIONS; lia) eq_refl).
  unfold Routing.MAX_ITERATIONS in *. lia.
Qed.

Lemma swaps_all_rejected (nodes : list Routing.DeliveryNode) (n : nat)
    (pairs : list (nat * nat)) :
  forall s : Routing.search,
    (forall p, In p pairs -> fst p <= snd p /\ snd p < n) ->
    length (Routing.route s) = n -> length (Routing.new_route s) = n ->
    let run := fold_left (fun s p => Routing.try_swap nodes n (fst p) (snd p) s) pairs in
    Routing.improved (run s) = false ->
    Routing.route (run s) = Routing.route s
    /\ Routing.best_distance (run s) = Routing.best_distance s
    /\ forall p, In p pairs ->
         f_lt (Routing.calculate_route_distance nodes
                 (reversed_segment (Routing.route s) (fst p) (snd p)) n)
           (f_sub (Routing.best_distance s) (f_lit 1 1000)) = false.
Proof.
  induction pairs as [|[i j] pairs IH]; intros s Hv Hr Hn run Hq.
  - cbn. repeat split. intros p [].
  - destruct (Hv (i, j) ltac:(by left)) as [Hij Hj]. cbn in Hij, Hj.
    unfold run in *. cbn [fold_left fst snd] in *.
    assert (Hr1 : length (Routing.route (Routing.try_swap nodes n i j s)) = n).
    { rewrite try_swap_unfold by done. cbv zeta.
      destruct (f_lt _ _); cbn; rewrite ?reversed_segment_length; done. }
    assert (Hn1 : length (Routing.new_route (Routing.try_swap nodes n i j s)) = n).
    { rewrite try_swap_unfold by done. cbv zeta.
      destruct (f_lt _ _); cbn; rewrite ?reversed_segment_length; done. }
    destruct (IH (Routing.try_swap nodes n i j s)
                ltac:(intros q Hq'; apply Hv; by right) Hr1 Hn1 Hq)
      as (Hroute & Hbest & Hall).
    assert (Hi1 : Routing.improved (Routing.try_swap nodes n i j s) = false).
    { destruct (swaps_replay nodes n pairs (Routing.try_swap nodes n i j s)
                  ltac:(intros q Hq'; apply Hv; by right) Hr1 Hn1 Hq) as [H _].
      exact H. }
    destruct (try_swap_quiet nodes n i j s Hij Hj Hr Hn Hi1) as (_ & Hr0 & Hb0 & Htest).
    split; [congruence|]. split; [congruence|].
    intros p [<-|Hp]; [exact Htest|].
    specialize (Hall p Hp). by rewrite Hr0, Hb0 in Hall.
Qed.

Lemma in_swap_pairs (n i j : nat) :
  1 <= i -> i < j -> j < n -> In (i, j) (swap_pairs n).
Proof.
  intros Hi Hij Hj. unfold swap_pairs. apply in_flat_map.
  exists i. split; [apply in_seq; lia|].
  apply in_map. apply in_seq. lia.
Qed.

Lemma two_opt_loop_last_pass (nodes : list Routing.DeliveryNode) (n passes : nat) :
  forall (iteration : Z) (s : Routing.search),
    length (Routing.route s) = n -> length (Routing.new_route s) = n ->
    Routing.improved s = true ->
    let r := fst (Routing.two_opt_loop passes nodes n iteration s) in
    Routing.improved r = false ->
    forall i j, 1 <= i -> i < j -> j < n ->
      f_lt (Routing.calculate_route_distance nodes
              (reversed_segment (Routing.route r) i j) n)
        (f_sub (Routing.best_distance r) (f_lit 1 1000)) = false.
Proof.
  induction passes as [|passes IH]; intros iteration s Hr Hn Hi r Hq.
  - unfold r in Hq. cbn in Hq. congruence.
  - unfold r in *. cbn [Routing.two_opt_loop] in *. rewrite Hi in *.
    assert (Hc : length (Routing.route (Routing.two_opt_pass nodes n s)) = n
                 /\ length (Routing.new_route (Routing.two_opt_pass nodes n s)) = n).
    { apply (two_opt_pass_preserves nodes n
               (fun u => length (Routing.route u) = n
                         /\ length (Routing.new_route u) = n)); [|done].
      intros i j u Hij Hj [Hu1 Hu2]. rewrite try_swap_unfold by done. cbv zeta.
      destruct (f_lt _ _); cbn; rewrite ?reversed_segment_length; done. }
    destruct Hc as [Hr1 Hn1].
    destruct (Routing.improved (Routing.two_opt_pass nodes n s)) eqn:E.
    + by apply (IH (iteration + 1)%Z (Routing.two_opt_pass nodes n s)).
    + assert (Hfst : fst (Routing.two_opt_loop passes nodes n (iteration + 1)
                            (Routing.two_opt_pass nodes n s))
                     = Routing.two_opt_pass nodes n s).
      { destruct passes; cbn [Routing.two_opt_loop]; [done|]. by rewrite E. }
      rewrite Hfst in *.
      intros i j H1 Hij Hj.
      pose proof E as E'. rewrite two_opt_pass_pairs in E' |- *.
      destruct (swaps_all_rejected nodes n (swap_pairs n)
                  {| Routing.route := Routing.route s;
                     Routing.new_route := Routing.new_route s;
                     Routing.best_distance := Routing.best_distance s;
                     Routing.improved := false |}) as (Hroute & Hbest & Hall);
        try done.
      { intros p Hp. apply swap_pairs_valid in Hp. lia. }
      rewrite Hroute, Hbest.
      apply (Hall (i, j)). by apply in_swap_pairs.
Qed.

(** X11.  When the phase reports fewer than 200 passes, the tour it
    returns is a local optimum of the 2-opt neighbourhood as the code
    measures it: no reversal of a segment [i .. j] with [1 <= i < j]
    gives a tour whose computed distance is below the recorded distance
    by more than the margin 0.001; and the recorded distance is the
    computed distance of the returned tour. *)
Theorem two_opt_local_optimum (nodes : list Routing.DeliveryNode) (n : nat)
    (route new_route : list Z) :
  length route = n -> length new_route = n ->
  let r := Routing.two_opt nodes n route new_route in
  (snd r < 200)%Z ->
  Routing.best_distance (fst r)
  = Routing.calculate_route_distance nodes (Routing.route (fst r)) n
  /\ forall i j, 1 <= i -> i < j -> j < n ->
       f_lt (Routing.calculate_route_distance nodes
               (reversed_segment (Routing.route (fst r)) i j) n)
         (f_sub (Routing.best_distance (fst r)) (f_lit 1 1000)) = false.
Proof.
  intros Hr Hn r Hit.
  assert (Hq : Routing.improved (fst r) = false).
  { apply (two_opt_loop_exit nodes n Routing.MAX_ITERATIONS 0).
    unfold r, Routing.two_opt in Hit. unfold Routing.MAX_ITERATIONS in *.
    cbn [Z.of_nat] in *. lia. }
  split.
  - assert (Hcons : consistent nodes n (fst r)).
    { unfold r, Routing.two_opt.
      apply (two_opt_loop_preserves nodes n (consistent nodes n)).
      - intros t (H1 & H2 & H3).
        apply (two_opt_pass_preserves nodes n (consistent nodes n)); [|done].
        intros i j u Hij Hj Hu. by apply try_swap_consistent.
      - unfold consistent. cbn. done. }
    by destruct Hcons as (_ & _ & Hb).
  - by apply (two_opt_loop_last_pass nodes n Routing.MAX_ITERATIONS 0
                {| Routing.route := route; Routing.new_route := new_route;
                   Routing.best_distance :=
                     Routing.calculate_route_distance nodes route n;
                   Routing.improved := true |}).
Qed.

End SearchFacts.

(** An instance of [nearest_neighbor_fallback]: four nodes. *)
Lemma nearest_neighbor_fallback_witness :
  Routing.initialize_route_nearest_neighbor (F:=binary64)
    (Routing.generate_delivery_locations 4 (fun _ => 7%Z)) [0; 0; 0; 0]%Z 4 false
  = Some (map Z.of_nat (seq 0 4)).
Proof. apply nearest_neighbor_fallback. reflexivity. Defined.

(** An instance of [two_opt_local_optimum]: a hub and three drops in
    binary64, started on the tour 0, 2, 1, 3; the phase takes two
    passes. *)
Lemma two_opt_local_optimum_witness :
  let node := fun (i x y : Z) =>
    {| Routing.id := i; Routing.x := b64_of_int x; Routing.y := b64_of_int y;
       Routing.type := "DROP"%string |} in
  let nodes := [node 0 50 50; node 1 10 10; node 2 90 10; node 3 10 90]%Z in
  let r := Routing.two_opt nodes 4 [0; 2; 1; 3]%Z [0; 0; 0; 0]%Z in
  Routing.best_distance (fst r)
  = Routing.calculate_route_distance nodes (Routing.route (fst r)) 4
  /\ forall i j, 1 <= i -> i < j -> j < 4 ->
       f_lt (Routing.calculate_route_distance nodes
               (reversed_segment (Routing.route (fst r)) i j) 4)
         (f_sub (Routing.best_distance (fst r)) (f_lit 1 1000)) = false.
Proof.
  intros node nodes.
  apply (two_opt_local_optimum (F:=binary64) nodes 4 [0; 2; 1; 3]%Z [0; 0; 0; 0]%Z);
    [reflexivity | reflexivity | vm_compute; reflexivity].
Defined.

Section GenerationFacts.

(** X12.  With [rand()] never negative, as in C, the node set of
    [optimize_route] is: the hub, node 0, at (50, 50); and for every
    [i >= 1] a drop with id [i] on the integer grid, its [x] taken from
    the earlier and its [y] from the later of two consecutive values of
    [rand()], both reduced modulo 100 to the range 0 to 99. *)
Theorem generated_layout (count : nat) (rand : nat -> Z) :
  1 <= count -> (forall k, (0 <= rand k)%Z) ->
  let nodes := Routing.generate_delivery_locations (F:=binary64) count rand in
  length nodes = count
  /\ Routing.node_at nodes 0
     = {| Routing.id := 0; Routing.x := b64_of_int 50; Routing.y := b64_of_int 50;
          Routing.type := "HUB"%string |}
  /\ forall i, 1 <= i < count ->
       exists x y : Z,
         (0 <= x <= 99)%Z /\ (0 <= y <= 99)%Z
         /\ x = (rand (2 * (i - 1))%nat mod 100)%Z
         /\ y = (rand (2 * (i - 1) + 1)%nat mod 100)%Z
         /\ Routing.node_at nodes (Z.of_nat i)
            = {| Routing.id := Z.of_nat i; Routing.x := b64_of_int x;
                 Routing.y := b64_of_int y; Routing.type := "DROP"%string |}.
Proof.
  intros Hc Hrand nodes.
  destruct (generated_nodes (F:=binary64) count rand Hc) as [Hl Hn]. fold nodes in Hl, Hn.
  split; [done|]. split.
  - pose proof (Hn 0 ltac:(lia)) as H0. change (Z.of_nat 0) with 0%Z in H0. cbn [Nat.eqb] in H0.
    rewrite H0. f_equal; by vm_compute.
  - intros i Hi.
    exists (rand (2 * (i - 1))%nat mod 100)%Z, (rand (2 * (i - 1) + 1)%nat mod 100)%Z.
    pose proof (Z.mod_pos_bound (rand (2 * (i - 1))) 100 ltac:(lia)).
    pose proof (Z.mod_pos_bound (rand (2 * (i - 1) + 1)) 100 ltac:(lia)).
    split; [lia|]. split; [lia|]. split; [done|]. split; [done|].
    rewrite (Hn i) by lia. destruct i as [|i]; [lia|]. cbn [Nat.eqb].
    rewrite !Z.rem_mod_nonneg by (apply Hrand || lia). done.
Qed.

End GenerationFacts.

(** An instance of [generated_layout]: five nodes, [rand()] returning
    17, 117, 217, ... *)
Lemma generated_layout_witness :
  let nodes := Routing.generate_delivery_locations (F:=binary64) 5
                 (fun k => (17 + 100 * Z.of_nat k)%Z) in
  length nodes = 5
  /\ Routing.node_at nodes 0
     = {| Routing.id := 0; Routing.x := b64_of_int 50; Routing.y := b64_of_int 50;
          Routing.type := "HUB"%string |}
  /\ forall i, 1 <= i < 5 ->
       exists x y : Z,
         (0 <= x <= 99)%Z /\ (0 <= y <= 99)%Z
         /\ x = ((17 + 100 * Z.of_nat (2 * (i - 1))%nat) mod 100)%Z
         /\ y = ((17 + 100 * Z.of_nat (2 * (i - 1) + 1)%nat) mod 100)%Z
         /\ Routing.node_at nodes (Z.of_nat i)
            = {| Routing.id := Z.of_nat i; Routing.x := b64_of_int x;
                 Routing.y := b64_of_int y; Routing.type := "DROP"%string |}.
Proof.
  apply (generated_layout 5 (fun k => (17 + 100 * Z.of_nat k)%Z)); [lia|].
  intros k. lia.
Defined.

Section Greedy.
Context {F : Type} {ops : FloatOps F} {inf : FloatInf F}.
Variable nodes : list (Routing.DeliveryNode (F:=F)).
Variable count : nat.
Hypothesis Hnodes : length nodes = count.
Hypothesis Hfinite : finite_distances nodes.
Hypothesis Hirr : forall a : F, f_lt a a = false.
Hypothesis Htr :
  forall a b c : F, f_lt a b = true -> f_lt b c = true -> f_lt a c = true.
Hypothesis Hco :
  forall (a c : F) (u v : Routing.DeliveryNode),
    In u nodes -> In v nodes ->
    f_lt a c = true ->
    f_lt a (Routing.calculate_distance u v) = true
    \/ f_lt (Routing.calculate_distance u v) c = true.

(** The scan for the nearest unvisited node returns the first of the
    unvisited nodes at the least distance. *)
Lemma nearest_unvisited_least (visited : list bool) (current : nat) :
  1 <= count -> current < count ->
  let dist := fun j => Routing.calculate_distance
                         (Routing.node_at nodes (Z.of_nat current))
                         (Routing.node_at nodes (Z.of_nat j)) in
  let nearest := snd (Routing.nearest_unvisited nodes count visited
                        (Z.of_nat current)) in
  (nearest = (-1)%Z /\ forall j, 1 <= j < count -> nth j visited false = true)
  \/ (exists j0, nearest = Z.of_nat j0 /\ 1 <= j0 < count
                 /\ nth j0 visited false = false
                 /\ (forall j, 1 <= j < count -> nth j visited false = false ->
                       f_lt (dist j) (dist j0) = false)
                 /\ (forall j, 1 <= j < j0 -> nth j visited false = false ->
                       f_lt (dist j0) (dist j) = true)).
Proof.
  intros Hc Hcur dist nearest. unfold nearest, Routing.nearest_unvisited.
  pose (P := fun (n : nat) (s : F * Z) =>
               (snd s = (-1)%Z /\ fst s = f_inf
                /\ forall j, 1 <= j < n -> nth j visited false = true)
               \/ (exists j0, snd s = Z.of_nat j0 /\ 1 <= j0 < n
                              /\ nth j0 visited false = false
                              /\ fst s = dist j0
                              /\ (forall j, 1 <= j < n -> nth j visited false = false ->
                                    f_lt (dist j) (dist j0) = false)
                              /\ (forall j, 1 <= j < j0 -> nth j visited false = false ->
                                    f_lt (dist j0) (dist j) = true))).
  match goal with
  | |- context [for_loop 1 count ?body ?s] =>
      assert (HP : P count (for_loop 1 count body s))
  end.
  { apply for_loop_inv; [done| |].
    - left. split_and!; try done. intros; lia.
    - intros n [m nr] Hn HPn. unfold P in *. cbn [fst snd] in *.
      fold (dist n).
      destruct (nth n visited false) eqn:Ev; cbn [negb].
      + destruct HPn as [(-> & -> & Hall)|(j0 & -> & Hj & Hvj & -> & Hmin & Hfirst)].
        * left. split_and!; try done. intros j Hj.
          destruct (decide (j = n)) as [->|Hne]; [done|apply Hall; lia].
        * right. exists j0. split_and!; try done; try lia.
          intros j Hjn Hvis. destruct (decide (j = n)) as [->|Hne]; [congruence|].
          apply Hmin; [lia|done].
      + destruct HPn as [(-> & -> & Hall)|(j0 & -> & Hj & Hvj & -> & Hmin & Hfirst)].
        * right. exists n.
          assert (Hfin : f_lt (dist n) f_inf = true).
          { unfold dist. apply Hfinite; apply (node_at_In nodes count Hnodes); lia. }
          rewrite Hfin. cbn [fst snd]. split_and!; try done; try lia.
          -- intros j Hjn Hvis. destruct (decide (j = n)) as [->|Hne]; [apply Hirr|].
             rewrite Hall in Hvis by lia. discriminate.
          -- intros j Hjn Hvis. rewrite Hall in Hvis by lia. discriminate.
        * destruct (f_lt (dist n) (dist j0)) eqn:Elt; cbn [fst snd]; right.
          -- exists n. split_and!; try done; try lia.
             ++ intros j Hjn Hvis. destruct (decide (j = n)) as [->|Hne]; [apply Hirr|].
                destruct (f_lt (dist j) (dist n)) eqn:E; [|done].
                exfalso. pose proof (Htr _ _ _ E Elt) as Hbad.
                rewrite Hmin in Hbad by (lia || done). discriminate.
             ++ intros j Hjn Hvis.
                destruct (Hco (dist n) (dist j0)
                            (Routing.node_at nodes (Z.of_nat current))
                            (Routing.node_at nodes (Z.of_nat j))) as [H|H];
                  try done; try (apply (node_at_In nodes count Hnodes); lia).
                fold (dist j) in H. rewrite Hmin in H by (lia || done). discriminate.
          -- exists j0. split_and!; try done; try lia.
             intros j Hjn Hvis. destruct (decide (j = n)) as [->|Hne]; [done|].
             apply Hmin; [lia|done]. }
  destruct HP as [(H1 & _ & H2)|(j0 & H1 & H2 & H3 & _ & H4 & H5)]; [left|right]; [done|].
  exists j0. done.
Qed.

(** The greedy property of the entry at [p]. *)
Let greedy (r : list Z) (p : nat) : Prop :=
  forall j, 1 <= j < count -> Z.of_nat j ∉ take p r ->
    let cur := Routing.node_at nodes (Routing.stop_at r (p - 1)) in
    f_lt (Routing.calculate_distance cur (Routing.node_at nodes (Z.of_nat j)))
         (Routing.calculate_distance cur
            (Routing.node_at nodes (Routing.stop_at r p))) = false
    /\ ((Z.of_nat j < Routing.stop_at r p)%Z ->
        f_lt (Routing.calculate_distance cur
                (Routing.node_at nodes (Routing.stop_at r p)))
             (Routing.calculate_distance cur (Routing.node_at nodes (Z.of_nat j)))
        = true).

Lemma nearest_neighbor_greedy_steps (route : list Z) :
  1 <= count -> length route = count ->
  exists route0,
    Routing.initialize_route_nearest_neighbor nodes route count true = Some route0
    /\ length route0 = count
    /\ Routing.stop_at route0 0 = 0%Z
    /\ forall p, 1 <= p < count -> greedy route0 p.
Proof.
  intros Hc Hlen. unfold Routing.initialize_route_nearest_neighbor. cbn [negb].
  pose (Q := fun (i : nat) (st : option (list Z * list bool)) =>
               exists r vis,
                 st = Some (r, vis)
                 /\ length r = count /\ length vis = count
                 /\ NoDup (take i r)
                 /\ (forall z, z ∈ take i r -> exists v, z = Z.of_nat v /\ v < count)
                 /\ (forall v, v < count ->
                       nth v vis false = true <-> Z.of_nat v ∈ take i r)
                 /\ nth 0 vis false = true
                 /\ Routing.stop_at r 0 = 0%Z
                 /\ forall p, 1 <= p < i -> greedy r p).
  match goal with
  | |- context [for_loop 1 count ?body ?s] =>
      assert (HQ : Q count (for_loop 1 count body s))
  end.
  { apply for_loop_inv; [done| |].
    - exists (<[0 := 0%Z]> route), (<[0 := true]> (repeat false count)).
      assert (Ht : take 1 (<[0 := 0%Z]> route) = [0%Z]).
      { destruct route; simpl in *; [lia|]. by rewrite take_0. }
      rewrite Ht.
      split; [done|]. split; [by rewrite length_insert|].
      split; [by rewrite length_insert, repeat_length|].
      split; [apply NoDup_singleton|].
      split.
      { intros z Hz. apply list_elem_of_singleton in Hz as ->.
        exists 0. split; [done|lia]. }
      split.
      { intros v Hv. split.
        - intros Hn. apply list_elem_of_singleton.
          destruct (decide (v = 0)) as [->|Hne]; [done|].
          rewrite nth_insert_ne, nth_repeat in Hn by lia. done.
        - intros Hn. apply list_elem_of_singleton in Hn.
          assert (v = 0) as -> by lia.
          apply nth_insert_eq. rewrite repeat_length. lia. }
      split; [apply nth_insert_eq; rewrite repeat_length; lia|].
      split; [unfold Routing.stop_at; apply nth_insert_eq; lia|].
      intros p Hp. lia.
    - intros i st Hi (r & vis & -> & Hlr & Hlv & Hnd & Hval & Hvis & H0 & Hhub & Hgr).
      destruct (Hval (Routing.stop_at r (i - 1))) as (cur & Hcur & Hcurlt).
      { apply elem_of_take. exists (i - 1). split; [|lia].
        apply stop_at_lookup. lia. }
      rewrite Hcur.
      destruct (nearest_unvisited_least vis cur Hc Hcurlt)
        as [[Hnone Hall]|(j & Hj & Hjr & Hjv & Hmin & Hfirst)].
      + exfalso.
        assert (Hsub : map Z.of_nat (seq 0 count) ⊆+ take i r).
        { apply NoDup_submseteq; [apply indices_NoDup|].
          intros z Hz. apply elem_of_indices in Hz as (v & -> & Hv).
          apply Hvis; [done|].
          destruct (decide (v = 0)) as [->|Hne]; [done|apply Hall; lia]. }
        apply submseteq_length in Hsub.
        rewrite length_map, length_seq, length_take in Hsub. lia.
      + rewrite Hj.
        assert (Hneg : (Z.of_nat j <? 0)%Z = false) by (apply Z.ltb_ge; lia).
        rewrite Hneg, Nat2Z.id.
        assert (Ht : take (S i) (<[i := Z.of_nat j]> r) = take i r ++ [Z.of_nat j]).
        { rewrite (take_S_r _ _ (Z.of_nat j))
            by (apply list_lookup_insert_eq; lia).
          by rewrite take_insert_ge by lia. }
        exists (<[i := Z.of_nat j]> r), (<[j := true]> vis). rewrite Ht.
        split; [done|]. split; [by rewrite length_insert|].
        split; [by rewrite length_insert|]. split.
        { apply NoDup_app. repeat split; [done| |apply NoDup_singleton].
          intros z Hz Hz2. apply list_elem_of_singleton in Hz2 as ->.
          apply Hvis in Hz; [|lia]. congruence. }
        split.
        { intros z Hz. apply elem_of_app in Hz as [Hz|Hz]; [by apply Hval|].
          apply list_elem_of_singleton in Hz as ->. exists j. split; [done|lia]. }
        split.
        { intros v Hv. split.
          - intros Hn. apply elem_of_app.
            destruct (decide (v = j)) as [->|Hne];
              [right; by apply list_elem_of_singleton|].
            left. apply Hvis; [done|]. by rewrite nth_insert_ne in Hn by done.
          - intros Hn. apply elem_of_app in Hn as [Hn|Hn].
            + destruct (decide (v = j)) as [->|Hne];
                [apply nth_insert_eq; lia|].
              rewrite nth_insert_ne by done. by apply Hvis.
            + apply list_elem_of_singleton in Hn.
              assert (v = j) as -> by lia. apply nth_insert_eq. lia. }
        split.
        { destruct (decide (j = 0)) as [->|Hne]; [lia|].
          by rewrite nth_insert_ne by done. }
        split.
        { unfold Routing.stop_at in *. rewrite nth_insert_ne by lia. done. }
        intros p Hp. unfold greedy.
        assert (Hstop : forall q, q <> i ->
                  Routing.stop_at (<[i := Z.of_nat j]> r) q = Routing.stop_at r q).
        { intros q Hq. unfold Routing.stop_at. by rewrite nth_insert_ne. }
        destruct (decide (p = i)) as [->|Hne].
        * intros k Hk Hnot. rewrite Hstop by lia.
          assert (Hsi : Routing.stop_at (<[i := Z.of_nat j]> r) i = Z.of_nat j).
          { unfold Routing.stop_at. apply nth_insert_eq. lia. }
          rewrite Hsi, Hcur. rewrite take_insert_ge in Hnot by lia.
          assert (Hkv : nth k vis false = false).
          { destruct (nth k vis false) eqn:E; [|done].
            exfalso. apply Hnot. apply Hvis; [lia|done]. }
          split; [by apply Hmin|].
          intros Hlt. apply Hfirst; [lia|done].
        * intros k Hk Hnot. rewrite !Hstop by lia.
          rewrite take_insert_ge in Hnot by lia.
          apply (Hgr p ltac:(lia) k Hk Hnot). }
  destruct HQ as (r & vis & -> & Hlr & Hlv & _ & _ & _ & _ & Hhub & Hgr).
  exists r. done.
Qed.

End Greedy.

(** X13.  With the [calloc] succeeding, the initial tour of
    [optimize_route] is the greedy nearest-neighbour tour from the hub,
    in binary64 and for every node set it generates: it starts at node
    0, and at each later position [p] no node that is not yet on the
    tour (the hub never is a candidate) is strictly nearer to the
    previous stop than the node chosen, and every such node of a lower
    index is strictly farther: among equally near nodes the lowest index
    is taken. *)
Theorem nearest_neighbor_greedy (rand : nat -> Z) (num_stops : Z) :
  let count := Z.to_nat (Routing.clamp_stops num_stops) in
  let nodes := Routing.generate_delivery_locations (F:=binary64) count rand in
  exists route0,
    Routing.initialize_route_nearest_neighbor nodes (repeat 0%Z count) count true
    = Some route0
    /\ Routing.stop_at route0 0 = 0%Z
    /\ forall p j, 1 <= p < count -> 1 <= j < count ->
         (forall q, q < p -> Routing.stop_at route0 q <> Z.of_nat j) ->
         let cur := Routing.node_at nodes (Routing.stop_at route0 (p - 1)) in
         let chosen := Routing.node_at nodes (Routing.stop_at route0 p) in
         let other := Routing.node_at nodes (Z.of_nat j) in
         f_lt (Routing.calculate_distance cur other)
              (Routing.calculate_distance cur chosen) = false
         /\ ((Z.of_nat j < Routing.stop_at route0 p)%Z ->
             f_lt (Routing.calculate_distance cur chosen)
                  (Routing.calculate_distance cur other) = true).
Proof.
  intros count nodes.
  pose proof (clamp_stops_range num_stops) as Hrange.
  assert (Hc : 1 <= count) by (unfold count; lia).
  destruct (generated_nodes (F:=binary64) count rand Hc) as [Hl _]. fold nodes in Hl.
  pose proof (generated_distances_finite count rand Hc) as Hfin. fold nodes in Hfin.
  destruct (nearest_neighbor_greedy_steps nodes count Hl Hfin SFltb_irrefl SFltb_trans)
    with (route := repeat 0%Z count) as (route0 & Hnn & Hlen & Hhub & Hgr);
    [|done|apply repeat_length|].
  { intros a c u v Hu Hv Hac. apply SFltb_cotrans; [|done].
    intros Hnan. specialize (Hfin u v Hu Hv).
    change (@f_lt binary64 b64_ops) with SFltb in Hfin.
    rewrite Hnan in Hfin. by rewrite SFltb_nan_l in Hfin. }
  exists route0. split; [done|]. split; [done|].
  intros p j Hp Hj Hfresh cur chosen other.
  apply (Hgr p Hp j Hj).
  intros Hin. apply elem_of_take in Hin as (q & Hq & Hqp).
  apply (Hfresh q Hqp). unfold Routing.stop_at.
  by apply nth_lookup_Some.
Qed.

(** ** Magnitudes *)

Section Magnitude.
Variables prec emax : Z.
Hypothesis prec_pos : (0 < prec)%Z.
Hypothesis prec_emax : (prec <= emax)%Z.
Hypothesis emax_two : (2 <= emax)%Z.

Local Open Scope Z_scope.

(** An integer of at most [prec] bits is a canonical number. *)
Lemma canonical_of_Z (z : Z) :
  0 < z < 2 ^ prec ->
  exists (mb : positive) (eb : Z),
    canonical_mantissa prec emax mb eb = true
    /\ 1 - prec <= eb <= 0
    /\ Z.pos mb = z * 2 ^ (- eb)
    /\ 2 ^ (prec - 1) <= Z.pos mb.
Proof.
  intros [Hz0 Hz].
  destruct z as [|p|p]; try lia.
  pose proof (digits2_pos_bounds p) as [Hlo Hhi].
  set (d := Z.pos (digits2_pos p)) in *.
  assert (Hd : 1 <= d <= prec).
  { split; [unfold d; lia|]. apply digits2_pos_le. lia. }
  pose proof (pow2_pos (prec - d) ltac:(lia)) as Hp.
  assert (Hm : 0 < Z.pos p * 2 ^ (prec - d)) by lia.
  exists (Z.to_pos (Z.pos p * 2 ^ (prec - d))), (d - prec).
  rewrite Z2Pos.id by done.
  replace (- (d - prec)) with (prec - d) by lia.
  assert (Hlow : 2 ^ (prec - 1) <= Z.pos p * 2 ^ (prec - d)).
  { replace (prec - 1) with ((d - 1) + (prec - d)) by lia.
    rewrite pow2_split by lia. nia. }
  assert (Hhigh : Z.pos p * 2 ^ (prec - d) < 2 ^ prec).
  { replace prec with (d + (prec - d)) at 2 by lia.
    rewrite pow2_split by lia. nia. }
  split; [|split; [lia|split; [done|done]]].
  unfold canonical_mantissa. apply Z.eqb_eq.
  assert (Hdig : Z.pos (digits2_pos (Z.to_pos (Z.pos p * 2 ^ (prec - d)))) = prec).
  { apply Z.le_antisymm.
    - apply digits2_pos_le. by rewrite Z2Pos.id.
    - replace prec with ((prec - 1) + 1) at 1 by lia.
      apply digits2_pos_ge. by rewrite Z2Pos.id. }
  rewrite Hdig. unfold fexp, emin. lia.
Qed.

Lemma sf_below_mono (x : spec_float) (z z' : Z) :
  z <= z' -> sf_below x z = true -> sf_below x z' = true.
Proof.
  intros Hz. destruct x as [s|s| |[] m e]; try done. cbn.
  intros H. apply andb_true_iff in H as [He Hm].
  apply Z.leb_le in He, Hm. apply andb_true_iff.
  split; [by apply Z.leb_le|]. apply Z.leb_le.
  pose proof (pow2_pos (- e) ltac:(lia)). nia.
Qed.

(** The sum of two numbers below [zx] and [zy] is below [zx + zy]:
    rounding to nearest does not step over an integer of the format. *)
Lemma SFadd_below (x y : spec_float) (zx zy : Z) :
  nonneg_valid prec emax x = true -> nonneg_valid prec emax y = true ->
  sf_below x zx = true -> sf_below y zy = true ->
  0 <= zx -> 0 <= zy -> zx + zy < 2 ^ prec ->
  nonneg_valid prec emax (SFadd prec emax x y) = true
  /\ sf_below (SFadd prec emax x y) (zx + zy) = true.
Proof.
  intros Hvx Hvy Hbx Hby Hzx Hzy Hsum.
  split; [by apply SFadd_nonneg_valid|].
  destruct x as [sx|sx| |[] mx ex], y as [sy|sy| |[] my ey]; try done.
  - by destruct sx, sy.
  - destruct sx; cbn [SFadd]; apply (sf_below_mono _ zy); (lia || done).
  - destruct sy; cbn [SFadd]; apply (sf_below_mono _ zx); (lia || done).
  - cbn [sf_below] in Hbx, Hby.
    apply andb_true_iff in Hbx as [Hex Hmx], Hby as [Hey Hmy].
    apply Z.leb_le in Hex, Hmx, Hey, Hmy.
    cbn [nonneg_valid negb andb] in Hvx, Hvy. unfold bounded in Hvx, Hvy.
    apply andb_true_iff in Hvx as [Hcx _], Hvy as [Hcy _].
    pose proof (canonical_emin prec emax _ _ Hcx) as Hminx.
    pose proof (canonical_emin prec emax _ _ Hcy) as Hminy.
    pose proof (pow2_pos (- ex) ltac:(lia)) as Hpx.
    pose proof (pow2_pos (- ey) ltac:(lia)) as Hpy.
    assert (Hzx1 : 1 <= zx) by nia.
    assert (Hzy1 : 1 <= zy) by nia.
    destruct (canonical_of_Z (zx + zy) ltac:(lia))
      as (mb & eb & Hcb & Heb & Hmb & Hmblo).
    (* the exponents of the terms are not above that of the bound *)
    assert (Hexp : forall (m : positive) (e z : Z),
               canonical_mantissa prec emax m e = true -> e <= 0 ->
               Z.pos m <= z * 2 ^ (- e) -> 1 <= z <= zx + zy -> e <= eb).
    { intros m e z Hc He Hm Hz.
      unfold canonical_mantissa in Hc, Hcb. apply Z.eqb_eq in Hc, Hcb.
      rewrite <- Hc, <- Hcb. apply fexp_mono.
      pose proof (pow2_pos (- e) ltac:(lia)) as Hpe.
      pose proof (pow2_pos (- eb) ltac:(lia)) as Hpb.
      pose proof (digits2_pos_bounds mb) as [Hblo _].
      assert (Hlt : Z.pos m < 2 ^ (Z.pos (digits2_pos mb) + eb - e)).
      { pose proof (digits2_pos_bounds mb) as [_ Hbhi].
        assert (Hdb : Z.pos (digits2_pos mb) = prec).
        { unfold fexp, emin in Hcb. 
          assert (prec <= Z.pos (digits2_pos mb)).
          { replace prec with ((prec - 1) + 1) by lia. by apply digits2_pos_ge. }
          lia. }
        rewrite Hdb.
        replace (prec + eb - e) with ((prec + eb) + (- e)) by lia.
        rewrite pow2_split by lia.
        assert (zx + zy < 2 ^ (prec + eb)).
        { rewrite Hdb in Hbhi.
          assert (Hpp : 2 ^ prec = 2 ^ (prec + eb) * 2 ^ (- eb)).
          { rewrite <- pow2_split by lia. f_equal. lia. }
          pose proof (pow2_pos (prec + eb) ltac:(lia)). nia. }
        nia. }
      apply digits2_pos_le in Hlt. lia. }
    assert (Hexb : ex <= eb) by (apply (Hexp mx ex zx); (done || lia)).
    assert (Heyb : ey <= eb) by (apply (Hexp my ey zy); (done || lia)).
    cbn [SFadd cond_Zopp].
    pose proof (shl_align_value mx ex (Z.min ex ey)) as Hax.
    pose proof (shl_align_value my ey (Z.min ex ey)) as Hay.
    destruct (shl_align mx ex _) as [mx' ex'], (shl_align my ey _) as [my' ey'].
    cbn [fst]. destruct Hax as [Hex' Hmx'], Hay as [Hey' Hmy'].
    set (ez := Z.min ex ey) in *.
    assert (Hez1 : ex' = ez) by lia. assert (Hez2 : ey' = ez) by lia.
    rewrite Hez1 in Hmx'. rewrite Hez2 in Hmy'.
    change (Z.pos mx' + Z.pos my') with (Z.pos (mx' + my')).
    cbn [binary_normalize].
    destruct (binary_round_spec prec emax prec_pos false (mx' + my') ez
                ltac:(unfold ez; lia)) as (m2 & e2 & -> & Hc2 & Hle).
    pose proof (pow2_pos (ex - ez) ltac:(unfold ez; lia)) as Hp1.
    pose proof (pow2_pos (ey - ez) ltac:(unfold ez; lia)) as Hp2.
    pose proof (pow2_pos (- ez) ltac:(unfold ez; lia)) as Hp3.
    pose proof (pow2_pos (eb - ez) ltac:(unfold ez; lia)) as Hp4.
    pose proof (pow2_pos (- eb) ltac:(lia)) as Hp5.
    assert (Hsx : Z.pos mx' <= zx * 2 ^ (- ez)).
    { rewrite Hmx'. replace (- ez) with ((- ex) + (ex - ez)) by lia.
      rewrite pow2_split by (unfold ez; lia). nia. }
    assert (Hsy : Z.pos my' <= zy * 2 ^ (- ez)).
    { rewrite Hmy'. replace (- ez) with ((- ey) + (ey - ez)) by lia.
      rewrite pow2_split by (unfold ez; lia). nia. }
    assert (Hbz : Z.pos mb * 2 ^ (eb - ez) = (zx + zy) * 2 ^ (- ez)).
    { rewrite Hmb. replace (- ez) with ((- eb) + (eb - ez)) by lia.
      rewrite pow2_split by (unfold ez; lia). lia. }
    destruct (Hle mb eb Hcb ltac:(unfold ez; lia)) as [Hlt|[-> Hm2]].
    { rewrite Hbz, Pos2Z.inj_add. lia. }
    + assert ((e2 <=? emax - prec) = true) as -> by (apply Z.leb_le; lia).
      cbn [sf_below]. apply andb_true_iff. split; [apply Z.leb_le; lia|].
      apply Z.leb_le.
      unfold canonical_mantissa in Hc2. apply Z.eqb_eq in Hc2.
      assert (Hd2 : Z.pos (digits2_pos m2) <= prec).
      { unfold fexp in Hc2. lia. }
      pose proof (digits2_pos_bounds m2) as [_ Hhi2].
      assert (Z.pos m2 < 2 ^ prec).
      { eapply Z.lt_le_trans; [exact Hhi2|]. apply Z.pow_le_mono_r; lia. }
      assert (Hpr : 2 ^ prec = 2 * 2 ^ (prec - 1)).
      { replace prec with (Z.succ (prec - 1)) at 1 by lia.
        apply Z.pow_succ_r. lia. }
      replace (- e2) with ((- eb) + (eb - e2)) by lia.
      rewrite pow2_split by lia.
      assert (2 <= 2 ^ (eb - e2)).
      { change 2 with (2 ^ 1) at 1. apply Z.pow_le_mono_r; lia. }
      rewrite Z.mul_assoc, <- Hmb. nia.
    + assert ((eb <=? emax - prec) = true) as -> by (apply Z.leb_le; lia).
      cbn [sf_below]. apply andb_true_iff. split; [apply Z.leb_le; lia|].
      apply Z.leb_le. lia.
Qed.

End Magnitude.

Section ReportedDistance.

Lemma grid_roots_below_checked :
  forallb (fun p => forallb (root_below p) (zrange 0 198)) (zrange 0 198) = true.
Proof. vm_cast_no_check (eq_refl true). Qed.

Lemma grid_distance_below (a b : Routing.DeliveryNode (F:=binary64)) :
  on_grid (Routing.x a) -> on_grid (Routing.y a) ->
  on_grid (Routing.x b) -> on_grid (Routing.y b) ->
  sf_below (Routing.calculate_distance a b) 281 = true.
Proof.
  intros (xa & Hxa & Exa) (ya & Hya & Eya) (xb & Hxb & Exb) (yb & Hyb & Eyb).
  unfold Routing.calculate_distance. rewrite Exa, Eya, Exb, Eyb.
  change (@f_sub binary64 b64_ops) with (SFsub 53 1024).
  change (@f_mul binary64 b64_ops) with (SFmul 53 1024).
  change (@f_add binary64 b64_ops) with (SFadd 53 1024).
  change (@f_sqrt binary64 b64_ops) with (SFsqrt 53 1024).
  rewrite !grid_difference, !grid_square by lia.
  apply (forallb2_spec root_below (zrange 0 198) (zrange 0 198)
           grid_roots_below_checked); apply in_zrange; lia.
Qed.

(** The distance of a route over [count] generated nodes is a finite
    number, not negative and at most [281 * count]. *)
Lemma route_distance_below (count : nat) (rand : nat -> Z) (route : list Z) :
  1 <= count -> count <= 100 ->
  let d := Routing.calculate_route_distance
             (Routing.generate_delivery_locations (F:=binary64) count rand)
             route count in
  nonneg_valid 53 1024 d = true /\ sf_below d (281 * Z.of_nat count) = true.
Proof.
  intros Hc Hmax d. unfold d, Routing.calculate_route_distance.
  destruct (count <? 2); [by vm_compute|].
  assert (Hd : forall r1 r2,
             let e := Routing.calculate_distance
                        (Routing.node_at
                           (Routing.generate_delivery_locations (F:=binary64) count rand) r1)
                        (Routing.node_at
                           (Routing.generate_delivery_locations (F:=binary64) count rand) r2) in
             nonneg_valid 53 1024 e = true /\ sf_below e 281 = true).
  { intros r1 r2 e.
    destruct (node_at_on_grid count rand r1 Hc), (node_at_on_grid count rand r2 Hc).
    split; [by apply grid_distance_valid|by apply grid_distance_below]. }
  change (@f_add binary64 b64_ops) with (SFadd 53 1024).
  assert (Hpow : (281 * 100 < 2 ^ 53)%Z) by (by vm_compute).
  match goal with
  | |- context [SFadd 53 1024 (for_loop 0 (count - 1) ?body ?s0) _] =>
      set (t := for_loop 0 (count - 1) body s0)
  end.
  assert (Hloop : nonneg_valid 53 1024 t = true
                  /\ sf_below t (281 * Z.of_nat (count - 1)) = true).
  { unfold t.
    apply (for_loop_inv
             (fun i (u : binary64) =>
                nonneg_valid 53 1024 u = true
                /\ sf_below u (281 * Z.of_nat i) = true)); [lia|by vm_compute|].
    intros i u Hi [Hv Hb].
    destruct (Hd (Routing.stop_at route i) (Routing.stop_at route (i + 1))) as [Hv' Hb'].
    replace (281 * Z.of_nat (S i))%Z with (281 * Z.of_nat i + 281)%Z by lia.
    apply (SFadd_below 53 1024); (done || lia). }
  destruct Hloop as [Hv Hb].
  destruct (Hd (Routing.stop_at route (count - 1)) (Routing.stop_at route 0)) as [Hv' Hb'].
  replace (281 * Z.of_nat count)%Z with (281 * Z.of_nat (count - 1) + 281)%Z by lia.
  apply (SFadd_below 53 1024); (done || lia).
Qed.

(** What [plan_route] hands to the output: it is always defined, the
    best distance is the computed distance of the route kept, a number
    that is not negative and at most 281 per stop, and the pass count lies
    between 1 and 200. *)
Lemma plan_route_outcome (calloc_ok : bool) (rand : nat -> Z) (num_stops : Z) :
  let count := Z.to_nat (Routing.clamp_stops num_stops) in
  exists route0 s iteration,
    Routing.plan_route (F:=binary64) count calloc_ok rand
    = Some (Routing.generate_delivery_locations count rand, route0, (s, iteration))
    /\ Routing.best_distance s
       = Routing.calculate_route_distance
           (Routing.generate_delivery_locations count rand) (Routing.route s) count
    /\ nonneg_valid 53 1024 (Routing.best_distance s) = true
    /\ sf_below (Routing.best_distance s) (281 * Z.of_nat count) = true
    /\ (1 <= iteration <= 200)%Z.
Proof.
  intros count.
  pose proof (clamp_stops_range num_stops) as Hrange.
  assert (Hc : 1 <= count) by (unfold count; lia).
  assert (Hmax : count <= 100) by (unfold count; lia).
  pose (nodes := Routing.generate_delivery_locations (F:=binary64) count rand).
  destruct (generated_nodes (F:=binary64) count rand Hc) as [Hl _].
  fold nodes in Hl |- *.
  destruct (nearest_neighbor_is_tour nodes count Hl
              (generated_distances_finite count rand Hc)
              (repeat 0%Z count) calloc_ok Hc (repeat_length _ _))
    as (route0 & Hnn & Ht0).
  destruct (two_opt_tour nodes count route0 (repeat 0%Z count) Ht0
              (repeat_length _ _)) as [_ Hcs].
  assert (Hit : (1 <= snd (Routing.two_opt nodes count route0 (repeat 0%Z count))
                 <= 200)%Z).
  { unfold Routing.two_opt.
    destruct (two_opt_loop_count nodes count Routing.MAX_ITERATIONS 0
                {| Routing.route := route0; Routing.new_route := repeat 0%Z count;
                   Routing.best_distance :=
                     Routing.calculate_route_distance nodes route0 count;
                   Routing.improved := true |}) as [H1 H2].
    specialize (H2 ltac:(unfold Routing.MAX_ITERATIONS; lia) eq_refl).
    unfold Routing.MAX_ITERATIONS in *. lia. }
  destruct (Routing.two_opt nodes count route0 (repeat 0%Z count))
    as [s iteration] eqn:Etwo.
  cbn [fst] in Hcs. cbn [snd] in Hit. destruct Hcs as (_ & _ & Hbest).
  exists route0, s, iteration.
  split; [unfold Routing.plan_route; fold nodes; by rewrite Hnn, Etwo|].
  split; [done|].
  destruct (route_distance_below count rand (Routing.route s) Hc Hmax) as [Hv Hb].
  fold nodes in Hv, Hb. rewrite <- Hbest in Hv, Hb. done.
Qed.

(** X14.  The distance that [optimize_route] reports is always a finite
    number, never negative, NaN or infinite, and at most 281 per stop,
    whatever the stop count requested, the outcome of the [calloc] and
    the values of [rand()]; and it is the computed distance of the tour
    reported with it. *)
Theorem reported_distance_finite (calloc_ok : bool) (rand : nat -> Z) (num_stops : Z) :
  let count := Z.to_nat (Routing.clamp_stops num_stops) in
  exists nodes route0 s iteration,
    Routing.plan_route (F:=binary64) count calloc_ok rand
    = Some (nodes, route0, (s, iteration))
    /\ Routing.best_distance s
       = Routing.calculate_route_distance nodes (Routing.route s) count
    /\ is_finite (Routing.best_distance s) = true
    /\ SFltb (Routing.best_distance s) (S754_zero false) = false
    /\ sf_below (Routing.best_distance s) (281 * Z.of_nat count) = true.
Proof.
  intros count.
  destruct (plan_route_outcome calloc_ok rand num_stops)
    as (route0 & s & iteration & Hplan & Hbest & Hv & Hb & _).
  fold count in Hplan, Hbest, Hb.
  exists (Routing.generate_delivery_locations count rand), route0, s, iteration.
  split; [done|]. split; [done|].
  destruct (Routing.best_distance s) as [[]|[]| |[] m e]; done.
Qed.

End ReportedDistance.

(** ** The length of printed numbers *)

Section PrintedLength.

Lemma chars_length (s : string) : length (chars s) = String.length s.
Proof. induction s as [|c s IH]; [done|]. cbn. by rewrite <- IH. Qed.

Lemma string_of_uint_length (d : Decimal.uint) :
  String.length (NilEmpty.string_of_uint d) = Decimal.nb_digits d.
Proof. induction d; cbn; congruence. Qed.

Lemma of_uint_acc_lower (d : Decimal.uint) :
  forall acc : positive,
    (Z.pos acc * 10 ^ Z.of_nat (Decimal.nb_digits d) <= Z.pos (Pos.of_uint_acc d acc))%Z.
Proof.
  induction d as [|d IH|d IH|d IH|d IH|d IH|d IH|d IH|d IH|d IH|d IH]; intros acc;
    [cbn; lia|..];
    cbn [Decimal.nb_digits Pos.of_uint_acc];
    rewrite Nat2Z.inj_succ, Z.pow_succ_r by lia;
    (etransitivity; [|apply IH]);
    pose proof (Z.pow_pos_nonneg 10 (Z.of_nat (Decimal.nb_digits d)) ltac:(lia) ltac:(lia));
    nia.
Qed.

(** A positive number below [10 ^ k] has at most [k] decimal digits. *)
Lemma to_uint_digits (p : positive) (k : nat) :
  (Z.pos p < 10 ^ Z.of_nat k)%Z -> Decimal.nb_digits (Pos.to_uint p) <= k.
Proof.
  intros Hp.
  pose proof (DecimalPos.Unsigned.of_to p) as Hof.
  pose proof (DecimalPos.Unsigned.to_of (Pos.to_uint p)) as Hto.
  rewrite Hof in Hto. change (N.to_uint (N.pos p)) with (Pos.to_uint p) in Hto.
  pose proof (DecimalPos.Unsigned.to_uint_nonzero p) as Hnz.
  assert (Hlow : (10 ^ (Z.of_nat (Decimal.nb_digits (Pos.to_uint p)) - 1) <= Z.pos p)%Z).
  { destruct (Pos.to_uint p) as [|d|d|d|d|d|d|d|d|d|d] eqn:E;
      [cbn; lia| |
       cbn [Pos.of_uint] in Hof; injection Hof as <-;
       cbn [Decimal.nb_digits]; rewrite Nat2Z.inj_succ;
       replace (Z.succ (Z.of_nat (Decimal.nb_digits d)) - 1)%Z
         with (Z.of_nat (Decimal.nb_digits d)) by lia;
       (etransitivity; [|apply of_uint_acc_lower]); lia ..].
    exfalso. rewrite DecimalFacts.unorm_D0 in Hto.
    assert (Hd : d = Decimal.Nil \/ d <> Decimal.Nil)
      by (destruct d; [by left|by right..]).
    destruct Hd as [->|Hd]; [by apply Hnz|].
    pose proof (DecimalFacts.nb_digits_unorm d Hd) as Hle.
    rewrite <- Hto in Hle. cbn [Decimal.nb_digits] in Hle. lia. }
  destruct (Nat.le_gt_cases (Decimal.nb_digits (Pos.to_uint p)) k) as [|Hgt]; [done|].
  assert ((10 ^ Z.of_nat k <= 10 ^ (Z.of_nat (Decimal.nb_digits (Pos.to_uint p)) - 1))%Z)
    by (apply Z.pow_le_mono_r; lia).
  lia.
Qed.

(** [%d] of a number of absolute value below [10 ^ k] takes at most [k]
    characters, and one more for the sign. *)
Lemma fmt_d_length (n : Z) (k : nat) :
  1 <= k -> (- 10 ^ Z.of_nat k < n < 10 ^ Z.of_nat k)%Z ->
  length (fmt_d n) <= k + (if (n <? 0)%Z then 1 else 0).
Proof.
  intros Hk Hn. unfold fmt_d. rewrite chars_length.
  destruct n as [|p|p]; cbn [Z.to_int Z.ltb Z.compare].
  - cbn. lia.
  - unfold NilZero.string_of_int, NilZero.string_of_uint.
    pose proof (to_uint_digits p k ltac:(lia)) as Hd.
    destruct (Pos.to_uint p) eqn:E; [cbn; lia|..];
      rewrite string_of_uint_length; lia.
  - unfold NilZero.string_of_int, NilZero.string_of_uint.
    pose proof (to_uint_digits p k ltac:(lia)) as Hd.
    destruct (Pos.to_uint p) eqn:E; [cbn; lia|..];
      cbn [String.length]; rewrite string_of_uint_length; lia.
Qed.

End PrintedLength.
(** ** The output loop when the region is too small for every element *)

Section EmitCut.
Variables (headroom comma_room : Z) (record : nat -> list ascii).
Variables (count : nat) (buffer_size : Z) (start : list ascii).

Let text (i : nat) : list ascii := start ++ joined count record i.

Hypothesis Hcomma : (0 <= comma_room)%Z.
Hypothesis Hrec :
  forall i, i < count -> (Z.of_nat (length (record i)) + comma_room <= headroom)%Z.

(** When no element is longer than the headroom less the room asked for
    the comma, the loop stops between two elements: it writes the
    elements before the first index at which fewer than [headroom] bytes
    are left, each with its comma. *)
Lemma emit_loop_cut (m : nat) :
  forall (i : nat) (buf : list ascii),
    i + m = count ->
    length buf = Z.to_nat buffer_size ->
    holds buf (text i) ->
    (Z.of_nat (length (text i)) + comma_room <= buffer_size)%Z ->
    let r := emit_loop headroom comma_room record m i (Z.of_nat count)
               buffer_size buf (Z.of_nat (length (text i))) in
    exists k,
      i <= k <= count
      /\ snd r = Z.of_nat (length (text k))
      /\ holds (fst r) (text k)
      /\ length (fst r) = length buf
      /\ (Z.of_nat (length (text k)) + comma_room <= buffer_size)%Z
      /\ (forall j, i <= j < k ->
            (Z.of_nat (length (text j)) < buffer_size - headroom)%Z)
      /\ (k = count \/ (buffer_size - headroom <= Z.of_nat (length (text k)))%Z).
Proof.
  induction m as [|m IH]; intros i buf Him Hlen Hholds Hinv.
  - simpl. exists i. split_and!; try done; [lia..|left; lia].
  - cbn [emit_loop].
    set (rec := record i).
    assert (HwS : text (S i) = text i ++ rec ++ separator count i)
      by exact (written_S record count start i).
    destruct (Z.of_nat (length (text i)) <? buffer_size - headroom)%Z eqn:Hguard.
    2: { apply Z.ltb_ge in Hguard. exists i. cbn [fst snd].
         split_and!; try done; [lia..|right; lia]. }
    apply Z.ltb_lt in Hguard.
    pose proof (Hrec i ltac:(lia)) as Hri. fold rec in Hri.
    unfold snprintf.
    assert (Hn : (buffer_size - Z.of_nat (length (text i)) <=? 0)%Z = false)
      by (apply Z.leb_gt; lia).
    rewrite Hn.
    assert (Hw : (Z.of_nat (length rec) <? 0)%Z
                 || (buffer_size - Z.of_nat (length (text i))
                     <=? Z.of_nat (length rec))%Z = false).
    { apply orb_false_iff. split; [apply Z.ltb_ge; lia|apply Z.leb_gt; lia]. }
    rewrite Hw.
    rewrite take_ge by lia.
    rewrite Nat2Z.id.
    set (buf1 := poke buf (length (text i)) (rec ++ [NUL])).
    assert (Hlen1 : length buf1 = length buf) by apply poke_length.
    assert (Hh1 : holds buf1 (text i ++ rec)).
    { apply (holds_app_l _ _ [NUL]). rewrite <- app_assoc.
      apply holds_poke; [done|]. rewrite length_app.
      change (length [NUL]) with 1. lia. }
    assert (Hlast : (Z.of_nat i <? Z.of_nat count - 1)%Z = (S i <? count)).
    { destruct (S i <? count) eqn:E.
      - apply Nat.ltb_lt in E. apply Z.ltb_lt. lia.
      - apply Nat.ltb_ge in E. apply Z.ltb_ge. lia. }
    rewrite Hlast.
    assert (Hroom2 : (Z.of_nat (length (text i)) + Z.of_nat (length rec)
                      <? buffer_size - comma_room)%Z = true)
      by (apply Z.ltb_lt; lia).
    rewrite Hroom2.
    unfold separator in HwS.
    destruct (S i <? count) eqn:Esep; cbn [andb].
    + replace (Z.of_nat (length (text i)) + Z.of_nat (length rec) + 1)%Z
        with (Z.of_nat (length (text (S i))))
        by (rewrite HwS, !length_app; simpl; lia).
      replace (Z.to_nat (Z.of_nat (length (text i)) + Z.of_nat (length rec)))
        with (length (text i ++ rec))
        by (rewrite length_app; lia).
      destruct (IH (S i) (<[length (text i ++ rec) := ","%char]> buf1))
        as (k & Hk & H1 & H2 & H3 & H4 & H5 & H6).
      * lia.
      * rewrite length_insert. lia.
      * rewrite HwS, app_assoc. apply holds_insert; [done|].
        rewrite length_app. lia.
      * rewrite HwS, !length_app. simpl. lia.
      * rewrite length_insert in H3. exists k.
        split_and!; try done; [lia..|].
        intros j Hj. destruct (decide (j = i)) as [->|]; [done|apply H5; lia].
    + replace (Z.of_nat (length (text i)) + Z.of_nat (length rec))%Z
        with (Z.of_nat (length (text (S i))))
        by (rewrite HwS, !length_app; simpl; lia).
      destruct (IH (S i) buf1) as (k & Hk & H1 & H2 & H3 & H4 & H5 & H6).
      * lia.
      * lia.
      * rewrite HwS, app_nil_r. done.
      * rewrite HwS, !length_app. simpl. lia.
      * exists k. split_and!; try done; [lia..|].
        intros j Hj. destruct (decide (j = i)) as [->|]; [done|apply H5; lia].
Qed.

(** The loop started behind a header that fits. *)
Lemma emit_loop_cut_after_header (buf : list ascii) :
  length buf = Z.to_nat buffer_size ->
  (Z.of_nat (length start) + comma_room <= buffer_size)%Z ->
  (Z.of_nat (length start) < buffer_size)%Z ->
  let b0 := fst (snprintf buf 0 (buffer_size - 0) start) in
  let r := emit_loop headroom comma_room record count 0 (Z.of_nat count)
             buffer_size b0 (0 + Z.of_nat (length start)) in
  exists k,
    k <= count
    /\ snd r = Z.of_nat (length (text k))
    /\ holds (fst r) (text k)
    /\ length (fst r) = length buf
    /\ (Z.of_nat (length (text k)) + comma_room <= buffer_size)%Z
    /\ (forall j, j < k -> (Z.of_nat (length (text j)) < buffer_size - headroom)%Z)
    /\ (k = count \/ (buffer_size - headroom <= Z.of_nat (length (text k)))%Z).
Proof.
  intros Hlen Hfit Hlt b0.
  assert (Hw0 : text 0 = start) by (unfold text, joined; apply app_nil_r).
  assert (Hb0 : b0 = poke buf 0 (start ++ [NUL])).
  { unfold b0, snprintf.
    assert (Hn : (buffer_size - 0 <=? 0)%Z = false) by (apply Z.leb_gt; lia).
    rewrite Hn. cbn [fst]. by rewrite take_ge by lia. }
  assert (Hlen0 : length b0 = length buf) by (rewrite Hb0; apply poke_length).
  assert (Hh0 : holds b0 (text 0)).
  { rewrite Hw0, Hb0. apply (holds_app_l _ _ [NUL]).
    apply (holds_poke buf [] (start ++ [NUL])); [intros k Hk; simpl in Hk; lia|].
    rewrite length_app. change (length [NUL]) with 1. simpl. lia. }
  destruct (emit_loop_cut count 0 b0 ltac:(lia) ltac:(lia) Hh0
              ltac:(rewrite Hw0; lia)) as (k & Hk & H1 & H2 & H3 & H4 & H5 & H6).
  rewrite Hw0 in H1, H2, H3.
  change (0 + Z.of_nat (length start))%Z with (Z.of_nat (length start)).
  exists k. split_and!; try done; [lia..|intros j Hj; apply H5; lia].
Qed.

End EmitCut.
(** ** The segmentation output in a region of any size *)

Section CutPayload.
Context {F : Type} {ops : FloatOps F} {fmt : FloatFmt F}.

Lemma joined_S (count : nat) (record : nat -> list ascii) (i : nat) :
  joined count record (S i) = joined count record i ++ record i ++ separator count i.
Proof.
  unfold joined. rewrite seq_S, map_app, concat_app. simpl.
  by rewrite app_nil_r.
Qed.

Lemma joined_no_nul (count : nat) (record : nat -> list ascii) (k : nat) :
  (forall i, Forall (fun c => c <> NUL) (record i)) ->
  Forall (fun c => c <> NUL) (joined count record k).
Proof.
  intros Hr. induction k as [|k IH]; [constructor|].
  rewrite joined_S. repeat (apply Forall_app; split); [done..|].
  unfold separator. destruct (S k <? count); repeat constructor; discriminate.
Qed.

(** A text cut after at least one element and before the last one ends
    with a comma. *)
Lemma joined_cut_comma (count : nat) (record : nat -> list ascii) (k : nat) :
  0 < k < count ->
  exists t, joined count record k = t ++ chars ",".
Proof.
  intros Hk. destruct k as [|k]; [lia|].
  rewrite joined_S. unfold separator.
  assert (E : (S k <? count) = true) by (apply Nat.ltb_lt; lia).
  rewrite E. exists (joined count record k ++ record k). by rewrite <- app_assoc.
Qed.

Lemma cluster_name_length (k : nat) :
  length (chars (Segmentation.cluster_name k)) <= 8.
Proof.
  unfold Segmentation.cluster_name.
  destruct k as [|[|[|[|k]]]]; cbn; try lia.
  destruct k; cbn; lia.
Qed.

(** A record of two 32-bit integers takes at most 63 characters besides
    the churn risk. *)
Lemma record_text_length (x y : Z) (k : nat) (churn : F) :
  (- 2 ^ 31 <= x < 2 ^ 31)%Z -> (- 2 ^ 31 <= y < 2 ^ 31)%Z ->
  length (Segmentation.record_text x y k churn) <= 63 + length (f_fmt 1 churn).
Proof.
  intros Hx Hy. unfold Segmentation.record_text, quoted.
  pose proof (fmt_d_length x 10 ltac:(lia) ltac:(lia)) as Hfx.
  pose proof (fmt_d_length y 10 ltac:(lia) ltac:(lia)) as Hfy.
  pose proof (cluster_name_length k) as Hn.
  set (fx := fmt_d x) in *. set (fy := fmt_d y) in *.
  set (nm := chars (Segmentation.cluster_name k)) in *.
  set (ch := f_fmt 1 churn).
  repeat (cbn [length app chars list_ascii_of_string]; rewrite ?length_app).
  destruct (x <? 0)%Z, (y <? 0)%Z; lia.
Qed.

Variables (count : nat) (points wallets : list Z) (assignments : list nat).
Variable buffer_size : Z.

Let record := record_of points wallets assignments.

Hypothesis Hsize : (100 <= buffer_size)%Z.
Hypothesis Hrecord : forall i, i < count -> length (record i) <= 148.

(** The region ends up holding an opening bracket, the records before
    the first one for which fewer than 150 bytes are left, each with its
    comma, a closing bracket and a NUL. *)
Lemma build_json_cut (buf : list ascii) :
  length buf = Z.to_nat buffer_size ->
  exists k,
    k <= count
    /\ holds (Segmentation.build_json (Z.of_nat count) points wallets assignments
                buffer_size buf)
         ((chars "[" ++ joined count record k ++ chars "]") ++ [NUL])
    /\ (forall j, j < k ->
          (1 + Z.of_nat (length (joined count record j)) < buffer_size - 150)%Z)
    /\ (k = count
        \/ (buffer_size - 150 <= 1 + Z.of_nat (length (joined count record k)))%Z).
Proof.
  intros Hlen.
  destruct (emit_loop_cut_after_header 150 2 record count buffer_size (chars "[")
              ltac:(lia) ltac:(intros i Hi; specialize (Hrecord i Hi); lia)
              buf Hlen ltac:(cbn; lia) ltac:(cbn; lia))
    as (k & Hk & H1 & H2 & H3 & H4 & H5 & H6).
  exists k.
  unfold Segmentation.build_json, Segmentation.emit_records.
  rewrite Nat2Z.id.
  change (fun i : nat =>
            let cluster := nth i assignments 0 in
            let churn := Segmentation.calculate_churn_risk (nth i wallets 0%Z) in
            Segmentation.record_text (nth i points 0%Z) (nth i wallets 0%Z) cluster churn)
    with record.
  destruct (snprintf buf 0 (buffer_size - 0) (chars "[")) as [b0 n0] eqn:Es.
  assert (Hn0 : n0 = Z.of_nat (length (chars "["))).
  { unfold snprintf in Es. destruct (_ <=? _)%Z; by injection Es as _ <-. }
  subst n0. cbn [fst] in H1, H2, H3.
  destruct (emit_loop _ _ _ _ _ _ _ _ _) as [buf1 off1].
  cbn [fst snd] in H1, H2, H3. subst off1.
  set (w := chars "[" ++ joined count record k) in *.
  assert (Hend : (Z.of_nat (length w) <? buffer_size - 1)%Z = true)
    by (apply Z.ltb_lt; lia).
  rewrite Hend.
  assert (Hwl : forall j, length (chars "[" ++ joined count record j)
                          = 1 + length (joined count record j))
    by (intros j; by rewrite length_app).
  split_and!.
  - done.
  - replace (Z.to_nat (Z.of_nat (length w) + 1)) with (length (w ++ chars "]"))
      by (rewrite length_app; change (length (chars "]")) with 1; lia).
    rewrite Nat2Z.id.
    replace (chars "[" ++ joined count record k ++ chars "]") with (w ++ chars "]")
      by (unfold w; by rewrite <- app_assoc).
    apply holds_insert.
    + apply holds_insert; [done|lia].
    + rewrite length_insert, length_app. change (length (chars "]")) with 1. lia.
  - intros j Hj. specialize (H5 j Hj). rewrite Hwl in H5. lia.
  - destruct H6 as [->|H6]; [by left|right]. unfold w in H6. rewrite Hwl in H6. lia.
Qed.

End CutPayload.

Lemma b32_churn_text_length (w : Z) :
  length (f_fmt 1 (Segmentation.calculate_churn_risk (F:=binary32) w)) <= 4.
Proof.
  unfold Segmentation.calculate_churn_risk.
  destruct (w <? 50)%Z; [|destruct (w <? 200)%Z; [|destruct (w <? 500)%Z]];
    vm_compute; lia.
Qed.

Section CutShape.
Context {F : Type} {ops : FloatOps F} {fmt : FloatFmt F}.

(** X15.  [perform_clustering] on a valid batch of 32-bit integers and a
    region of at least 100 bytes never cuts a record, in whatever
    arithmetic the clustering is computed, provided [%.1f] prints a churn
    risk with at most 85 characters (it prints 3 or 4) and no NUL: the
    text it leaves is an opening bracket, the first [k] records in input
    order, each followed by its comma, and a closing bracket, where [k] is
    the first index at which fewer than 150 bytes of the region are left,
    or the batch size.  When the output is cut after at least one record,
    the comma of the last record written stands right before the closing
    bracket. *)
Theorem cut_payload_shape (centroids : list (F * F)) (count : Z)
    (points wallets : list Z) (buf : list ascii) (buffer_size : Z) :
  let n := Z.to_nat count in
  let assignments := final_assignments centroids n points wallets in
  let record := record_of points wallets assignments in
  let out := output_text (snd (Segmentation.perform_clustering
                                 centroids true count (Some points) (Some wallets)
                                 (Some buf) buffer_size)) in
  (1 <= count)%Z -> (100 <= buffer_size)%Z ->
  length points = n -> length wallets = n ->
  length buf = Z.to_nat buffer_size ->
  Forall (fun v => - 2 ^ 31 <= v < 2 ^ 31)%Z points ->
  Forall (fun v => - 2 ^ 31 <= v < 2 ^ 31)%Z wallets ->
  (forall w, Forall (fun c => c <> NUL)
               (f_fmt 1 (Segmentation.calculate_churn_risk w))) ->
  (forall w, length (f_fmt 1 (Segmentation.calculate_churn_risk w)) <= 85) ->
  exists k,
    k <= n
    /\ out = chars "[" ++ joined n record k ++ chars "]"
    /\ (forall j, j < k ->
          (1 + Z.of_nat (length (joined n record j)) < buffer_size - 150)%Z)
    /\ (k = n \/ (buffer_size - 150 <= 1 + Z.of_nat (length (joined n record k)))%Z)
    /\ (0 < k < n -> exists t, out = t ++ chars ",]").
Proof.
  intros n assignments record out Hcount Hsize Hp Hw Hlen Hpts Hwls Hnul Hchurn.
  assert (Hrec : forall i, i < n -> length (record i) <= 148).
  { intros i Hi. unfold record, record_of.
    assert (Hx : (- 2 ^ 31 <= nth i points 0 < 2 ^ 31)%Z).
    { rewrite Forall_forall in Hpts. apply Hpts, list_elem_of_In, nth_In. lia. }
    assert (Hy : (- 2 ^ 31 <= nth i wallets 0 < 2 ^ 31)%Z).
    { rewrite Forall_forall in Hwls. apply Hwls, list_elem_of_In, nth_In. lia. }
    pose proof (record_text_length _ _ (nth i assignments 0)
                  (Segmentation.calculate_churn_risk (nth i wallets 0%Z)) Hx Hy) as Hl.
    pose proof (Hchurn (nth i wallets 0%Z)). lia. }
  destruct (build_json_cut n points wallets assignments buffer_size Hsize Hrec buf Hlen)
    as (k & Hk & Hh & Hbefore & Hstop).
  assert (Hout : out = chars "[" ++ joined n record k ++ chars "]").
  { unfold out, Segmentation.perform_clustering.
    destruct (count <=? 0)%Z eqn:Ec; [lia|].
    destruct (buffer_size <? 100)%Z eqn:Es; [lia|]. cbn [orb negb].
    fold n.
    pose proof (eq_refl : assignments
                = snd (Segmentation.kmeans Segmentation.MAX_ITERATIONS n points
                         wallets centroids (repeat 0 n))) as Hasg.
    destruct (Segmentation.kmeans _ _ _ _ _ _) as [cs asg].
    cbn [snd] in Hasg. subst asg. cbn [snd output_text].
    replace count with (Z.of_nat n) by lia.
    apply holds_cstring; [exact Hh|].
    apply Forall_app; split; [repeat constructor; discriminate|].
    apply Forall_app; split; [|repeat constructor; discriminate].
    apply joined_no_nul. intros i. apply record_text_no_nul, Hnul. }
  exists k. split_and!; try done.
  intros Hcut. destruct (joined_cut_comma n record k Hcut) as (t & Ht).
  exists (chars "[" ++ t). rewrite Hout, Ht.
  by rewrite <- !app_assoc.
Qed.

End CutShape.

(** The witness of [cut_payload_shape]: three observations and a region
    of 200 bytes, in which two of the records are written, in binary32. *)
Lemma cut_payload_shape_witness :
  let n := Z.to_nat 3 in
  let assignments :=
    final_assignments (F:=binary32) Segmentation.initial_centroids n
      [1; 300; 700]%Z [10; 600; 90]%Z in
  let record := record_of (F:=binary32) [1; 300; 700]%Z [10; 600; 90]%Z assignments in
  let out := output_text (snd (Segmentation.perform_clustering (F:=binary32)
                                 Segmentation.initial_centroids true 3
                                 (Some [1; 300; 700]%Z) (Some [10; 600; 90]%Z)
                                 (Some (repeat "#"%char 200)) 200)) in
  exists k,
    k <= n
    /\ out = chars "[" ++ joined n record k ++ chars "]"
    /\ (forall j, j < k ->
          (1 + Z.of_nat (length (joined n record j)) < 200 - 150)%Z)
    /\ (k = n \/ (200 - 150 <= 1 + Z.of_nat (length (joined n record k)))%Z)
    /\ (0 < k < n -> exists t, out = t ++ chars ",]").
Proof.
  apply (cut_payload_shape (F:=binary32) Segmentation.initial_centroids 3
           [1; 300; 700]%Z [10; 600; 90]%Z (repeat "#"%char 200) 200).
  - lia.
  - lia.
  - reflexivity.
  - reflexivity.
  - reflexivity.
  - repeat constructor; lia.
  - repeat constructor; lia.
  - exact b32_churn_text_no_nul.
  - intros w. pose proof (b32_churn_text_length w). lia.
Defined.
(** ** The length of printed floating-point numbers *)

Section PrintedFloats.

Lemma fmt_d_digit (n : Z) : (0 <= n < 10)%Z -> length (fmt_d n) = 1.
Proof.
  intros Hn.
  assert (H : In n (zrange 0 9)) by (apply in_zrange; lia).
  vm_compute in H. intuition (subst; reflexivity).
Qed.

Lemma fmt_digits_length (p : nat) : forall n : Z, length (fmt_digits p n) = p.
Proof.
  induction p as [|p IH]; intros n; [done|].
  cbn [fmt_digits]. rewrite length_app, IH, fmt_d_digit; [lia|].
  apply Z.mod_pos_bound. lia.
Qed.

(** A number that is not negative and at most [z < 10 ^ k] is printed
    with at most [k] digits before the point; a minus sign can only
    stand before a zero. *)
Lemma fmt_fixed_length (p : nat) (x : spec_float) (z : Z) (k : nat) :
  sf_below x z = true -> 1 <= k -> (0 <= z < 10 ^ Z.of_nat k)%Z ->
  length (fmt_fixed p x) <= 1 + k + (if p is 0 then 0 else 1 + p).
Proof.
  intros Hx Hk Hz.
  assert (Hbody : forall q : Z,
             (0 <= q <= z * 10 ^ Z.of_nat p)%Z ->
             length (fmt_d (q / 10 ^ Z.of_nat p)
                     ++ (if p is 0 then []
                         else chars "." ++ fmt_digits p (q mod 10 ^ Z.of_nat p)))
             <= k + (if p is 0 then 0 else 1 + p)).
  { intros q Hq.
    pose proof (Z.pow_pos_nonneg 10 (Z.of_nat p) ltac:(lia) ltac:(lia)) as Hpow.
    assert (Hdiv : (0 <= q / 10 ^ Z.of_nat p <= z)%Z).
    { split; [apply Z.div_pos; lia|].
      apply Z.div_le_upper_bound; [lia|]. lia. }
    pose proof (fmt_d_length (q / 10 ^ Z.of_nat p) k Hk ltac:(lia)) as Hd.
    assert (E : (q / 10 ^ Z.of_nat p <? 0)%Z = false) by (apply Z.ltb_ge; lia).
    rewrite E in Hd. rewrite length_app.
    destruct p; [cbn [length]; lia|].
    rewrite length_app, fmt_digits_length. cbn [length chars list_ascii_of_string]. lia. }
  pose proof (Z.pow_pos_nonneg 10 (Z.of_nat p) ltac:(lia) ltac:(lia)) as Hpow.
  unfold fmt_fixed. cbv beta zeta. destruct x as [s|s| |s m e]; try discriminate.
  - rewrite length_app.
    specialize (Hbody 0%Z ltac:(nia)).
    destruct s; cbn [length chars list_ascii_of_string] in *; lia.
  - destruct s; [discriminate|]. cbn [sf_below] in Hx.
    apply andb_true_iff in Hx as [He Hm].
    apply Z.leb_le in He. apply Z.leb_le in Hm.
    rewrite (Z.max_r e 0), (Z.max_l (- e) 0) by lia.
    change (2 ^ 0)%Z with 1%Z. rewrite Z.mul_1_r.
    set (den := (2 ^ (- e))%Z) in *.
    assert (Hden : (0 < den)%Z) by (apply Z.pow_pos_nonneg; lia).
    set (num := (Z.pos m * 10 ^ Z.of_nat p)%Z).
    assert (Hnum : (0 <= num <= z * 10 ^ Z.of_nat p * den)%Z) by (unfold num; nia).
    pose proof (Z.div_mod num den ltac:(lia)) as Hdm.
    pose proof (Z.mod_pos_bound num den Hden) as Hr.
    assert (Hq0 : (0 <= num / den)%Z) by (apply Z.div_pos; lia).
    assert (Hq : (num / den <= z * 10 ^ Z.of_nat p)%Z)
      by (apply Z.div_le_upper_bound; lia).
    cbn [app].
    set (q := if (den <? 2 * (num mod den))%Z
                 || ((den =? 2 * (num mod den))%Z && Z.odd (num / den))
              then (num / den + 1)%Z else (num / den)%Z).
    enough (Hq' : (0 <= q <= z * 10 ^ Z.of_nat p)%Z)
      by (specialize (Hbody q Hq'); lia).
    unfold q.
    destruct ((den <? 2 * (num mod den))%Z
              || ((den =? 2 * (num mod den))%Z && Z.odd (num / den))) eqn:Eround;
      [|lia].
    split; [lia|].
    destruct (Z.eq_dec (num / den)%Z (z * 10 ^ Z.of_nat p)%Z) as [Eq|Hne]; [|lia].
    exfalso.
    assert (Hr0 : (num mod den = 0)%Z) by nia.
    rewrite Hr0 in Eround.
    apply orb_true_iff in Eround as [H|H].
    + apply Z.ltb_lt in H. lia.
    + apply andb_true_iff in H as [H _]. apply Z.eqb_eq in H. lia.
Qed.

Lemma grid_text_checked :
  forallb (fun z => length (fmt_fixed 1 (b64_of_int z)) <=? 5) (zrange (-99) 99) = true.
Proof. vm_cast_no_check (eq_refl true). Qed.

(** A grid coordinate is printed with at most 5 characters. *)
Lemma grid_text_length (v : binary64) :
  on_grid v -> length (f_fmt 1 v) <= 5.
Proof.
  intros (z & Hz & ->).
  pose proof grid_text_checked as H. rewrite forallb_forall in H.
  apply Nat.leb_le, H, in_zrange. lia.
Qed.

End PrintedFloats.
(** ** The routing output in a region of any size *)

Section RouteOutput.

Section Generic.
Context {F : Type} {ops : FloatOps F} {inf : FloatInf F} {fmt : FloatFmt F}.
Variables (count : nat) (nodes : list (Routing.DeliveryNode (F:=F))) (route : list Z).
Variables (best_distance : F) (iteration : Z) (buffer_size : Z).

Let stop (i : nat) : list ascii :=
  Routing.stop_text (Routing.node_at nodes (Routing.stop_at route i)).
Let header : list ascii := Routing.header_text best_distance iteration.

Hypothesis Hheader : (Z.of_nat (length header) + 3 <= buffer_size)%Z.
Hypothesis Hstop : forall i, i < count -> length (stop i) <= 97.

(** The region ends up holding the header, the stops before the first
    one for which fewer than 100 bytes are left, each with its comma, the
    closing brackets and a NUL. *)
Lemma route_json_cut (buf : list ascii) :
  length buf = Z.to_nat buffer_size ->
  exists k,
    k <= count
    /\ holds (Routing.build_json (Z.of_nat count) nodes route best_distance iteration
                buffer_size buf)
         ((header ++ joined count stop k ++ chars "]}") ++ [NUL])
    /\ (forall j, j < k ->
          (Z.of_nat (length header + length (joined count stop j))
           < buffer_size - 100)%Z)
    /\ (k = count
        \/ (buffer_size - 100
            <= Z.of_nat (length header + length (joined count stop k)))%Z).
Proof.
  intros Hlen.
  destruct (emit_loop_cut_after_header 100 3 stop count buffer_size header
              ltac:(lia) ltac:(intros i Hi; specialize (Hstop i Hi); lia)
              buf Hlen ltac:(lia) ltac:(lia))
    as (k & Hk & H1 & H2 & H3 & H4 & H5 & H6).
  exists k.
  unfold Routing.build_json, Routing.emit_stops.
  rewrite Nat2Z.id.
  change (fun i : nat =>
            let idx := Routing.stop_at route i in
            Routing.stop_text (Routing.node_at nodes idx))
    with stop.
  fold header.
  destruct (snprintf buf 0 (buffer_size - 0) header) as [b0 n0] eqn:Es.
  assert (Hn0 : n0 = Z.of_nat (length header)).
  { unfold snprintf in Es. destruct (_ <=? _)%Z; by injection Es as _ <-. }
  subst n0. cbn [fst] in H1, H2, H3.
  destruct (emit_loop _ _ _ _ _ _ _ _ _) as [buf1 off1].
  cbn [fst snd] in H1, H2, H3. subst off1.
  set (w := header ++ joined count stop k) in *.
  assert (Hend : (Z.of_nat (length w) <? buffer_size - 2)%Z = true)
    by (apply Z.ltb_lt; lia).
  rewrite Hend.
  assert (Hwl : forall j, length (header ++ joined count stop j)
                          = length header + length (joined count stop j))
    by (intros j; by rewrite length_app).
  split_and!.
  - done.
  - unfold snprintf.
    assert (Hn : (buffer_size - Z.of_nat (length w) <=? 0)%Z = false)
      by (apply Z.leb_gt; lia).
    rewrite Hn. cbn [fst].
    rewrite take_ge by (cbn [length chars list_ascii_of_string]; lia).
    rewrite Nat2Z.id.
    replace ((header ++ joined count stop k ++ chars "]}") ++ [NUL])
      with (w ++ chars "]}" ++ [NUL])
      by (unfold w; by rewrite <- !app_assoc).
    apply holds_poke; [done|].
    cbn [length chars list_ascii_of_string app]. lia.
  - intros j Hj. specialize (H5 j Hj). rewrite Hwl in H5. lia.
  - destruct H6 as [->|H6]; [by left|right]. unfold w in H6. rewrite Hwl in H6. lia.
Qed.

End Generic.

(** The nodes that a route over generated nodes can name: their ids are
    below 100 and their types are HUB, DROP or, beyond the array, empty. *)
Lemma generated_node_label (count : nat) (rand : nat -> Z) (r : Z) :
  1 <= count -> count <= 100 ->
  let a := Routing.node_at
             (Routing.generate_delivery_locations (F:=binary64) count rand) r in
  (0 <= Routing.id a < 100)%Z
  /\ In (Routing.type a) ["HUB"; "DROP"; ""]%string.
Proof.
  intros Hc Hmax a.
  destruct (generated_nodes (F:=binary64) count rand Hc) as [Hl Hn].
  destruct (Nat.lt_ge_cases (Z.to_nat r) count) as [Hlt|Hge].
  - specialize (Hn (Z.to_nat r) Hlt).
    unfold Routing.node_at in Hn. rewrite Nat2Z.id in Hn.
    unfold a, Routing.node_at. rewrite Hn.
    destruct (Z.to_nat r =? 0); cbn [Routing.id Routing.type In]; split;
      first [lia | tauto].
  - unfold a, Routing.node_at. rewrite nth_overflow by lia.
    cbn [Routing.id Routing.type In]. split; first [lia | tauto].
Qed.

(** The text of such a stop has at most 43 characters and no NUL. *)
Lemma generated_stop_text (count : nat) (rand : nat -> Z) (r : Z) :
  1 <= count -> count <= 100 ->
  let a := Routing.node_at
             (Routing.generate_delivery_locations (F:=binary64) count rand) r in
  length (Routing.stop_text a) <= 43
  /\ Forall (fun c => c <> NUL) (Routing.stop_text a).
Proof.
  intros Hc Hmax a.
  destruct (generated_node_label count rand r Hc Hmax) as [Hid Hty].
  destruct (node_at_on_grid count rand r Hc) as [Hx Hy].
  fold a in Hid, Hty, Hx, Hy.
  apply grid_text_length in Hx, Hy.
  pose proof (fmt_d_length (Routing.id a) 2 ltac:(lia) ltac:(lia)) as Hd.
  assert (E : (Routing.id a <? 0)%Z = false) by (apply Z.ltb_ge; lia).
  rewrite E in Hd.
  assert (Hq : length (quoted (Routing.type a)) <= 6
               /\ Forall (fun c => c <> NUL) (quoted (Routing.type a))).
  { cbn [In] in Hty. destruct Hty as [<-|[<-|[<-|[]]]];
      (split; [cbn; lia|repeat constructor; discriminate]). }
  destruct Hq as [Hql Hqn].
  unfold Routing.stop_text.
  set (tx := f_fmt 1 (Routing.x a)) in *. set (ty := f_fmt 1 (Routing.y a)) in *.
  set (ti := fmt_d (Routing.id a)) in *. set (tq := quoted (Routing.type a)) in *.
  split.
  - repeat (cbn [length app chars list_ascii_of_string quoted]; rewrite ?length_app).
    lia.
  - repeat (apply Forall_app; split);
      first [ assumption | apply fmt_d_no_nul | apply fmt_fixed_no_nul
            | repeat constructor; discriminate ].
Qed.

(** The header has at most 54 characters and no NUL. *)
Lemma header_text_bound (best : binary64) (iteration : Z) :
  sf_below best 28100 = true -> (1 <= iteration <= 200)%Z ->
  length (Routing.header_text best iteration) <= 54
  /\ Forall (fun c => c <> NUL) (Routing.header_text best iteration).
Proof.
  intros Hb Hit.
  pose proof (fmt_fixed_length 2 best 28100 5 Hb ltac:(lia) ltac:(lia)) as Hf.
  cbv iota in Hf.
  pose proof (fmt_d_length iteration 3 ltac:(lia) ltac:(lia)) as Hd.
  assert (E : (iteration <? 0)%Z = false) by (apply Z.ltb_ge; lia).
  rewrite E in Hd.
  unfold Routing.header_text.
  change (f_fmt 2 best) with (fmt_fixed 2 best).
  set (tb := fmt_fixed 2 best) in *. set (ti := fmt_d iteration) in *.
  split.
  - repeat (cbn [length app chars list_ascii_of_string quoted]; rewrite ?length_app).
    lia.
  - repeat (apply Forall_app; split);
      first [ apply fmt_d_no_nul | apply fmt_fixed_no_nul
            | repeat constructor; discriminate ].
Qed.

(** X16.  With its three blocks allocated and a region of at least 100
    bytes, [optimize_route] always leaves a complete frame: the header
    with the distance and the pass count (at most 54 characters), the
    first [k] stops of the tour in tour order, each followed by its
    comma, and the closing brackets; [k] is the first index at which
    fewer than 100 bytes of the region are left, or the stop count.  No
    stop is cut, and a list cut after at least one stop ends with a comma
    before the closing brackets. *)
Theorem route_output_shape (calloc_ok : bool) (rand : nat -> Z) (num_stops : Z)
    (buf : list ascii) (buffer_size : Z) :
  let count := Z.to_nat (Routing.clamp_stops num_stops) in
  (100 <= buffer_size)%Z ->
  length buf = Z.to_nat buffer_size ->
  exists nodes route0 s iteration out k,
    Routing.plan_route (F:=binary64) count calloc_ok rand
    = Some (nodes, route0, (s, iteration))
    /\ Routing.optimize_route (F:=binary64) true true true calloc_ok rand num_stops
         (Some buf) buffer_size
       = Some (Some out)
    /\ let stop := fun i =>
         Routing.stop_text (Routing.node_at nodes (Routing.stop_at (Routing.route s) i)) in
       let header := Routing.header_text (Routing.best_distance s) iteration in
       k <= count
       /\ cstring out = header ++ joined count stop k ++ chars "]}"
       /\ length header <= 54
       /\ (forall j, j < k ->
             (Z.of_nat (length header + length (joined count stop j))
              < buffer_size - 100)%Z)
       /\ (k = count
           \/ (buffer_size - 100
               <= Z.of_nat (length header + length (joined count stop k)))%Z)
       /\ (0 < k < count -> exists t, cstring out = t ++ chars ",]}").
Proof.
  intros count Hsize Hlen.
  pose proof (clamp_stops_range num_stops) as Hrange.
  assert (Hc : 1 <= count) by (unfold count; lia).
  assert (Hmax : count <= 100) by (unfold count; lia).
  destruct (plan_route_outcome calloc_ok rand num_stops)
    as (route0 & s & iteration & Hplan & _ & _ & Hb & Hit).
  fold count in Hplan, Hb.
  set (nodes := Routing.generate_delivery_locations (F:=binary64) count rand) in *.
  assert (Hb' : sf_below (Routing.best_distance s) 28100 = true).
  { destruct (Routing.best_distance s) as [| | |[] m e]; try done.
    cbn [sf_below] in Hb |- *.
    apply andb_true_iff in Hb as [He Hm]. apply andb_true_iff. split; [done|].
    apply Z.leb_le in Hm. apply Z.leb_le in He. apply Z.leb_le.
    pose proof (Z.pow_pos_nonneg 2 (- e) ltac:(lia) ltac:(lia)). nia. }
  destruct (header_text_bound _ iteration Hb' Hit) as [Hhl Hhn].
  assert (Hheader : (Z.of_nat (length (Routing.header_text (Routing.best_distance s)
                                         iteration)) + 3 <= buffer_size)%Z) by lia.
  assert (Hstops : forall i, i < count ->
             length (Routing.stop_text
                       (Routing.node_at nodes (Routing.stop_at (Routing.route s) i)))
             <= 97).
  { intros i _.
    destruct (generated_stop_text count rand
                (Routing.stop_at (Routing.route s) i) Hc Hmax) as [H _].
    fold nodes in H. lia. }
  destruct (route_json_cut count nodes (Routing.route s) (Routing.best_distance s)
              iteration buffer_size Hheader Hstops buf Hlen)
    as (k & Hk & Hh & Hbefore & Hstop).
  exists nodes, route0, s, iteration.
  exists (Routing.build_json (Z.of_nat count) nodes (Routing.route s)
            (Routing.best_distance s) iteration buffer_size buf), k.
  split; [done|]. split.
  { unfold Routing.optimize_route.
    destruct (buffer_size <? 100)%Z eqn:Es; [lia|]. cbn [negb orb].
    fold count. rewrite Hplan.
    by replace (Routing.clamp_stops num_stops) with (Z.of_nat count)
      by (unfold count; lia). }
  cbv zeta.
  assert (Hout : cstring (Routing.build_json (Z.of_nat count) nodes (Routing.route s)
                            (Routing.best_distance s) iteration buffer_size buf)
                 = Routing.header_text (Routing.best_distance s) iteration
                   ++ joined count
                        (fun i => Routing.stop_text
                                    (Routing.node_at nodes
                                       (Routing.stop_at (Routing.route s) i))) k
                   ++ chars "]}").
  { apply holds_cstring; [exact Hh|].
    apply Forall_app; split; [done|].
    apply Forall_app; split; [|repeat constructor; discriminate].
    apply joined_no_nul. intros i.
    by destruct (generated_stop_text count rand
                   (Routing.stop_at (Routing.route s) i) Hc Hmax). }
  split_and!; try done.
  intros Hcut.
  destruct (joined_cut_comma count
              (fun i => Routing.stop_text
                          (Routing.node_at nodes (Routing.stop_at (Routing.route s) i)))
              k Hcut) as (t & Ht).
  exists (Routing.header_text (Routing.best_distance s) iteration ++ t).
  rewrite Hout, Ht. by rewrite <- !app_assoc.
Qed.

(** The witness of [route_output_shape]: five stops and a region of 150
    bytes. *)
Lemma route_output_shape_witness :
  let count := Z.to_nat (Routing.clamp_stops 5) in
  exists nodes route0 s iteration out k,
    Routing.plan_route (F:=binary64) count true (fun i => Z.of_nat (17 * i + 3))
    = Some (nodes, route0, (s, iteration))
    /\ Routing.optimize_route (F:=binary64) true true true true
         (fun i => Z.of_nat (17 * i + 3)) 5 (Some (repeat "#"%char 150)) 150
       = Some (Some out)
    /\ let stop := fun i =>
         Routing.stop_text (Routing.node_at nodes (Routing.stop_at (Routing.route s) i)) in
       let header := Routing.header_text (Routing.best_distance s) iteration in
       k <= count
       /\ cstring out = header ++ joined count stop k ++ chars "]}"
       /\ length header <= 54
       /\ (forall j, j < k ->
             (Z.of_nat (length header + length (joined count stop j))
              < 150 - 100)%Z)
       /\ (k = count
           \/ (150 - 100
               <= Z.of_nat (length header + length (joined count stop k)))%Z)
       /\ (0 < k < count -> exists t, cstring out = t ++ chars ",]}").
Proof.
  apply (route_output_shape true (fun i => Z.of_nat (17 * i + 3)) 5
           (repeat "#"%char 150) 150).
  - lia.
  - reflexivity.
Defined.

End RouteOutput.
(** ** The first stop of the tour *)

Section FirstStop.

Section Generic.
Context {F : Type} {ops : FloatOps F} {inf : FloatInf F}.
Variable nodes : list (Routing.DeliveryNode (F:=F)).

(** The nearest-neighbour step writes 0 at position 0 and never comes
    back to it. *)
Lemma nearest_neighbor_first_stop (route route0 : list Z) (count : nat)
    (calloc_ok : bool) :
  1 <= count -> length route = count ->
  Routing.initialize_route_nearest_neighbor nodes route count calloc_ok = Some route0 ->
  Routing.stop_at route0 0 = 0%Z.
Proof.
  intros Hc Hlen. unfold Routing.initialize_route_nearest_neighbor.
  destruct calloc_ok; cbn [negb].
  - match goal with
    | |- option_map fst (for_loop 1 count ?body ?s) = _ -> _ =>
        assert (HP : match for_loop 1 count body s with
                     | Some (r, _) => Routing.stop_at r 0 = 0%Z
                     | None => True
                     end)
    end.
    { apply (for_loop_inv
               (fun (_ : nat) (st : option (list Z * list bool)) =>
                  match st with
                  | Some (r, _) => Routing.stop_at r 0 = 0%Z
                  | None => True
                  end)); [done| |].
      - unfold Routing.stop_at. apply nth_insert_eq. lia.
      - intros i [[r vis]|] Hi Hr; [|done].
        destruct (_ <? 0)%Z; [done|].
        unfold Routing.stop_at in *. by rewrite nth_insert_ne by lia. }
    destruct (for_loop 1 count _ _) as [[r vis]|]; [|discriminate].
    cbn. by intros [= <-].
  - intros [= <-]. rewrite identity_route by done.
    unfold Routing.stop_at. destruct count; [lia|done].
Qed.

(** No reversal of the 2-opt phase touches position 0. *)
Lemma two_opt_keeps_first_stop (n : nat) (route new_route : list Z) :
  length route = n -> length new_route = n ->
  Routing.stop_at (Routing.route (fst (Routing.two_opt nodes n route new_route))) 0
  = Routing.stop_at route 0.
Proof.
  intros Hr Hn. unfold Routing.two_opt.
  set (P := fun t : Routing.search =>
              consistent nodes n t
              /\ Routing.stop_at (Routing.route t) 0 = Routing.stop_at route 0).
  enough (HP : P (fst (Routing.two_opt_loop Routing.MAX_ITERATIONS nodes n 0
                         {| Routing.route := route; Routing.new_route := new_route;
                            Routing.best_distance :=
                              Routing.calculate_route_distance nodes route n;
                            Routing.improved := true |}))) by apply HP.
  apply two_opt_loop_preserves; [|by split].
  intros t [Hc Ht]. rewrite two_opt_pass_pairs.
  assert (Hfold : forall pairs s,
             (forall p, In p pairs -> 1 <= fst p /\ fst p < snd p /\ snd p < n) ->
             P s ->
             P (fold_left (fun s p => Routing.try_swap nodes n (fst p) (snd p) s)
                  pairs s)).
  { induction pairs as [|p pairs IH]; intros s Hv Hs; [done|].
    cbn [fold_left]. apply IH; [intros q Hq; apply Hv; by right|].
    destruct (Hv p ltac:(by left)) as (H1 & H2 & H3).
    destruct Hs as [Hcs Hs0]. split; [apply try_swap_consistent; (lia || done)|].
    destruct Hcs as (Hlr & Hln & _).
    rewrite try_swap_unfold by (lia || done). cbv zeta.
    destruct (f_lt _ _); cbn [Routing.route]; [|done].
    rewrite reversed_segment_lookup by lia.
    destruct (Nat.leb_spec (fst p) 0) as [Hle|_]; [lia|done]. }
  apply Hfold; [apply swap_pairs_valid|].
  destruct Hc as (Hlr & Hln & Hb). split; [|done]. by split_and!.
Qed.

End Generic.

(** X17.  The tour that [optimize_route] reports always starts at the
    hub: its first stop is node 0, the node with id 0 and type HUB at
    (50, 50), whatever the stop count requested, the outcome of the
    [calloc] and the values of [rand()]; the 2-opt phase never moves it. *)
Theorem reported_tour_starts_at_hub (calloc_ok : bool) (rand : nat -> Z)
    (num_stops : Z) :
  let count := Z.to_nat (Routing.clamp_stops num_stops) in
  exists nodes route0 s iteration,
    Routing.plan_route (F:=binary64) count calloc_ok rand
    = Some (nodes, route0, (s, iteration))
    /\ Routing.stop_at route0 0 = 0%Z
    /\ Routing.stop_at (Routing.route s) 0 = 0%Z
    /\ Routing.node_at nodes (Routing.stop_at (Routing.route s) 0)
       = {| Routing.id := 0; Routing.x := b64_of_int 50; Routing.y := b64_of_int 50;
            Routing.type := "HUB"%string |}.
Proof.
  intros count.
  pose proof (clamp_stops_range num_stops) as Hrange.
  assert (Hc : 1 <= count) by (unfold count; lia).
  destruct (plan_route_outcome calloc_ok rand num_stops)
    as (route0 & s & iteration & Hplan & _).
  fold count in Hplan.
  set (nodes := Routing.generate_delivery_locations (F:=binary64) count rand) in *.
  exists nodes, route0, s, iteration. split; [done|].
  unfold Routing.plan_route in Hplan. fold nodes in Hplan.
  destruct (Routing.initialize_route_nearest_neighbor nodes (repeat 0%Z count) count
              calloc_ok) as [r0|] eqn:Enn; [|discriminate].
  injection Hplan as <- Htwo.
  pose proof (nearest_neighbor_first_stop nodes (repeat 0%Z count) r0 count calloc_ok
                Hc (repeat_length _ _) Enn) as H0.
  destruct (generated_nodes (F:=binary64) count rand Hc) as [Hl Hn].
  fold nodes in Hl, Hn.
  destruct (nearest_neighbor_is_tour nodes count Hl
              (generated_distances_finite count rand Hc)
              (repeat 0%Z count) calloc_ok Hc (repeat_length _ _))
    as (r0' & Hnn & Ht0).
  rewrite Enn in Hnn. injection Hnn as <-.
  pose proof (two_opt_keeps_first_stop nodes count r0 (repeat 0%Z count)
                (is_tour_length _ _ Ht0) (repeat_length _ _)) as Hkeep.
  rewrite Htwo in Hkeep. cbn [fst] in Hkeep. rewrite H0 in Hkeep.
  split; [done|]. split; [done|].
  rewrite Hkeep.
  pose proof (Hn 0 ltac:(lia)) as Hhub.
  change (Z.of_nat 0) with 0%Z in Hhub. cbn [Nat.eqb] in Hhub.
  rewrite Hhub. f_equal; by vm_compute.
Qed.

End FirstStop.
(** ** The movement that the update step reports *)

Section Movement.
Context {F : Type} {ops : FloatOps F}.

Hypothesis Hirr : forall a : F, f_lt a a = false.
Hypothesis Htr : forall a b c : F,
  f_lt a b = true -> f_lt b c = true -> f_lt a c = true.

(** The value returned by [update_centroids] is the largest displacement
    among the clusters that have members, found by a scan that starts
    from zero. *)
Lemma update_centroids_movement (count : nat) (points wallets : list Z)
    (assignments : list nat) (centroids : list (F * F)) :
  length centroids = Segmentation.NUM_CLUSTERS ->
  (forall i, i < count -> nth i assignments 0 < Segmentation.NUM_CLUSTERS) ->
  let r := Segmentation.update_centroids count points wallets assignments centroids in
  let moved := fun k =>
    Segmentation.euclidean_distance
      (fst (Segmentation.centroid centroids k)) (snd (Segmentation.centroid centroids k))
      (fst (Segmentation.centroid (snd r) k)) (snd (Segmentation.centroid (snd r) k)) in
  (fst r = f_lit 0 1
   \/ exists k, k < Segmentation.NUM_CLUSTERS
                /\ members k count assignments <> [] /\ fst r = moved k)
  /\ forall k, k < Segmentation.NUM_CLUSTERS -> members k count assignments <> [] ->
       f_lt (fst r) (moved k) = false.
Proof.
  intros Hlen Hrange r moved.
  set (target := fun j =>
         match members j count assignments with
         | [] => Segmentation.centroid centroids j
         | _ :: _ => damped (mean_position j count points wallets assignments)
                       (Segmentation.centroid centroids j)
         end).
  set (dist := fun j =>
         Segmentation.euclidean_distance
           (fst (Segmentation.centroid centroids j))
           (snd (Segmentation.centroid centroids j))
           (fst (target j)) (snd (target j))).
  assert (Hinv :
    (forall j, j < Segmentation.NUM_CLUSTERS ->
       Segmentation.centroid (snd r) j
       = if j <? Segmentation.NUM_CLUSTERS then target j
         else Segmentation.centroid centroids j)
    /\ (fst r = f_lit 0 1
        \/ exists k, k < Segmentation.NUM_CLUSTERS
                     /\ members k count assignments <> [] /\ fst r = dist k)
    /\ forall k, k < Segmentation.NUM_CLUSTERS -> members k count assignments <> [] ->
         f_lt (fst r) (dist k) = false).
  { unfold r, Segmentation.update_centroids.
    pose proof (accumulate_spec count points wallets assignments Hrange) as Hacc.
    simpl in Hacc.
    destruct (Segmentation.accumulate count points wallets assignments) as [nc cc].
    simpl in Hacc.
    pose (Q := fun (n : nat) (st : F * list (F * F)) =>
           length (snd st) = Segmentation.NUM_CLUSTERS
           /\ (forall j, j < Segmentation.NUM_CLUSTERS ->
                 Segmentation.centroid (snd st) j
                 = if j <? n then target j else Segmentation.centroid centroids j)
           /\ (fst st = f_lit 0 1
               \/ exists k, k < n /\ members k count assignments <> []
                            /\ fst st = dist k)
           /\ forall k, k < n -> members k count assignments <> [] ->
                f_lt (fst st) (dist k) = false).
    match goal with
    | |- context [for_loop 0 Segmentation.NUM_CLUSTERS ?body ?s0] =>
        enough (HQ : Q Segmentation.NUM_CLUSTERS
                       (for_loop 0 Segmentation.NUM_CLUSTERS body s0))
    end.
    { destruct HQ as (_ & H1 & H2 & H3). split; [done|]. split; [|done].
      destruct H2 as [H2|(k & Hk & Hm & H2)]; [by left|right]. by exists k. }
    apply (for_loop_inv Q); [lia| |]; unfold Q.
    - cbn [fst snd]. split; [done|]. split; [done|]. split; [by left|]. intros k Hk. lia.
    - intros n [mm cs] Hn (Hl & Hj & Hmm & Hmax). cbn [fst snd] in *.
      destruct (Hacc n ltac:(lia)) as [Hsum Hcnt].
      assert (Hold : Segmentation.centroid cs n = Segmentation.centroid centroids n).
      { rewrite Hj by lia. by rewrite Nat.ltb_irrefl. }
      assert (Hpos : forall c' : list (F * F),
                 (forall j, j <> n ->
                    Segmentation.centroid c' j = Segmentation.centroid cs j) ->
                 Segmentation.centroid c' n = target n ->
                 forall j, j < Segmentation.NUM_CLUSTERS ->
                   Segmentation.centroid c' j
                   = if j <? S n then target j else Segmentation.centroid centroids j).
      { intros c' Hne Heq j Hlt. destruct (decide (j = n)) as [->|Hjn].
        - assert (E : (n <? S n) = true) by (apply Nat.ltb_lt; lia). by rewrite E.
        - rewrite Hne, Hj by done.
          destruct (j <? n) eqn:E1, (j <? S n) eqn:E2; try done;
            first [apply Nat.ltb_lt in E1 | apply Nat.ltb_ge in E1];
            first [apply Nat.ltb_lt in E2 | apply Nat.ltb_ge in E2]; lia. }
      destruct (0 <? nth n cc 0)%Z eqn:Epos.
      + assert (Hmem : members n count assignments <> []).
        { intros E. rewrite E in Hcnt. cbn in Hcnt. apply Z.ltb_lt in Epos. lia. }
        set (updated :=
               (f_add (f_mul (f_lit 7 10)
                         (f_div (fst (nth n nc (f_of_int 0, f_of_int 0)))
                            (f_of_int (nth n cc 0%Z))))
                  (f_mul (f_lit 3 10) (fst (Segmentation.centroid cs n))),
                f_add (f_mul (f_lit 7 10)
                         (f_div (snd (nth n nc (f_of_int 0, f_of_int 0)))
                            (f_of_int (nth n cc 0%Z))))
                  (f_mul (f_lit 3 10) (snd (Segmentation.centroid cs n))))).
        assert (Hup : updated = target n).
        { unfold updated, target. rewrite Hold, Hsum, Hcnt.
          destruct (members n count assignments) as [|a l] eqn:E; [done|].
          rewrite <- E. reflexivity. }
        assert (Hmove : Segmentation.euclidean_distance
                          (fst (Segmentation.centroid cs n))
                          (snd (Segmentation.centroid cs n))
                          (fst updated) (snd updated) = dist n).
        { unfold dist. by rewrite Hup, Hold. }
        change (let movement :=
                  Segmentation.euclidean_distance
                    (fst (Segmentation.centroid cs n)) (snd (Segmentation.centroid cs n))
                    (fst updated) (snd updated) in
                let st := (if f_lt mm movement then movement else mm,
                           <[n := updated]> cs) in
                length (snd st) = Segmentation.NUM_CLUSTERS
                /\ (forall j, j < Segmentation.NUM_CLUSTERS ->
                      Segmentation.centroid (snd st) j
                      = if j <? S n then target j
                        else Segmentation.centroid centroids j)
                /\ (fst st = f_lit 0 1
                    \/ exists k, k < S n /\ members k count assignments <> []
                                 /\ fst st = dist k)
                /\ forall k, k < S n -> members k count assignments <> [] ->
                     f_lt (fst st) (dist k) = false).
        cbv zeta. rewrite Hmove. cbn [fst snd].
        split; [by rewrite length_insert|]. split.
        { apply Hpos.
          - intros j Hne. unfold Segmentation.centroid. by rewrite nth_insert_ne.
          - unfold Segmentation.centroid. rewrite nth_insert_eq by lia. done. }
        destruct (f_lt mm (dist n)) eqn:Elt.
        * split; [right; exists n; split_and!; (lia || done)|].
          intros k Hk Hm. destruct (decide (k = n)) as [->|Hne]; [apply Hirr|].
          destruct (f_lt (dist n) (dist k)) eqn:E; [|done].
          rewrite <- (Hmax k ltac:(lia) Hm). symmetry. by apply (Htr _ (dist n)).
        * split.
          { destruct Hmm as [->|(k & Hk & Hm & ->)]; [by left|right].
            exists k. split_and!; (lia || done). }
          intros k Hk Hm. destruct (decide (k = n)) as [->|Hne]; [done|].
          apply Hmax; [lia|done].
      + assert (Hmem : members n count assignments = []).
        { apply Z.ltb_ge in Epos. destruct (members n count assignments); [done|].
          cbn [length] in Hcnt. lia. }
        cbn [fst snd]. split; [done|]. split.
        { apply Hpos; [done|]. rewrite Hold. unfold target. by rewrite Hmem. }
        split.
        { destruct Hmm as [->|(k & Hk & Hm & ->)]; [by left|right].
          exists k. split_and!; (lia || done). }
        intros k Hk Hm. destruct (decide (k = n)) as [->|Hne]; [done|].
        apply Hmax; [lia|done]. }
  destruct Hinv as (Hposn & Hsome & Hmax).
  assert (Hmoved : forall k, k < Segmentation.NUM_CLUSTERS -> moved k = dist k).
  { intros k Hk. unfold moved, dist. rewrite Hposn by done.
    by apply Nat.ltb_lt in Hk as ->. }
  split.
  - destruct Hsome as [H|(k & Hk & Hm & H)]; [by left|right].
    exists k. rewrite Hmoved by done. done.
  - intros k Hk Hm. rewrite Hmoved by done. by apply Hmax.
Qed.

End Movement.

(** X18.  In [float] arithmetic the movement that [update_centroids]
    returns is 0.0 or the displacement of a cluster that has members,
    and no cluster that has members was displaced by more: the
    convergence test of the K-Means loop compares the largest
    displacement of the round with the threshold. *)
Theorem reported_movement_is_largest (count : nat) (points wallets : list Z)
    (assignments : list nat) (centroids : list (binary32 * binary32)) :
  length centroids = Segmentation.NUM_CLUSTERS ->
  (forall i, i < count -> nth i assignments 0 < Segmentation.NUM_CLUSTERS) ->
  let r := Segmentation.update_centroids (F:=binary32) count points wallets
             assignments centroids in
  let moved := fun k =>
    Segmentation.euclidean_distance
      (fst (Segmentation.centroid centroids k)) (snd (Segmentation.centroid centroids k))
      (fst (Segmentation.centroid (snd r) k)) (snd (Segmentation.centroid (snd r) k)) in
  (fst r = f_lit 0 1
   \/ exists k, k < Segmentation.NUM_CLUSTERS
                /\ members k count assignments <> [] /\ fst r = moved k)
  /\ forall k, k < Segmentation.NUM_CLUSTERS -> members k count assignments <> [] ->
       f_lt (fst r) (moved k) = false.
Proof.
  intros Hlen Hrange.
  apply (update_centroids_movement (F:=binary32) (ops:=b32_ops)
           SFltb_irrefl SFltb_trans
           count points wallets assignments centroids Hlen Hrange).
Qed.

(** The witness of [reported_movement_is_largest]: three observations,
    the first and the last with Bronze, the second with Gold. *)
Lemma reported_movement_is_largest_witness :
  let r := Segmentation.update_centroids (F:=binary32) 3 [10; 40; 20]%Z
             [20; 600; 40]%Z [0; 2; 0] Segmentation.initial_centroids in
  let moved := fun k =>
    Segmentation.euclidean_distance
      (fst (Segmentation.centroid Segmentation.initial_centroids k))
      (snd (Segmentation.centroid Segmentation.initial_centroids k))
      (fst (Segmentation.centroid (snd r) k)) (snd (Segmentation.centroid (snd r) k)) in
  (fst r = f_lit 0 1
   \/ exists k, k < Segmentation.NUM_CLUSTERS
                /\ members k 3 [0; 2; 0] <> [] /\ fst r = moved k)
  /\ forall k, k < Segmentation.NUM_CLUSTERS -> members k 3 [0; 2; 0] <> [] ->
       f_lt (fst r) (moved k) = false.
Proof.
  apply (reported_movement_is_largest 3 [10; 40; 20]%Z [20; 600; 40]%Z [0; 2; 0]
           Segmentation.initial_centroids).
  - reflexivity.
  - intros [|[|[|i]]] Hi; simpl; unfold Segmentation.NUM_CLUSTERS; lia.
Defined.
